(** * RedditThreadArchiver: comment-tree retrieval and Q&A correlation

    A shallow embedding of the core of the archiver:
    - [models.py]: the [Comment] and [QAPair] dataclasses;
    - [archiver.py]: [RedditArchiver.extract_qa_pairs];
    - [reddit_client.py] and [public_reddit_client.py]: the tree walker
      [_process_comment_listing], the request gate [_request] with
      [_rate_limit] and [authenticate], and the expansion loop of
      [get_all_comments];
    - [server.py]: [extract_qa_pairs];
    - [exporters.py]: [MarkdownExporter.export] and [TextExporter.export];
    - [config.py]: [Config.__init__] with [_validate].

    Python objects that the code mutates in place (the [comments] and
    [more_ids] lists, the [fetched_ids] set, the [qa_pairs] list) are
    threaded explicitly; the network and the clock are a [world] that every
    effectful function takes and returns.

    What the model fixes:
    - responses are well-shaped: a listing is a list of [t1] things, [more]
      things and things of other kinds, with [dict.get] defaults for absent
      keys; a body that does not decode is [BodyInvalid];
    - [created_utc] is an integer number of seconds, and [Retry-After] a
      number of seconds;
    - the clock moves when the program sleeps and while a call is under way;
    - recursion and loops take [fuel]; Python's own recursion limit is not
      modelled;
    - [str.lower] is the ASCII one. *)

From stdpp Require Import gmap strings list pretty.
From Stdlib Require Import ZArith Ascii String Sorting.Sorted Sorting.Permutation Lia.

Set Warnings "-register-all,-clear-no-such-hyp".

Open Scope Z_scope.

(** ** Python strings *)

Module PyStr.

(** [bool(s)] for a [str]: the empty string is falsy. *)
Definition truthy (s : string) : bool := negb (bool_decide (s = "")).

(** [s[n:]] *)
Definition slice_from (n : nat) (s : string) : string :=
  String.substring n (String.length s - n) s.

(** [s.startswith(p)] *)
Definition startswith (s p : string) : bool := String.prefix p s.

(** [str.lower] on one character; user names are ASCII, other bytes are
    left as they are. *)
Definition lower_ascii (c : ascii) : ascii :=
  let n := nat_of_ascii c in
  if ((65 <=? n) && (n <=? 90))%nat then ascii_of_nat (n + 32) else c.

(** [s.lower()] *)
Fixpoint lower (s : string) : string :=
  match s with
  | EmptyString => EmptyString
  | String c s' => String (lower_ascii c) (lower s')
  end.

(** [sep.join(parts)] *)
Definition join (sep : string) (parts : list string) : string :=
  String.concat sep parts.

End PyStr.

(** ** models.py *)

(** [created_utc] is seconds since the epoch; Reddit sends whole seconds, and
    the key comparisons of [list.sort] are those of a total order, so the
    field is an integer here. *)
Record Comment := mkComment {
  c_id : string;
  c_author : string;
  c_body : string;
  c_created_utc : Z;
  c_parent_id : string;
  c_permalink : string;
  c_score : Z;
  c_is_submitter : bool
}.

Record QAPair := mkQAPair {
  question : Comment;
  answers : list Comment
}.

(** ** [list.sort(key=...)]

    Python's sort is stable; a stable sort has one possible result, which
    insertion from the right computes. *)

Section Sort.
Context {A : Type} (key : A -> Z).

Fixpoint insert_by (x : A) (l : list A) : list A :=
  match l with
  | [] => [x]
  | y :: l' => if key x <=? key y then x :: y :: l' else y :: insert_by x l'
  end.

Definition sort_by (l : list A) : list A := foldr insert_by [] l.
End Sort.

(** ** archiver.py: [RedditArchiver.extract_qa_pairs] *)

Module RedditArchiver.

(** [body in ("[deleted]", "[removed]")] *)
Definition is_deleted_body (body : string) : bool :=
  bool_decide (body = "[deleted]") || bool_decide (body = "[removed]").

(** [for comment in submission.comments: comment_map[comment.id] = comment] *)
Definition build_comment_map (comments : list Comment) : gmap string Comment :=
  fold_left (fun m c => <[c_id c := c]> m) comments ∅.

(** [existing.answers.append(comment)] *)
Definition append_answer (comment : Comment) (qa : QAPair) : QAPair :=
  {| question := question qa; answers := answers qa ++ [comment] |}.

(** The part of the loop body that files [comment] under [parent]:
    [next((qa for qa in qa_pairs if qa.question.id == parent.id), None)]
    gives the first group of that question, to which the answer is appended
    in place; without one a new group goes to the end of [qa_pairs]. *)
Definition file_answer (parent comment : Comment) (qa_pairs : list QAPair)
  : list QAPair :=
  match list_find (fun qa => c_id (question qa) = c_id parent) qa_pairs with
  | Some (i, _) => alter (append_answer comment) i qa_pairs
  | None => qa_pairs ++ [{| question := parent; answers := [comment] |}]
  end.

(** One iteration of [for comment in submission.comments]. *)
Definition qa_step (answer_authors_lower : list string) (include_deleted : bool)
    (comment_map : gmap string Comment)
    (qa_pairs : list QAPair) (comment : Comment) : list QAPair :=
  if PyStr.truthy (c_author comment)
     && bool_decide (PyStr.lower (c_author comment) ∈ answer_authors_lower)
  then
    if negb include_deleted && is_deleted_body (c_body comment) then qa_pairs
    else
      let parent_id := c_parent_id comment in
      if PyStr.startswith parent_id "t1_" then
        let parent_comment_id := PyStr.slice_from 3 parent_id in
        match comment_map !! parent_comment_id with
        | Some parent =>
            if negb include_deleted && is_deleted_body (c_body parent)
            then qa_pairs
            else file_answer parent comment qa_pairs
        | None => qa_pairs
        end
      else if PyStr.startswith parent_id "t3_" then qa_pairs
      else qa_pairs
  else qa_pairs.

(** The groups before the two sorts. *)
Definition collect_qa_pairs (comments : list Comment)
    (answer_authors : list string) (include_deleted : bool) : list QAPair :=
  let answer_authors_lower := map PyStr.lower answer_authors in
  let comment_map := build_comment_map comments in
  fold_left (qa_step answer_authors_lower include_deleted comment_map)
            comments [].

(** [for qa in qa_pairs: qa.answers.sort(key=lambda a: a.created_utc)] *)
Definition sort_answers (qa : QAPair) : QAPair :=
  {| question := question qa; answers := sort_by c_created_utc (answers qa) |}.

Definition extract_qa_pairs (comments : list Comment)
    (answer_authors : list string) (include_deleted : bool) : list QAPair :=
  let qa_pairs := collect_qa_pairs comments answer_authors include_deleted in
  let qa_pairs := sort_by (fun qa => c_created_utc (question qa)) qa_pairs in
  map sort_answers qa_pairs.

(** *** Predicates for the properties of the groups *)

(** [a] passed every test of the loop body and [parent] is what the map
    gave for its parent id. *)
Definition well_answered (answer_authors_lower : list string)
    (include_deleted : bool) (comment_map : gmap string Comment)
    (parent a : Comment) : Prop :=
  PyStr.truthy (c_author a) = true
  /\ PyStr.lower (c_author a) ∈ answer_authors_lower
  /\ (include_deleted = false -> is_deleted_body (c_body a) = false)
  /\ PyStr.startswith (c_parent_id a) "t1_" = true
  /\ comment_map !! PyStr.slice_from 3 (c_parent_id a) = Some parent.

(** A group as the loop makes them: the question is the map's comment of
    that id and every answer was filed under it. *)
Definition well_filed (answer_authors_lower : list string)
    (include_deleted : bool) (comment_map : gmap string Comment)
    (qa : QAPair) : Prop :=
  comment_map !! c_id (question qa) = Some (question qa)
  /\ (include_deleted = false -> is_deleted_body (c_body (question qa)) = false)
  /\ Forall (well_answered answer_authors_lower include_deleted comment_map
                           (question qa)) (answers qa).

(** The question ids of the groups, in order. *)
Definition question_ids (qa_pairs : list QAPair) : list string :=
  map (fun qa => c_id (question qa)) qa_pairs.

End RedditArchiver.

(** ** The listing response shape *)

(** The [data] object of a [t1] thing; [None] is an absent key, for which
    [dict.get] supplies the default. *)
Record t1_data := mkT1 {
  d_id : option string;
  d_author : option string;
  d_body : option string;
  d_created_utc : option Z;
  d_parent_id : option string;
  d_permalink : option string;
  d_score : option Z;
  d_is_submitter : option bool
}.

(** A thing of a listing. [replies] of a [t1] thing is [Some children] when
    [data["replies"]] is a Listing object (then [children] is its
    [data.children], [[]] when missing) and [None] when the key is absent or
    holds the empty string Reddit sends for a comment without replies. *)
Inductive thing :=
| T1 (data : t1_data) (replies : option (list thing))
| More (children : list string)
| OtherKind.

(** The three accumulators the walker mutates. *)
Record accumulators := mkAcc {
  comments : list Comment;
  more_ids : list string;
  fetched_ids : gset string
}.

Definition empty_acc : accumulators :=
  {| comments := []; more_ids := []; fetched_ids := ∅ |}.

(** [Comment(id=comment_id, author=data.get("author", "[deleted]"), ...)] *)
Definition make_comment (comment_id : string) (data : t1_data) : Comment :=
  {| c_id := comment_id;
     c_author := default "[deleted]" (d_author data);
     c_body := default "" (d_body data);
     c_created_utc := default 0 (d_created_utc data);
     c_parent_id := default "" (d_parent_id data);
     c_permalink := default "" (d_permalink data);
     c_score := default 0 (d_score data);
     c_is_submitter := default false (d_is_submitter data) |}.

(** [if child_id and child_id not in fetched_ids] *)
Definition pending (fetched : gset string) (child_id : string) : bool :=
  PyStr.truthy child_id && negb (bool_decide (child_id ∈ fetched)).

(** [fetched_ids.add(comment_id)] and [comments.append(comment)] *)
Definition record_comment (comment_id : string) (data : t1_data)
    (acc : accumulators) : accumulators :=
  {| comments := comments acc ++ [make_comment comment_id data];
     more_ids := more_ids acc;
     fetched_ids := {[comment_id]} ∪ fetched_ids acc |}.

(** The body of [for thing in children] in [_process_comment_listing]; the
    inner [fix] is the recursive call on [reply_children]. *)
Fixpoint process_thing (t : thing) (acc : accumulators) : accumulators :=
  match t with
  | T1 data replies =>
      match d_id data with
      | Some comment_id =>
          if pending (fetched_ids acc) comment_id then
            let acc1 := record_comment comment_id data acc in
            match replies with
            | Some reply_children =>
                (fix listing (children : list thing) (acc : accumulators) :=
                   match children with
                   | [] => acc
                   | t' :: children' => listing children' (process_thing t' acc)
                   end) reply_children acc1
            | None => acc1
            end
          else acc
      | None => acc
      end
  | More children_ids =>
      {| comments := comments acc;
         more_ids := more_ids acc
                     ++ filter (fun i => pending (fetched_ids acc) i = true)
                               children_ids;
         fetched_ids := fetched_ids acc |}
  | OtherKind => acc
  end.

(** [RedditClient._process_comment_listing] and
    [PublicRedditClient._process_comment_listing]: the two methods are the
    same text. *)
Definition _process_comment_listing (children : list thing)
    (acc : accumulators) : accumulators :=
  fold_left (fun acc t => process_thing t acc) children acc.

(** The accumulators hold what a walk left: no id twice among the comments,
    and the id of every comment in the seen set. *)
Definition walked (acc : accumulators) : Prop :=
  NoDup (map c_id (comments acc))
  /\ forall c, c ∈ comments acc -> c_id c ∈ fetched_ids acc.

(** [acc'] is [acc] after some walking: new comments at the end, none with
    an id that [acc] had seen, new markers at the end, and the seen set
    larger by the ids of the new comments. *)
Definition grows (acc acc' : accumulators) : Prop :=
  exists (new_comments : list Comment) (new_ids : list string),
    comments acc' = (comments acc ++ new_comments)
    /\ more_ids acc' = (more_ids acc ++ new_ids)
    /\ fetched_ids acc' = list_to_set (map c_id new_comments) ∪ fetched_ids acc
    /\ NoDup (map c_id new_comments)
    /\ Forall (fun c => c_id c ∉ fetched_ids acc) new_comments.

(** ** The transport *)

Record request := mkRequest {
  method : string;
  url : string;
  params : list (string * string)
}.

(** A decoded body, as far as the fetcher looks into it:
    - [BodyInvalid]: [response.json()] raises;
    - [BodyListings ls]: a JSON array of Listing objects, each given by its
      [data.children] (the answer to [/comments/<id>]);
    - [BodyJson things]: a JSON object with no key but possibly [json];
      [Some l] when [json.data] is there ([l] is its [things], [[]] when that
      key is missing), [None] when [json] or its [data] is missing. *)
Inductive json_body :=
| BodyInvalid
| BodyListings (listings : list (list thing))
| BodyJson (things : option (list thing)).

(** [retry_after] is the [Retry-After] header in its delay-seconds form, as
    [int(...)] reads it. *)
Record response := mkResponse {
  status_code : Z;
  retry_after : option nat;
  json : json_body
}.

(** What one call meets: how long it took and the response, [None] when the
    transport itself raised. *)
Record exchange := mkExchange {
  took : nat;
  answer : option response
}.

Inductive exn :=
| TransportError
| JSONDecodeError
| ApiError (status : Z)
| AuthenticationFailed (status : Z)
| AuthenticationError (error : string)
| KeyError
| CallbackError.

Inductive message :=
| MsgRateLimited (retry_after : Z)
| MsgExpanding (batch remaining : nat)
| MsgWarning (e : exn).

Inductive event :=
| EvSleep (seconds : Z)
| EvRequest (req : request)
| EvAuthenticate
| EvPrint (line : message)
| EvProgress (fetched remaining : nat).

(** The clock ([time.time()], in seconds), the number of calls and of token
    requests made so far, and everything done so far, oldest first. *)
Record world := mkWorld {
  now : Z;
  calls : nat;
  auths : nat;
  trace : list event
}.

Inductive outcome (A : Type) :=
| Done (a : A)
| Raised (e : exn).
Arguments Done {A} a.
Arguments Raised {A} e.

Definition log (e : event) (w : world) : world :=
  {| now := now w; calls := calls w; auths := auths w; trace := trace w ++ [e] |}.

(** [print(...)] *)
Definition print (m : message) (w : world) : world := log (EvPrint m) w.

(** [time.sleep(seconds)] *)
Definition sleep (seconds : Z) (w : world) : world :=
  {| now := now w + seconds; calls := calls w; auths := auths w;
     trace := trace w ++ [EvSleep seconds] |}.

(** How an iteration of a [while] loop ends. *)
Inductive loop_control (C B : Type) :=
| Continue (next : C)
| Break (result : B).
Arguments Continue {C B} next.
Arguments Break {C B} result.

(** The remote end: the answer to the [n]-th call, given the request. *)
Definition remote_api := nat -> request -> exchange.

(** [session.request(method, url, **kwargs)] / [session.get(url, params=...)] *)
Definition send (remote : remote_api) (req : request) (w : world)
  : option response * world :=
  let x := remote (calls w) req in
  (answer x,
   {| now := now w + Z.of_nat (took x); calls := S (calls w); auths := auths w;
      trace := trace w ++ [EvRequest req] |}).

(** The requests of a trace, oldest first. *)
Definition requests (tr : list event) : list request :=
  omap (fun e => match e with EvRequest req => Some req | _ => None end) tr.

(** [int(response.headers.get("Retry-After", 60))] *)
Definition retry_delay (r : response) : Z :=
  Z.of_nat (default 60%nat (retry_after r)).

(** [len(response) > 1] and then [response[1]["data"]["children"]], on the
    answer to the first fetch. *)
Definition comments_listing (body : json_body) : option (list thing) :=
  match body with
  | BodyListings listings =>
      if (1 <? List.length listings)%nat then listings !! 1%nat else None
  | _ => None
  end.

(** ["json" in r and "data" in r["json"]] and then
    [r["json"]["data"].get("things", [])]. *)
Definition more_things (body : json_body) : option (list thing) :=
  match body with
  | BodyJson things => things
  | _ => None
  end.

(** The query of one [morechildren] call. *)
Definition morechildren_params (submission_id : string) (batch : list string)
  : list (string * string) :=
  [("api_type", "json");
   ("link_id", "t3_" +:+ submission_id);
   ("children", PyStr.join "," batch)].

(** The optional progress sink: [true] when the call returns, [false] when
    it raises. *)
Definition progress_sink := option (nat -> nat -> bool).

(** [progress_callback(len(comments), len(more_ids))] when a callback was
    given; the flag is [false] when it raised. *)
Definition report_progress (progress_callback : progress_sink)
    (acc : accumulators) (w : world) : bool * world :=
  match progress_callback with
  | Some f =>
      let fetched := List.length (comments acc) in
      let remaining := List.length (more_ids acc) in
      (f fetched remaining, log (EvProgress fetched remaining) w)
  | None => (true, w)
  end.

(** [more_ids = more_ids[100:]] *)
Definition drop_batch (acc : accumulators) : accumulators :=
  {| comments := comments acc;
     more_ids := drop 100 (more_ids acc);
     fetched_ids := fetched_ids acc |}.

(** The walk over the comments listing of the first response. *)
Definition initial_walk (body : json_body) : accumulators :=
  match comments_listing body with
  | Some children => _process_comment_listing children empty_acc
  | None => empty_acc
  end.

(** ** public_reddit_client.py

    [fuel] bounds the number of nested calls; [None] is a run that needs
    more. *)

Module PublicRedditClient.

Definition BASE_URL : string := "https://www.reddit.com".
Definition min_request_interval : Z := 2.
Definition max_expansions : nat := 20.

Record self := mkSelf {
  last_request_time : Z
}.

Definition _rate_limit (s : self) (w : world) : self * world :=
  let elapsed := now w - last_request_time s in
  let w1 := if elapsed <? min_request_interval
            then sleep (min_request_interval - elapsed) w else w in
  ({| last_request_time := now w1 |}, w1).

(** The request of [session.get(url)]. *)
Definition get (url : string) : request :=
  {| method := "GET"; url := url; params := [] |}.

Section Remote.
Variable remote : remote_api.

Fixpoint _request (fuel : nat) (url : string) (s : self) (w : world)
  : option (outcome json_body * self * world) :=
  match fuel with
  | O => None
  | S fuel' =>
      let '(s1, w1) := _rate_limit s w in
      let '(resp, w2) := send remote (get url) w1 in
      match resp with
      | None => Some (Raised TransportError, s1, w2)
      | Some response =>
          if status_code response =? 429 then
            let retry_after := retry_delay response in
            let w3 := print (MsgRateLimited retry_after) w2 in
            let w4 := sleep retry_after w3 in
            _request fuel' url s1 w4
          else if negb (status_code response =? 200) then
            Some (Raised (ApiError (status_code response)), s1, w2)
          else
            match json response with
            | BodyInvalid => Some (Raised JSONDecodeError, s1, w2)
            | body => Some (Done body, s1, w2)
            end
      end
  end.

(** The body of the [while] loop, entered with a non-empty [more_ids]:
    [Break] for [break] (from the [else] branch or from [except]),
    [Continue] with the new [expansions_done] otherwise. *)
Definition expansion_iteration (submission_id : string)
    (progress_callback : progress_sink) (expansions_done : nat)
    (acc : accumulators) (s : self) (w : world)
  : loop_control (nat * accumulators * self * world)
                 (accumulators * self * world) :=
  let batch := take 100 (more_ids acc) in
  let acc1 := drop_batch acc in
  let more_url := BASE_URL +:+ "/api/morechildren.json" in
  let '(s1, w1) := _rate_limit s w in
  let '(resp, w2) :=
    send remote
      {| method := "GET"; url := more_url;
         params := morechildren_params submission_id batch |} w1 in
  match resp with
  | None => Break (acc1, s1, w2)
  | Some response =>
      if status_code response =? 200 then
        match json response with
        | BodyInvalid => Break (acc1, s1, w2)
        | data =>
            match more_things data with
            | Some things =>
                let acc2 := _process_comment_listing things acc1 in
                let '(returned, w3) :=
                  report_progress progress_callback acc2 w2 in
                if returned then Continue (S expansions_done, acc2, s1, w3)
                else Break (acc2, s1, w3)
            | None => Continue (expansions_done, acc1, s1, w2)
            end
        end
      else Break (acc1, s1, w2)
  end.

(** The [while more_ids and expansions_done < max_expansions] loop; the
    result is the accumulators when the loop is left. *)
Fixpoint expansion_loop (fuel : nat) (submission_id : string)
    (progress_callback : progress_sink) (expansions_done : nat)
    (acc : accumulators) (s : self) (w : world)
  : option (accumulators * self * world) :=
  match fuel with
  | O => None
  | S fuel' =>
      if bool_decide (more_ids acc <> [])
         && (expansions_done <? max_expansions)%nat
      then
        match expansion_iteration submission_id progress_callback
                expansions_done acc s w with
        | Continue (expansions_done', acc', s', w') =>
            expansion_loop fuel' submission_id progress_callback
                           expansions_done' acc' s' w'
        | Break result => Some result
        end
      else Some (acc, s, w)
  end.

Definition get_all_comments (fuel : nat) (submission_id : string)
    (progress_callback : progress_sink) (s : self) (w : world)
  : option (outcome (list Comment) * self * world) :=
  let url := BASE_URL +:+ "/comments/" +:+ submission_id
             +:+ ".json?limit=500&depth=100&sort=old" in
  match _request fuel url s w with
  | None => None
  | Some (Raised e, s1, w1) => Some (Raised e, s1, w1)
  | Some (Done response, s1, w1) =>
      let acc := initial_walk response in
      let '(returned, w2) := report_progress progress_callback acc w1 in
      if returned then
        match expansion_loop fuel submission_id progress_callback 0 acc s1 w2 with
        | None => None
        | Some (acc', s2, w3) => Some (Done (comments acc'), s2, w3)
        end
      else Some (Raised CallbackError, s1, w2)
  end.
End Remote.

End PublicRedditClient.

(** ** reddit_client.py *)

Module RedditClient.

Definition BASE_URL : string := "https://oauth.reddit.com".
Definition min_request_interval : Z := 1.

Record self := mkSelf {
  access_token : option string;
  token_expires : Z;
  last_request_time : Z
}.

(** The answer of the token endpoint. *)
Record token_data := mkTokenData {
  td_error : option string;
  td_access_token : option string;
  td_expires_in : option Z
}.

Record auth_response := mkAuthResponse {
  a_status_code : Z;
  a_json : option token_data
}.

Record auth_exchange := mkAuthExchange {
  a_took : nat;
  a_answer : option auth_response
}.

Definition auth_api := nat -> auth_exchange.

(** The request of [session.request(method, url, **kwargs)] with
    [url = f"{self.BASE_URL}{endpoint}"]. *)
Definition api_call (method endpoint : string) (kwargs : list (string * string))
  : request :=
  {| method := method; url := BASE_URL +:+ endpoint; params := kwargs |}.

Definition _rate_limit (s : self) (w : world) : self * world :=
  let elapsed := now w - last_request_time s in
  let w1 := if elapsed <? min_request_interval
            then sleep (min_request_interval - elapsed) w else w in
  ({| access_token := access_token s; token_expires := token_expires s;
      last_request_time := now w1 |}, w1).

Section Remote.
Variable auth_remote : auth_api.
Variable remote : remote_api.

Definition authenticate (s : self) (w : world) : outcome bool * self * world :=
  let x := auth_remote (auths w) in
  let w1 := {| now := now w + Z.of_nat (a_took x); calls := calls w;
               auths := S (auths w); trace := trace w ++ [EvAuthenticate] |} in
  match a_answer x with
  | None => (Raised TransportError, s, w1)
  | Some response =>
      if negb (a_status_code response =? 200) then
        (Raised (AuthenticationFailed (a_status_code response)), s, w1)
      else
        match a_json response with
        | None => (Raised JSONDecodeError, s, w1)
        | Some data =>
            match td_error data with
            | Some e => (Raised (AuthenticationError e), s, w1)
            | None =>
                match td_access_token data with
                | None => (Raised KeyError, s, w1)
                | Some token =>
                    (Done true,
                     {| access_token := Some token;
                        token_expires := now w1 + default 3600 (td_expires_in data);
                        last_request_time := last_request_time s |},
                     w1)
                end
            end
        end
  end.

(** [if time.time() >= self.token_expires - 60: self.authenticate()] *)
Definition check_token (s : self) (w : world) : outcome bool * self * world :=
  if now w >=? token_expires s - 60 then authenticate s w
  else (Done true, s, w).

Fixpoint _request (fuel : nat) (method endpoint : string)
    (kwargs : list (string * string)) (s : self) (w : world)
  : option (outcome json_body * self * world) :=
  match fuel with
  | O => None
  | S fuel' =>
      let '(checked, s0, w0) := check_token s w in
      match checked with
      | Raised e => Some (Raised e, s0, w0)
      | Done _ =>
          let '(s1, w1) := _rate_limit s0 w0 in
          let '(resp, w2) := send remote (api_call method endpoint kwargs) w1 in
          match resp with
          | None => Some (Raised TransportError, s1, w2)
          | Some response =>
              if status_code response =? 429 then
                let retry_after := retry_delay response in
                let w3 := print (MsgRateLimited retry_after) w2 in
                let w4 := sleep retry_after w3 in
                _request fuel' method endpoint kwargs s1 w4
              else if negb (status_code response =? 200) then
                Some (Raised (ApiError (status_code response)), s1, w2)
              else
                match json response with
                | BodyInvalid => Some (Raised JSONDecodeError, s1, w2)
                | body => Some (Done body, s1, w2)
                end
          end
      end
  end.

(** The [while more_ids] loop with its [try]/[except Exception]. *)
Fixpoint expansion_loop (fuel : nat) (submission_id : string)
    (acc : accumulators) (s : self) (w : world)
  : option (accumulators * self * world) :=
  match fuel with
  | O => None
  | S fuel' =>
      match more_ids acc with
      | [] => Some (acc, s, w)
      | _ :: _ =>
          let batch := take 100 (more_ids acc) in
          let acc1 := drop_batch acc in
          let w1 := print (MsgExpanding (List.length batch)
                                        (List.length (more_ids acc1))) w in
          match _request fuel "GET" "/api/morechildren"
                  (morechildren_params submission_id batch) s w1 with
          | None => None
          | Some (Done more_response, s2, w2) =>
              let acc2 := match more_things more_response with
                          | Some things => _process_comment_listing things acc1
                          | None => acc1
                          end in
              expansion_loop fuel' submission_id acc2 s2 w2
          | Some (Raised e, s2, w2) =>
              expansion_loop fuel' submission_id acc1 s2 (print (MsgWarning e) w2)
          end
      end
  end.

Definition get_all_comments (fuel : nat) (submission_id : string)
    (s : self) (w : world)
  : option (outcome (list Comment) * self * world) :=
  let endpoint := "/comments/" +:+ submission_id in
  match _request fuel "GET" endpoint [("limit", "500"); ("depth", "100")] s w with
  | None => None
  | Some (Raised e, s1, w1) => Some (Raised e, s1, w1)
  | Some (Done response, s1, w1) =>
      let acc := initial_walk response in
      match expansion_loop fuel submission_id acc s1 w1 with
      | None => None
      | Some (acc', s2, w2) => Some (Done (comments acc'), s2, w2)
      end
  end.
End Remote.

End RedditClient.

(** ** Sample comments, for the scenarios of the specification *)

Module Scenario.

Definition comment (id author body : string) (created_utc : Z)
    (parent_id : string) : Comment :=
  {| c_id := id; c_author := author; c_body := body;
     c_created_utc := created_utc; c_parent_id := parent_id;
     c_permalink := ""; c_score := 1; c_is_submitter := false |}.

Definition Q1 : Comment := comment "q1" "mod" "first question" 100 "t3_post".
Definition Q2 : Comment := comment "q2" "mod" "second question" 50 "t3_post".
Definition A1 : Comment := comment "a1" "Target" "late answer" 150 "t1_q1".
Definition A2 : Comment := comment "a2" "target" "early answer" 120 "t1_q1".
Definition B1 : Comment := comment "b1" "target" "other answer" 160 "t1_q2".
Definition Top : Comment := comment "top" "target" "opening words" 10 "t3_post".
Definition Anonymous : Comment := comment "anon" "" "no author" 130 "t1_q1".
Definition QDeleted : Comment := comment "qd" "mod" "[deleted]" 100 "t3_post".
Definition ARemoved : Comment := comment "ar" "target" "[removed]" 110 "t1_qd".

(** A thread in which [c2] is reachable on two paths and [c1] is still
    named by a marker, and an expansion answer that repeats [c2] and gives
    [m1] twice. *)
Definition node (id parent : string) (replies : option (list thing)) : thing :=
  T1 {| d_id := Some id; d_author := Some "someone"; d_body := Some "text";
        d_created_utc := Some 1; d_parent_id := Some parent;
        d_permalink := None; d_score := None; d_is_submitter := None |}
     replies.

Definition thread : list thing :=
  [ node "c1" "t3_post" (Some [node "c2" "t1_c1" None; More ["m1"]]);
    node "c2" "t1_c1" None;
    More ["m2"; "c1"] ].

Definition expansion : list thing :=
  [ node "m1" "t1_c1" None; node "c2" "t1_c1" None;
    node "m2" "t3_post" None; node "m1" "t1_c1" None ].

Definition flat (id parent : string) : Comment :=
  make_comment id {| d_id := Some id; d_author := Some "someone";
                     d_body := Some "text"; d_created_utc := Some 1;
                     d_parent_id := Some parent; d_permalink := None;
                     d_score := None; d_is_submitter := None |}.

Definition ok (body : json_body) : exchange :=
  {| took := 0;
     answer := Some {| status_code := 200; retry_after := None; json := body |} |}.

Definition failed (status : Z) (retry_after : option nat) : exchange :=
  {| took := 0;
     answer := Some {| status_code := status; retry_after := retry_after;
                       json := BodyInvalid |} |}.

(** The thread, then the expansion. *)
Definition thread_remote : remote_api :=
  fun n _ => match n with
             | O => ok (BodyListings [[]; thread])
             | _ => ok (BodyJson (Some expansion))
             end.

(** 429 with [Retry-After: 1], then the thread. *)
Definition throttled_once : remote_api :=
  fun n _ => match n with
             | O => failed 429 (Some 1%nat)
             | _ => ok (BodyListings [[]; thread])
             end.

(** Every answer is 200 with an object that has no [json.data]. *)
Definition no_data_remote : remote_api :=
  fun _ _ => ok (BodyJson None).

(** 500 for the first call, then a comment. *)
Definition failing_once : remote_api :=
  fun n _ => match n with
             | O => failed 500 None
             | _ => ok (BodyJson (Some [node "m100" "t3_post" None]))
             end.

(** [n] marker ids, [m0], [m1], ... *)
Definition marker_ids (n : nat) : list string :=
  map (fun i => "m" +:+ pretty i) (seq 0 n).

Definition pending_markers (n : nat) : accumulators :=
  {| comments := []; more_ids := marker_ids n; fetched_ids := ∅ |}.

Definition start : world :=
  {| now := 1700000000; calls := 0; auths := 0; trace := [] |}.

Definition public_self : PublicRedditClient.self :=
  {| PublicRedditClient.last_request_time := 0 |}.

Definition auth_self : RedditClient.self :=
  {| RedditClient.access_token := Some "token";
     RedditClient.token_expires := 1700003600;
     RedditClient.last_request_time := 0 |}.

(** The token endpoint is never reached. *)
Definition no_auth : RedditClient.auth_api :=
  fun _ => {| RedditClient.a_took := 0; RedditClient.a_answer := None |}.

(** A token endpoint that answers every request with a token. *)
Definition granting : RedditClient.auth_api :=
  fun _ =>
    {| RedditClient.a_took := 0;
       RedditClient.a_answer :=
         Some {| RedditClient.a_status_code := 200;
                 RedditClient.a_json :=
                   Some {| RedditClient.td_error := None;
                           RedditClient.td_access_token := Some "token";
                           RedditClient.td_expires_in := Some 3600 |} |} |}.

(** 500 for the first call, then the comment [m0]. *)
Definition failing_then_m0 : remote_api :=
  fun n _ => match n with
             | O => failed 500 None
             | _ => ok (BodyJson (Some [node "m0" "t3_post" None]))
             end.

(** What the walk of two [more] things that both list [m0] leaves: a queue
    of 101 entries in which [m0] is the first and the last. *)
Definition repeated_marker : accumulators :=
  _process_comment_listing [More (marker_ids 100); More ["m0"]] empty_acc.

End Scenario.

(** ** More of archiver.py and server.py *)

Module Correlator.
Import RedditArchiver.

(** Whether the loop body of [extract_qa_pairs] files [comment]: all its
    tests, in the order of the code. *)
Definition files (answer_authors_lower : list string) (include_deleted : bool)
    (comment_map : gmap string Comment) (comment : Comment) : bool :=
  PyStr.truthy (c_author comment)
  && bool_decide (PyStr.lower (c_author comment) ∈ answer_authors_lower)
  && negb (negb include_deleted && is_deleted_body (c_body comment))
  && PyStr.startswith (c_parent_id comment) "t1_"
  && match comment_map !! PyStr.slice_from 3 (c_parent_id comment) with
     | Some parent => negb (negb include_deleted && is_deleted_body (c_body parent))
     | None => false
     end.

(** [comment] is filed, and under the question of id [question_id]. *)
Definition answers_to (answer_authors_lower : list string)
    (include_deleted : bool) (comment_map : gmap string Comment)
    (question_id : string) (comment : Comment) : Prop :=
  files answer_authors_lower include_deleted comment_map comment = true
  /\ PyStr.slice_from 3 (c_parent_id comment) = question_id.

(** All answers of the groups, group after group. *)
Definition all_answers (qa_pairs : list QAPair) : list Comment :=
  List.concat (map answers qa_pairs).

End Correlator.

(** [server.py]: the correlator of the web backend. *)
Module Server.
Import RedditArchiver.

(** One iteration of [for comment in submission.comments]. *)
Definition qa_step (accounts_lower : list string)
    (comment_map : gmap string Comment)
    (qa_pairs : list QAPair) (comment : Comment) : list QAPair :=
  if PyStr.truthy (c_author comment)
     && bool_decide (PyStr.lower (c_author comment) ∈ accounts_lower)
  then
    if is_deleted_body (c_body comment) then qa_pairs
    else
      let parent_id := c_parent_id comment in
      if PyStr.startswith parent_id "t1_" then
        let parent_comment_id := PyStr.slice_from 3 parent_id in
        match comment_map !! parent_comment_id with
        | Some parent =>
            if is_deleted_body (c_body parent) then qa_pairs
            else file_answer parent comment qa_pairs
        | None => qa_pairs
        end
      else qa_pairs
  else qa_pairs.

Definition extract_qa_pairs (comments : list Comment) (accounts : list string)
  : list QAPair :=
  let accounts_lower := map PyStr.lower accounts in
  let comment_map := build_comment_map comments in
  let qa_pairs := fold_left (qa_step accounts_lower comment_map) comments [] in
  let qa_pairs := sort_by (fun qa => c_created_utc (question qa)) qa_pairs in
  map sort_answers qa_pairs.

End Server.

(** ** More about the tree walker *)

Module Walker.

(** The comments a thing holds, in the order of a walk that has seen none
    of them: the node, then the nodes of its reply listing. A node without
    [id] holds none: the walker passes over it and its replies. *)
Fixpoint comment_nodes (t : thing) : list Comment :=
  match t with
  | T1 data replies =>
      match d_id data with
      | Some comment_id =>
          make_comment comment_id data
          :: match replies with
             | Some reply_children =>
                 (fix listing (children : list thing) : list Comment :=
                    match children with
                    | [] => []
                    | t' :: children' => comment_nodes t' ++ listing children'
                    end) reply_children
             | None => []
             end
      | None => []
      end
  | More _ => []
  | OtherKind => []
  end.

Definition listing_nodes (children : list thing) : list Comment :=
  List.concat (map comment_nodes children).

(** The statement of the preorder walk, for one thing. *)
Definition flattens (t : thing) : Prop :=
  forall acc,
    NoDup (map c_id (comment_nodes t)) ->
    Forall (fun c => c_id c <> "" /\ c_id c ∉ fetched_ids acc) (comment_nodes t) ->
    comments (process_thing t acc) = comments acc ++ comment_nodes t
    /\ fetched_ids (process_thing t acc)
       = list_to_set (map c_id (comment_nodes t)) ∪ fetched_ids acc.

(** A thing that the walker passes over, given the seen set: a comment node
    with no id, an empty id or a seen id; and every thing that is not a
    comment node. *)
Definition passed_over (fetched : gset string) (t : thing) : Prop :=
  match t with
  | T1 data _ =>
      match d_id data with
      | Some comment_id => pending fetched comment_id = false
      | None => True
      end
  | _ => True
  end.

(** No empty id among the comments or the markers, and the seen set is the
    set of the comments' ids. *)
Definition tidy (acc : accumulators) : Prop :=
  Forall (fun c => c_id c <> "") (comments acc)
  /\ Forall (fun i => i <> "") (more_ids acc)
  /\ fetched_ids acc = list_to_set (map c_id (comments acc)).

(** The ids that the [more] things of a thing list: its own when it is a
    [more] thing, those of its reply listing when it is a comment node. *)
Fixpoint thing_markers (t : thing) : list string :=
  match t with
  | T1 _ replies =>
      match replies with
      | Some reply_children =>
          (fix listing (children : list thing) : list string :=
             match children with
             | [] => []
             | t' :: children' => thing_markers t' ++ listing children'
             end) reply_children
      | None => []
      end
  | More children_ids => children_ids
  | OtherKind => []
  end.

Definition listing_markers (children : list thing) : list string :=
  List.concat (map thing_markers children).

End Walker.

(** ** More about the request gate and the loops *)

Module Gate.

(** What [_request] makes of an answer that is not 429: the tail of the
    method. *)
Definition settle (x : option response) : outcome json_body :=
  match x with
  | None => Raised TransportError
  | Some response =>
      if negb (status_code response =? 200) then
        Raised (ApiError (status_code response))
      else
        match json response with
        | BodyInvalid => Raised JSONDecodeError
        | body => Done body
        end
  end.

(** Two worlds that differ at most in what their traces hold besides
    requests. *)
Definition same_but_trace (w1 w2 : world) : Prop :=
  now w1 = now w2 /\ calls w1 = calls w2 /\ auths w1 = auths w2
  /\ requests (trace w1) = requests (trace w2).

(** What a client does before a send besides sending and printing: the sleep
    of [_rate_limit] and the token request of the token check. *)
Definition housekeeping (e : event) : bool :=
  match e with
  | EvSleep _ | EvAuthenticate => true
  | _ => false
  end.




(** The token endpoint answers with a token. *)
Definition grants (x : RedditClient.auth_exchange) : Prop :=
  exists token expires_in,
    RedditClient.a_answer x
    = Some {| RedditClient.a_status_code := 200;
              RedditClient.a_json :=
                Some {| RedditClient.td_error := None;
                        RedditClient.td_access_token := Some token;
                        RedditClient.td_expires_in := expires_in |} |}.


End Gate.

Module Loop.
Import Walker.

(** The batches that the loop cuts from a queue to which nothing is added:
    [more_ids[:100]], then those of [more_ids[100:]]; [n] bounds their
    number. *)
Fixpoint batches (n : nat) (queue : list string) : list (list string) :=
  match n with
  | O => []
  | S n' =>
      match queue with
      | [] => []
      | _ :: _ => take 100 queue :: batches n' (drop 100 queue)
      end
  end.

(** The call of the authenticated loop for one batch. *)
Definition expansion_call (submission_id : string) (batch : list string)
  : request :=
  RedditClient.api_call "GET" "/api/morechildren"
                        (morechildren_params submission_id batch).

(** An answer that is not 429 and whose listing, if it has one, lists no
    marker. *)
Definition calm (x : exchange) : Prop :=
  status_code <$> answer x <> Some 429
  /\ forall r things,
       answer x = Some r -> more_things (json r) = Some things ->
       listing_markers things = [].

(** [things] is the listing of a 200 answer to one of the requests [sent],
    of which the first was call [first], the next call [first + 1], and so
    on. *)
Definition answered (remote : remote_api) (first : nat) (sent : list request)
    (things : list thing) : Prop :=
  exists k req r,
    sent !! k = Some req
    /\ answer (remote (first + k)%nat req) = Some r
    /\ status_code r = 200
    /\ more_things (json r) = Some things.

(** [c] is a comment node of the listing of an answer to one of [sent]. *)
Definition returned_from (remote : remote_api) (first : nat)
    (sent : list request) (c : Comment) : Prop :=
  exists things, answered remote first sent things /\ c ∈ listing_nodes things.

(** [i] is listed by a [more] thing of the listing of an answer to one of
    [sent]. *)
Definition listed_from (remote : remote_api) (first : nat)
    (sent : list request) (i : string) : Prop :=
  exists things, answered remote first sent things /\ i ∈ listing_markers things.

End Loop.

(** ** exporters.py *)

Module Exporters.

(** ["\n"] *)
Definition newline : string := String (ascii_of_nat 10) EmptyString.

(** The body of [for qa in qa_pairs] of [MarkdownExporter.export]. *)
Definition markdown_group (lines : list string) (qa : QAPair) : list string :=
  let lines := lines ++ ["Q:"] in
  let lines := lines ++ [c_body (question qa)] in
  let lines := lines ++ [""] in
  let lines :=
    fold_left (fun lines answer =>
                 let lines := lines ++ ["A:"] in
                 let lines := lines ++ [c_body answer] in
                 lines ++ [""])
              (answers qa) lines in
  lines ++ [""].

(** [MarkdownExporter.export] *)
Definition markdown_lines (qa_pairs : list QAPair) : list string :=
  fold_left markdown_group qa_pairs [].

Definition markdown_export (qa_pairs : list QAPair) : string :=
  PyStr.join newline (markdown_lines qa_pairs).

(** [enumerate(qa_pairs, 1)] *)
Definition enumerate1 {A : Type} (l : list A) : list (nat * A) :=
  imap (fun i x => (S i, x)) l.

(** The body of [for i, qa in enumerate(qa_pairs, 1)] of
    [TextExporter.export]; [i] is not used. *)
Definition text_group (lines : list string) (i : nat) (qa : QAPair)
  : list string :=
  let lines := lines ++ ["Q:"] in
  let lines := lines ++ [c_body (question qa)] in
  let lines := lines ++ [""] in
  let lines :=
    fold_left (fun lines answer =>
                 let lines := lines ++ ["A:"] in
                 let lines := lines ++ [c_body answer] in
                 lines ++ [""])
              (answers qa) lines in
  lines ++ [""].

(** [TextExporter.export] *)
Definition text_lines (qa_pairs : list QAPair) : list string :=
  fold_left (fun lines '(i, qa) => text_group lines i qa)
            (enumerate1 qa_pairs) [].

Definition text_export (qa_pairs : list QAPair) : string :=
  PyStr.join newline (text_lines qa_pairs).

(** The lines of one group, as the docstring gives the format. *)
Definition group_block (qa : QAPair) : list string :=
  ["Q:"; c_body (question qa); ""]
  ++ List.concat (map (fun answer => ["A:"; c_body answer; ""]) (answers qa))
  ++ [""].

End Exporters.

(** ** config.py *)

Module Config.

Definition DEFAULT_USER_AGENT : string :=
  "RedditThreadArchiver/1.0.0 (by /u/your_username)".

(** [bool(x)] for an [Optional[str]]. *)
Definition truthy (x : option string) : bool :=
  match x with
  | Some s => PyStr.truthy s
  | None => false
  end.

(** [a or b] *)
Definition py_or (a b : option string) : option string :=
  if truthy a then a else b.

Record t := mk {
  client_id : option string;
  client_secret : option string;
  username : option string;
  password : option string;
  user_agent : option string
}.

(** [_validate]: the names of the credentials that are missing, in the
    order of the checks. *)
Definition missing (c : t) : list string :=
  (if truthy (client_id c) then [] else ["REDDIT_CLIENT_ID"])
  ++ (if truthy (client_secret c) then [] else ["REDDIT_CLIENT_SECRET"])
  ++ (if truthy (username c) then [] else ["REDDIT_USERNAME"])
  ++ (if truthy (password c) then [] else ["REDDIT_PASSWORD"]).

(** [Config.__init__], with the environment as a map; [inl] is the
    [ValueError], with the names it lists. *)
Definition init (client_id client_secret username password user_agent
                 : option string) (environ : gmap string string)
  : list string + t :=
  let c :=
    {| client_id := py_or client_id (environ !! "REDDIT_CLIENT_ID");
       client_secret := py_or client_secret (environ !! "REDDIT_CLIENT_SECRET");
       username := py_or username (environ !! "REDDIT_USERNAME");
       password := py_or password (environ !! "REDDIT_PASSWORD");
       user_agent :=
         py_or user_agent
               (Some (default DEFAULT_USER_AGENT (environ !! "REDDIT_USER_AGENT"))) |} in
  match missing c with
  | [] => inr c
  | names => inl names
  end.

End Config.

(** * Proofs *)

(** ** Generic facts *)

Lemma fold_left_invariant {A B : Type} (f : A -> B -> A) (P : A -> Prop)
    (l : list B) (a : A) :
  P a -> (forall a b, b ∈ l -> P a -> P (f a b)) -> P (fold_left f l a).
Proof.
  revert a. induction l as [|b l IH]; intros a Ha Hstep; simpl; [done|].
  apply IH.
  - apply Hstep; [left | done].
  - intros a' b' Hb'. apply Hstep. by right.
Qed.

Lemma alter_middle {A : Type} (f : A -> A) (l : list A) (i : nat) (x : A) :
  l !! i = Some x ->
  exists l1 l2, l = l1 ++ x :: l2 /\ alter f i l = l1 ++ f x :: l2
                /\ List.length l1 = i.
Proof.
  revert i. induction l as [|y l IH]; intros [|i] Hi; simplify_eq/=.
  - by exists [], l.
  - destruct (IH i Hi) as (l1 & l2 & -> & Ha & <-).
    exists (y :: l1), l2. simpl. by rewrite Ha.
Qed.

(** ** [list.sort(key=...)] sorts, permutes and is stable *)

Section SortFacts.
Context {A : Type} (key : A -> Z).

Lemma insert_by_perm (x : A) (l : list A) : insert_by key x l ≡ₚ x :: l.
Proof.
  induction l as [|y l IH]; simpl; [done|].
  destruct (key x <=? key y); [done|].
  rewrite IH. apply Permutation_swap.
Qed.

Lemma sort_by_perm (l : list A) : sort_by key l ≡ₚ l.
Proof.
  induction l as [|x l IH]; simpl; [done|].
  rewrite insert_by_perm. by rewrite IH.
Qed.

Lemma insert_by_sorted (x : A) (l : list A) :
  Sorted Z.le (map key l) -> Sorted Z.le (map key (insert_by key x l)).
Proof.
  induction l as [|y l IH]; simpl; intros Hs.
  - repeat constructor.
  - destruct (Z.leb_spec (key x) (key y)) as [Hle|Hgt]; simpl.
    + constructor; [done|]. by constructor.
    + inversion Hs as [|? ? Hs' Hhd]; subst.
      constructor; [by apply IH|].
      destruct l as [|z l]; simpl.
      * constructor. lia.
      * destruct (Z.leb_spec (key x) (key z)); simpl; constructor; try lia.
        by inversion Hhd.
Qed.

Lemma sort_by_sorted (l : list A) : Sorted Z.le (map key (sort_by key l)).
Proof.
  induction l as [|x l IH]; simpl; [constructor|].
  by apply insert_by_sorted.
Qed.

(** Elements of equal key keep their order. *)
Lemma insert_by_stable (k : Z) (x : A) (l : list A) :
  filter (fun a => key a = k) (insert_by key x l)
  = filter (fun a => key a = k) (x :: l).
Proof.
  induction l as [|y l IH]; simpl; [done|].
  destruct (Z.leb_spec (key x) (key y)) as [Hle|Hgt]; [done|].
  rewrite filter_cons, IH, !filter_cons.
  destruct (decide (key y = k)), (decide (key x = k)); try done. lia.
Qed.

Lemma sort_by_stable (k : Z) (l : list A) :
  filter (fun a => key a = k) (sort_by key l) = filter (fun a => key a = k) l.
Proof.
  induction l as [|x l IH]; simpl; [done|].
  rewrite insert_by_stable, !filter_cons. by rewrite IH.
Qed.

Lemma elem_of_sort_by (x : A) (l : list A) : x ∈ sort_by key l <-> x ∈ l.
Proof. by rewrite sort_by_perm. Qed.
End SortFacts.

(** ** The correlator *)

Module ArchiverFacts.
Import RedditArchiver.

Lemma build_comment_map_id (comments : list Comment) (k : string) (c : Comment) :
  build_comment_map comments !! k = Some c -> c_id c = k.
Proof.
  unfold build_comment_map.
  apply (fold_left_invariant _
           (fun m : gmap string Comment => m !! k = Some c -> c_id c = k)).
  - by rewrite lookup_empty.
  - intros m b _ IH. rewrite lookup_insert.
    case_decide; [congruence | done].
Qed.

(** The two ways [file_answer] changes the groups. *)
Lemma file_answer_cases (parent comment : Comment) (qa_pairs : list QAPair) :
  (exists l1 qa l2,
      qa_pairs = l1 ++ qa :: l2
      /\ c_id (question qa) = c_id parent
      /\ file_answer parent comment qa_pairs
         = l1 ++ append_answer comment qa :: l2)
  \/ (Forall (fun qa => c_id (question qa) <> c_id parent) qa_pairs
      /\ file_answer parent comment qa_pairs
         = qa_pairs ++ [{| question := parent; answers := [comment] |}]).
Proof.
  unfold file_answer.
  destruct (list_find _ qa_pairs) as [[i qa]|] eqn:Hfind.
  - left. apply list_find_Some in Hfind as (Hi & Hid & _).
    destruct (alter_middle (append_answer comment) _ _ _ Hi)
      as (l1 & l2 & Hl & Ha & _).
    by exists l1, qa, l2.
  - right. by apply list_find_None in Hfind.
Qed.

Lemma file_answer_question_ids (parent comment : Comment) (qa_pairs : list QAPair) :
  NoDup (question_ids qa_pairs) ->
  NoDup (question_ids (file_answer parent comment qa_pairs)).
Proof.
  intros Hnd. unfold question_ids in *.
  destruct (file_answer_cases parent comment qa_pairs)
    as [(l1 & qa & l2 & -> & _ & ->) | [Hnone ->]].
  - by rewrite map_app in *.
  - rewrite map_app. simpl. apply NoDup_app. split; [done|].
    split; [|apply NoDup_singleton].
    intros x Hx Hx'. apply list_elem_of_singleton in Hx' as ->.
    apply list_elem_of_fmap in Hx as (qa & Hid & Hqa).
    rewrite Forall_forall in Hnone. by apply (Hnone qa).
Qed.

(** Filing never loses an answer. *)
Lemma file_answer_keeps (parent comment : Comment) (qa_pairs : list QAPair)
    (qa : QAPair) (a : Comment) :
  qa ∈ qa_pairs -> a ∈ answers qa ->
  exists qa', qa' ∈ file_answer parent comment qa_pairs
              /\ question qa' = question qa /\ a ∈ answers qa'.
Proof.
  intros Hqa Ha.
  destruct (file_answer_cases parent comment qa_pairs)
    as [(l1 & qa0 & l2 & -> & _ & ->) | [_ ->]].
  - apply elem_of_app in Hqa as [H1|H2].
    + exists qa. set_solver.
    + apply elem_of_cons in H2 as [-> | H2].
      * exists (append_answer comment qa0). simpl. set_solver.
      * exists qa. set_solver.
  - exists qa. set_solver.
Qed.

(** The filed comment ends up under [parent], when groups are told apart by
    their question's id. *)
Lemma file_answer_adds (parent comment : Comment) (qa_pairs : list QAPair) :
  (forall qa, qa ∈ qa_pairs -> c_id (question qa) = c_id parent ->
              question qa = parent) ->
  exists qa', qa' ∈ file_answer parent comment qa_pairs
              /\ question qa' = parent /\ comment ∈ answers qa'.
Proof.
  intros Hsame.
  destruct (file_answer_cases parent comment qa_pairs)
    as [(l1 & qa0 & l2 & Hl & Hid & ->) | [_ ->]].
  - exists (append_answer comment qa0). simpl.
    split; [set_solver|]. split; [|set_solver].
    apply Hsame; [|done]. rewrite Hl. set_solver.
  - eexists. split; [apply elem_of_app; right; by left|].
    simpl. split; [done | set_solver].
Qed.

Section Step.
Variable answer_authors_lower : list string.
Variable include_deleted : bool.
Variable comment_map : gmap string Comment.

Abbreviation step := (qa_step answer_authors_lower include_deleted comment_map).

(** What an iteration does, by cases: nothing, or it files the comment
    under its parent, in which case every test of the body passed. *)
Lemma qa_step_cases (qa_pairs : list QAPair) (comment : Comment) :
  step qa_pairs comment = qa_pairs
  \/ exists parent,
      step qa_pairs comment = file_answer parent comment qa_pairs
      /\ PyStr.truthy (c_author comment) = true
      /\ PyStr.lower (c_author comment) ∈ answer_authors_lower
      /\ (include_deleted = false -> is_deleted_body (c_body comment) = false)
      /\ PyStr.startswith (c_parent_id comment) "t1_" = true
      /\ comment_map !! PyStr.slice_from 3 (c_parent_id comment) = Some parent
      /\ (include_deleted = false -> is_deleted_body (c_body parent) = false).
Proof.
  unfold qa_step.
  destruct (PyStr.truthy (c_author comment)) eqn:Htruthy; simpl; [|by left].
  case_bool_decide as Hauthor; simpl; [|by left].
  destruct (negb include_deleted && is_deleted_body (c_body comment)) eqn:Hdel;
    [by left|].
  destruct (PyStr.startswith (c_parent_id comment) "t1_") eqn:Ht1;
    [|destruct (PyStr.startswith _ "t3_"); by left].
  destruct (comment_map !! _) as [parent|] eqn:Hparent; [|by left].
  destruct (negb include_deleted && is_deleted_body (c_body parent)) eqn:Hdel';
    [by left|].
  right. exists parent. repeat split; try done.
  - intros ->. by simpl in Hdel.
  - intros ->. by simpl in Hdel'.
Qed.

(** The converse: a comment that passes every test is filed. *)
Lemma qa_step_files (qa_pairs : list QAPair) (comment parent : Comment) :
  PyStr.truthy (c_author comment) = true ->
  PyStr.lower (c_author comment) ∈ answer_authors_lower ->
  (include_deleted = false -> is_deleted_body (c_body comment) = false) ->
  PyStr.startswith (c_parent_id comment) "t1_" = true ->
  comment_map !! PyStr.slice_from 3 (c_parent_id comment) = Some parent ->
  (include_deleted = false -> is_deleted_body (c_body parent) = false) ->
  step qa_pairs comment = file_answer parent comment qa_pairs.
Proof.
  intros Htruthy Hauthor Hdel Ht1 Hparent Hdel'. unfold qa_step.
  rewrite Htruthy, bool_decide_eq_true_2 by done. simpl.
  rewrite Ht1, Hparent.
  destruct include_deleted; simpl; [done|].
  by rewrite Hdel, Hdel'.
Qed.

Lemma qa_step_keeps (qa_pairs : list QAPair) (comment : Comment)
    (qa : QAPair) (a : Comment) :
  qa ∈ qa_pairs -> a ∈ answers qa ->
  exists qa', qa' ∈ step qa_pairs comment
              /\ question qa' = question qa /\ a ∈ answers qa'.
Proof.
  intros Hqa Ha.
  destruct (qa_step_cases qa_pairs comment) as [-> | (parent & -> & _)].
  - by exists qa.
  - by apply file_answer_keeps.
Qed.

Lemma fold_keeps (l : list Comment) (qa_pairs : list QAPair)
    (qa : QAPair) (a : Comment) :
  qa ∈ qa_pairs -> a ∈ answers qa ->
  exists qa', qa' ∈ fold_left step l qa_pairs
              /\ question qa' = question qa /\ a ∈ answers qa'.
Proof.
  revert qa_pairs qa. induction l as [|c l IH]; intros qa_pairs qa Hqa Ha; simpl.
  - by exists qa.
  - destruct (qa_step_keeps qa_pairs c qa a Hqa Ha) as (qa1 & Hqa1 & Hq1 & Ha1).
    destruct (IH _ _ Hqa1 Ha1) as (qa2 & Hqa2 & Hq2 & Ha2).
    exists qa2. split; [done|]. split; [congruence | done].
Qed.

Hypothesis comment_map_id :
  forall k c, comment_map !! k = Some c -> c_id c = k.

Abbreviation sound :=
  (Forall (well_filed answer_authors_lower include_deleted comment_map)).

(** Soundness of the groups: who is a question, who is an answer. *)
Lemma qa_step_sound (qa_pairs : list QAPair) (c : Comment) :
  sound qa_pairs -> sound (step qa_pairs c).
Proof.
  intros IH.
  destruct (qa_step_cases qa_pairs c)
    as [-> | (parent & -> & Htruthy & Hauthor & Hdel & Ht1 & Hparent & Hdel')];
    [done|].
  pose proof (comment_map_id _ _ Hparent) as Hpid.
  assert (well_answered answer_authors_lower include_deleted comment_map
            parent c) as Hnew by (by repeat split).
  destruct (file_answer_cases parent c qa_pairs)
    as [(l1 & qa & l2 & -> & Hid & ->) | [_ ->]].
  - apply Forall_app in IH as [IH1 IH2].
    apply Forall_cons in IH2 as [(Hq & Hqdel & Hans) IH2].
    apply Forall_app. split; [done|]. apply Forall_cons. split; [|done].
    assert (question qa = parent) as Hsame.
    { rewrite Hid, Hpid, Hparent in Hq. congruence. }
    repeat split; simpl; try done.
    apply Forall_app. split; [done|]. apply Forall_cons. split; [|constructor].
    by rewrite Hsame.
  - apply Forall_app. split; [done|]. apply Forall_cons. split; [|constructor].
    repeat split; simpl.
    + by rewrite Hpid.
    + done.
    + by repeat constructor.
Qed.

Lemma fold_sound (l : list Comment) (qa_pairs : list QAPair) :
  sound qa_pairs -> sound (fold_left step l qa_pairs).
Proof.
  intros H. apply (fold_left_invariant _ sound); [done|].
  intros a b _. apply qa_step_sound.
Qed.

(** Completeness: a comment that passes the tests is in its parent's
    group. *)
Lemma fold_complete (l : list Comment) (c parent : Comment) :
  c ∈ l ->
  well_answered answer_authors_lower include_deleted comment_map parent c ->
  (include_deleted = false -> is_deleted_body (c_body parent) = false) ->
  exists qa, qa ∈ fold_left step l []
             /\ question qa = parent /\ c ∈ answers qa.
Proof.
  intros Hc (Htruthy & Hauthor & Hdel & Ht1 & Hparent) Hdel'.
  apply list_elem_of_split in Hc as (l1 & l2 & ->).
  rewrite fold_left_app. simpl.
  pose proof (fold_sound l1 [] (List.Forall_nil _)) as Hsound.
  rewrite (qa_step_files _ c parent) by done.
  destruct (file_answer_adds parent c (fold_left step l1 []))
    as (qa1 & Hqa1 & Hq1 & Ha1).
  { intros qa Hqa Hid. rewrite Forall_forall in Hsound.
    destruct (Hsound qa Hqa) as (Hq & _).
    rewrite Hid, (comment_map_id _ _ Hparent), Hparent in Hq. congruence. }
  destruct (fold_keeps l2 _ qa1 c Hqa1 Ha1) as (qa2 & Hqa2 & Hq2 & Ha2).
  exists qa2. split; [done|]. split; [congruence | done].
Qed.
End Step.


Lemma collect_invariant (P : list QAPair -> Prop) (comments : list Comment)
    (answer_authors : list string) (include_deleted : bool) :
  P [] ->
  (forall qa_pairs c, c ∈ comments -> P qa_pairs ->
     P (qa_step (map PyStr.lower answer_authors) include_deleted
                (build_comment_map comments) qa_pairs c)) ->
  P (collect_qa_pairs comments answer_authors include_deleted).
Proof.
  intros H0 Hstep. unfold collect_qa_pairs.
  by apply (fold_left_invariant _ P).
Qed.

Lemma collect_sound (comments : list Comment) (answer_authors : list string)
    (include_deleted : bool) :
  Forall (well_filed (map PyStr.lower answer_authors) include_deleted
                     (build_comment_map comments))
         (collect_qa_pairs comments answer_authors include_deleted).
Proof.
  apply fold_sound; [apply build_comment_map_id | constructor].
Qed.

Lemma collect_question_ids (comments : list Comment)
    (answer_authors : list string) (include_deleted : bool) :
  NoDup (question_ids (collect_qa_pairs comments answer_authors include_deleted)).
Proof.
  apply (collect_invariant (fun l => NoDup (question_ids l))); [constructor|].
  intros qa_pairs c _ IH.
  destruct (qa_step_cases (map PyStr.lower answer_authors) include_deleted
              (build_comment_map comments) qa_pairs c)
    as [-> | (parent & -> & _)]; [done|].
  by apply file_answer_question_ids.
Qed.

(** The output is the collected groups, reordered, each with its answers
    reordered. *)
Lemma elem_of_extract (comments : list Comment) (answer_authors : list string)
    (include_deleted : bool) (qa : QAPair) :
  qa ∈ extract_qa_pairs comments answer_authors include_deleted <->
  exists qa0, qa0 ∈ collect_qa_pairs comments answer_authors include_deleted
              /\ qa = sort_answers qa0.
Proof.
  unfold extract_qa_pairs. rewrite list_elem_of_fmap.
  split; intros (qa0 & H1 & H2); exists qa0.
  - by rewrite elem_of_sort_by in H2.
  - by rewrite elem_of_sort_by.
Qed.

Lemma elem_of_sort_answers (a : Comment) (qa : QAPair) :
  a ∈ answers (sort_answers qa) <-> a ∈ answers qa.
Proof. simpl. apply elem_of_sort_by. Qed.

(** Every group of the output has a question and answers that passed the
    tests of the loop body. *)
Lemma extract_sound (comments : list Comment) (answer_authors : list string)
    (include_deleted : bool) (qa : QAPair) :
  qa ∈ extract_qa_pairs comments answer_authors include_deleted ->
  well_filed (map PyStr.lower answer_authors) include_deleted
             (build_comment_map comments) qa.
Proof.
  intros (qa0 & Hqa0 & ->)%elem_of_extract.
  pose proof (collect_sound comments answer_authors include_deleted) as Hs.
  rewrite Forall_forall in Hs. destruct (Hs qa0 Hqa0) as (Hq & Hdel & Hans).
  repeat split; simpl; try done.
  rewrite Forall_forall in Hans |- *. intros a Ha.
  apply Hans. by rewrite elem_of_sort_by in Ha.
Qed.

Lemma extract_complete (comments : list Comment) (answer_authors : list string)
    (include_deleted : bool) (c parent : Comment) :
  c ∈ comments ->
  well_answered (map PyStr.lower answer_authors) include_deleted
                (build_comment_map comments) parent c ->
  (include_deleted = false -> is_deleted_body (c_body parent) = false) ->
  exists qa, qa ∈ extract_qa_pairs comments answer_authors include_deleted
             /\ question qa = parent /\ c ∈ answers qa.
Proof.
  intros Hc Hwell Hdel.
  destruct (fold_complete _ _ _ (build_comment_map_id comments)
              comments c parent Hc Hwell Hdel) as (qa & Hqa & Hq & Ha).
  exists (sort_answers qa). split; [|split].
  - apply elem_of_extract. by exists qa.
  - done.
  - by apply elem_of_sort_answers.
Qed.

Lemma t3_is_not_t1 (s : string) :
  PyStr.startswith s "t3_" = true -> PyStr.startswith s "t1_" = false.
Proof.
  unfold PyStr.startswith.
  destruct s as [|c1 [|c2 s]]; cbn [String.prefix]; try done.
  - by destruct (ascii_dec "t" c1).
  - destruct (ascii_dec "t" c1); [|done].
    destruct (ascii_dec "3" c2) as [<-|]; [|done].
    intros _. by destruct (ascii_dec "1" "3").
Qed.

Lemma question_ids_extract (comments : list Comment)
    (answer_authors : list string) (include_deleted : bool) :
  question_ids (extract_qa_pairs comments answer_authors include_deleted)
  ≡ₚ question_ids (collect_qa_pairs comments answer_authors include_deleted).
Proof.
  unfold extract_qa_pairs, question_ids. rewrite map_map. simpl.
  apply Permutation_map, sort_by_perm.
Qed.

(** C5: the groups of the output are in ascending order of their question's
    [created_utc], and the answers of every group are in ascending order of
    their own [created_utc]. *)
Theorem C5_groups_and_answers_sorted (comments : list Comment)
    (answer_authors : list string) (include_deleted : bool) :
  Sorted Z.le (map (fun qa => c_created_utc (question qa))
                   (extract_qa_pairs comments answer_authors include_deleted))
  /\ Forall (fun qa => Sorted Z.le (map c_created_utc (answers qa)))
            (extract_qa_pairs comments answer_authors include_deleted).
Proof.
  unfold extract_qa_pairs. split.
  - rewrite map_map. simpl.
    apply (sort_by_sorted (fun qa => c_created_utc (question qa))).
  - apply Forall_fmap, Forall_forall. intros qa _. simpl.
    apply sort_by_sorted.
Qed.

(** The scenario of the specification: Q1 (t=100) and Q2 (t=50), each
    answered once, come out as [group(Q2); group(Q1)]. *)
Example two_questions_in_timestamp_order :
  extract_qa_pairs [Scenario.Q1; Scenario.Q2; Scenario.A1; Scenario.B1]
                   ["target"] false
  = [ {| question := Scenario.Q2; answers := [Scenario.B1] |};
      {| question := Scenario.Q1; answers := [Scenario.A1] |} ].
Proof. vm_compute. reflexivity. Qed.

(** The other scenario: two answers to Q1 come out as one group, the answers
    by timestamp. *)
Example two_answers_in_timestamp_order :
  extract_qa_pairs [Scenario.Q1; Scenario.A1; Scenario.A2] ["target"] false
  = [ {| question := Scenario.Q1; answers := [Scenario.A2; Scenario.A1] |} ].
Proof. vm_compute. reflexivity. Qed.

(** C6: a comment whose parent is the submission ([t3_...]) leaves the groups
    as they are when its turn comes, and is an answer of no group of the
    output. *)
Theorem C6_top_level_comment_is_no_answer (comments : list Comment)
    (answer_authors : list string) (include_deleted : bool) (c : Comment) :
  PyStr.startswith (c_parent_id c) "t3_" = true ->
  (forall qa_pairs,
      qa_step (map PyStr.lower answer_authors) include_deleted
              (build_comment_map comments) qa_pairs c = qa_pairs)
  /\ (forall qa, qa ∈ extract_qa_pairs comments answer_authors include_deleted ->
                 c ∉ answers qa).
Proof.
  intros Ht3. pose proof (t3_is_not_t1 _ Ht3) as Ht1. split.
  - intros qa_pairs.
    destruct (qa_step_cases (map PyStr.lower answer_authors) include_deleted
                (build_comment_map comments) qa_pairs c)
      as [-> | (parent & _ & _ & _ & _ & Habs & _)]; [done | congruence].
  - intros qa Hqa Hc.
    destruct (extract_sound _ _ _ _ Hqa) as (_ & _ & Hans).
    rewrite Forall_forall in Hans.
    destruct (Hans c Hc) as (_ & _ & _ & Habs & _). congruence.
Qed.

Lemma C6_top_level_comment_witness :
  PyStr.startswith (c_parent_id Scenario.Top) "t3_" = true
  /\ (forall qa,
        qa ∈ extract_qa_pairs [Scenario.Q1; Scenario.A1; Scenario.Top]
                              ["target"] false ->
        Scenario.Top ∉ answers qa).
Proof.
  split; [reflexivity|].
  apply (C6_top_level_comment_is_no_answer
           [Scenario.Q1; Scenario.A1; Scenario.Top] ["target"] false Scenario.Top).
  reflexivity.
Defined.

(** C7: without [include_deleted] no question and no answer of the output
    has the body ["[deleted]"] or ["[removed]"]; with [include_deleted]
    every reply of a target author to a comment of the set is an answer
    under that comment, whatever the two bodies are. *)
Theorem C7_deleted_bodies (comments : list Comment)
    (answer_authors : list string) :
  (forall qa, qa ∈ extract_qa_pairs comments answer_authors false ->
      is_deleted_body (c_body (question qa)) = false
      /\ forall a, a ∈ answers qa -> is_deleted_body (c_body a) = false)
  /\ (forall c parent,
        c ∈ comments ->
        PyStr.truthy (c_author c) = true ->
        PyStr.lower (c_author c) ∈ map PyStr.lower answer_authors ->
        PyStr.startswith (c_parent_id c) "t1_" = true ->
        build_comment_map comments !! PyStr.slice_from 3 (c_parent_id c)
          = Some parent ->
        exists qa, qa ∈ extract_qa_pairs comments answer_authors true
                   /\ question qa = parent /\ c ∈ answers qa).
Proof.
  split.
  - intros qa Hqa.
    destruct (extract_sound _ _ _ _ Hqa) as (_ & Hq & Hans).
    split; [by apply Hq|]. intros a Ha.
    rewrite Forall_forall in Hans.
    destruct (Hans a Ha) as (_ & _ & Hdel & _). by apply Hdel.
  - intros c parent Hc Htruthy Hauthor Ht1 Hparent.
    apply extract_complete; [done | by repeat split | done].
Qed.

Lemma C7_deleted_bodies_witness :
  (forall qa,
      qa ∈ extract_qa_pairs [Scenario.QDeleted; Scenario.ARemoved] ["target"] false ->
      is_deleted_body (c_body (question qa)) = false
      /\ forall a, a ∈ answers qa -> is_deleted_body (c_body a) = false)
  /\ exists qa,
      qa ∈ extract_qa_pairs [Scenario.QDeleted; Scenario.ARemoved] ["target"] true
      /\ question qa = Scenario.QDeleted /\ Scenario.ARemoved ∈ answers qa.
Proof.
  pose proof (C7_deleted_bodies [Scenario.QDeleted; Scenario.ARemoved] ["target"])
    as [Hno Hyes].
  split; [exact Hno|].
  apply Hyes.
  - right. left.
  - reflexivity.
  - left.
  - reflexivity.
  - vm_compute. reflexivity.
Defined.

(** Groups with distinct question ids are told apart by that id. *)
Lemma question_ids_inj (qa_pairs : list QAPair) (qa qa' : QAPair) :
  NoDup (question_ids qa_pairs) ->
  qa ∈ qa_pairs -> qa' ∈ qa_pairs ->
  c_id (question qa) = c_id (question qa') -> qa = qa'.
Proof.
  unfold question_ids.
  induction qa_pairs as [|x l IH]; intros Hnd Hqa Hqa' Hid; [by inversion Hqa|].
  simpl in Hnd. apply NoDup_cons in Hnd as [Hx Hnd].
  apply elem_of_cons in Hqa as [-> | Hqa];
    apply elem_of_cons in Hqa' as [-> | Hqa']; try done.
  - destruct Hx. rewrite Hid. apply list_elem_of_fmap. by exists qa'.
  - destruct Hx. rewrite <- Hid. apply list_elem_of_fmap. by exists qa.
  - by apply IH.
Qed.

(** C9: the output has at most one group per question id. When the loop
    comes to an answer of a target author to a question that has a group
    already, it appends the answer to the answers of that group, the first
    of that question id, and changes nothing else: no group is added. So two
    answers of target authors to one question are answers of one group of
    the output, and that group is the only one with the question's id. *)
Theorem C9_one_group_per_question (comments : list Comment)
    (answer_authors : list string) (include_deleted : bool) :
  NoDup (question_ids (extract_qa_pairs comments answer_authors include_deleted))
  /\ (forall parent comment qa_pairs,
        well_answered (map PyStr.lower answer_authors) include_deleted
                      (build_comment_map comments) parent comment ->
        (include_deleted = false -> is_deleted_body (c_body parent) = false) ->
        c_id parent ∈ question_ids qa_pairs ->
        exists before existing after,
          qa_pairs = before ++ existing :: after
          /\ c_id (question existing) = c_id parent
          /\ Forall (fun qa => c_id (question qa) <> c_id parent) before
          /\ qa_step (map PyStr.lower answer_authors) include_deleted
                     (build_comment_map comments) qa_pairs comment
             = before ++ {| question := question existing;
                            answers := answers existing ++ [comment] |} :: after)
  /\ (forall parent first second,
        first ∈ comments -> second ∈ comments ->
        well_answered (map PyStr.lower answer_authors) include_deleted
                      (build_comment_map comments) parent first ->
        well_answered (map PyStr.lower answer_authors) include_deleted
                      (build_comment_map comments) parent second ->
        (include_deleted = false -> is_deleted_body (c_body parent) = false) ->
        exists qa,
          qa ∈ extract_qa_pairs comments answer_authors include_deleted
          /\ question qa = parent
          /\ first ∈ answers qa /\ second ∈ answers qa
          /\ forall qa',
               qa' ∈ extract_qa_pairs comments answer_authors include_deleted ->
               c_id (question qa') = c_id parent -> qa' = qa).
Proof.
  assert (NoDup (question_ids
                   (extract_qa_pairs comments answer_authors include_deleted)))
    as Hnd by (rewrite question_ids_extract; apply collect_question_ids).
  split; [done|]. split.
  - intros parent comment qa_pairs (Htruthy & Hauthor & Hdel & Ht1 & Hparent)
      Hdel' Hin.
    rewrite (qa_step_files _ _ _ _ comment parent) by done.
    unfold file_answer.
    destruct (list_find _ qa_pairs) as [[i existing]|] eqn:Hfind.
    + apply list_find_Some in Hfind as (Hi & Hid & Hfirst).
      destruct (alter_middle (append_answer comment) _ _ _ Hi)
        as (before & after & Hl & Ha & Hlen).
      exists before, existing, after.
      split; [done|]. split; [done|]. split; [|exact Ha].
      apply Forall_forall. intros qa' Hqa'.
      apply list_elem_of_lookup in Hqa' as (j & Hj).
      apply (Hfirst j).
      * rewrite Hl. by rewrite lookup_app_l by (by eapply lookup_lt_Some).
      * rewrite <- Hlen. by eapply lookup_lt_Some.
    + apply list_find_None in Hfind.
      unfold question_ids in Hin.
      apply list_elem_of_fmap in Hin as (qa & Hid & Hqa).
      rewrite Forall_forall in Hfind. by destruct (Hfind qa Hqa).
  - intros parent first second Hfirst Hsecond Hwell1 Hwell2 Hdel.
    destruct (extract_complete comments answer_authors include_deleted
                first parent Hfirst Hwell1 Hdel) as (qa1 & Hqa1 & Hq1 & Ha1).
    destruct (extract_complete comments answer_authors include_deleted
                second parent Hsecond Hwell2 Hdel) as (qa2 & Hqa2 & Hq2 & Ha2).
    assert (qa2 = qa1) as -> by (apply (question_ids_inj _ _ _ Hnd); congruence).
    exists qa1. repeat split; try done.
    intros qa' Hqa' Hid. apply (question_ids_inj _ _ _ Hnd); congruence.
Qed.

Lemma C9_one_group_per_question_witness :
  (Scenario.A1 ∈ [Scenario.Q1; Scenario.A1; Scenario.A2]
   /\ Scenario.A2 ∈ [Scenario.Q1; Scenario.A1; Scenario.A2]
   /\ well_answered (map PyStr.lower ["target"]) false
        (build_comment_map [Scenario.Q1; Scenario.A1; Scenario.A2])
        Scenario.Q1 Scenario.A1
   /\ well_answered (map PyStr.lower ["target"]) false
        (build_comment_map [Scenario.Q1; Scenario.A1; Scenario.A2])
        Scenario.Q1 Scenario.A2
   /\ c_id Scenario.Q1
      ∈ question_ids [{| question := Scenario.Q1; answers := [Scenario.A1] |}])
  /\ (exists before existing after,
        [{| question := Scenario.Q1; answers := [Scenario.A1] |}]
        = before ++ existing :: after
        /\ c_id (question existing) = c_id Scenario.Q1
        /\ Forall (fun qa => c_id (question qa) <> c_id Scenario.Q1) before
        /\ qa_step (map PyStr.lower ["target"]) false
             (build_comment_map [Scenario.Q1; Scenario.A1; Scenario.A2])
             [{| question := Scenario.Q1; answers := [Scenario.A1] |}]
             Scenario.A2
           = before ++ {| question := question existing;
                          answers := answers existing ++ [Scenario.A2] |} :: after)
  /\ (exists qa,
        qa ∈ extract_qa_pairs [Scenario.Q1; Scenario.A1; Scenario.A2]
                              ["target"] false
        /\ question qa = Scenario.Q1
        /\ Scenario.A1 ∈ answers qa /\ Scenario.A2 ∈ answers qa
        /\ forall qa',
             qa' ∈ extract_qa_pairs [Scenario.Q1; Scenario.A1; Scenario.A2]
                                    ["target"] false ->
             c_id (question qa') = c_id Scenario.Q1 -> qa' = qa).
Proof.
  assert (well_answered (map PyStr.lower ["target"]) false
            (build_comment_map [Scenario.Q1; Scenario.A1; Scenario.A2])
            Scenario.Q1 Scenario.A1) as Hfirst.
  { split; [reflexivity|]. split; [left|]. split; [reflexivity|].
    split; [reflexivity|]. vm_compute. reflexivity. }
  assert (well_answered (map PyStr.lower ["target"]) false
            (build_comment_map [Scenario.Q1; Scenario.A1; Scenario.A2])
            Scenario.Q1 Scenario.A2) as Hsecond.
  { split; [reflexivity|]. split; [left|]. split; [reflexivity|].
    split; [reflexivity|]. vm_compute. reflexivity. }
  assert (Scenario.A1 ∈ [Scenario.Q1; Scenario.A1; Scenario.A2]) as Hin1
    by (right; left).
  assert (Scenario.A2 ∈ [Scenario.Q1; Scenario.A1; Scenario.A2]) as Hin2
    by (right; right; left).
  assert (c_id Scenario.Q1
          ∈ question_ids [{| question := Scenario.Q1; answers := [Scenario.A1] |}])
    as Hgroup by left.
  pose proof (C9_one_group_per_question
                [Scenario.Q1; Scenario.A1; Scenario.A2] ["target"] false)
    as (_ & Hstep & Hout).
  split; [done|]. split.
  - apply (Hstep Scenario.Q1 Scenario.A2 _ Hsecond); [reflexivity | exact Hgroup].
  - apply (Hout Scenario.Q1 Scenario.A1 Scenario.A2 Hin1 Hin2 Hfirst Hsecond).
    reflexivity.
Defined.

(** C10: a comment with an empty author is an answer of no group of the
    output, whatever the target authors are, the empty string among them
    or not. *)
Theorem C10_empty_author_is_no_answer (comments : list Comment)
    (answer_authors : list string) (include_deleted : bool) (c : Comment) :
  c_author c = "" ->
  forall qa, qa ∈ extract_qa_pairs comments answer_authors include_deleted ->
             c ∉ answers qa.
Proof.
  intros Hempty qa Hqa Hc.
  destruct (extract_sound _ _ _ _ Hqa) as (_ & _ & Hans).
  rewrite Forall_forall in Hans.
  destruct (Hans c Hc) as (Htruthy & _).
  by rewrite Hempty in Htruthy.
Qed.

Lemma C10_empty_author_witness :
  c_author Scenario.Anonymous = ""
  /\ "" ∈ [""; "target"]
  /\ (forall qa,
        qa ∈ extract_qa_pairs [Scenario.Q1; Scenario.Anonymous]
                              [""; "target"] false ->
        Scenario.Anonymous ∉ answers qa).
Proof.
  split; [reflexivity|]. split; [left|].
  apply (C10_empty_author_is_no_answer
           [Scenario.Q1; Scenario.Anonymous] [""; "target"] false
           Scenario.Anonymous).
  reflexivity.
Defined.

End ArchiverFacts.

(** ** The tree walker *)

Module WalkerFacts.

(** Induction over things, with the hypothesis for every thing of a nested
    reply listing. *)
Lemma thing_listing_ind (P : thing -> Prop) :
  (forall data, P (T1 data None)) ->
  (forall data reply_children,
      Forall P reply_children -> P (T1 data (Some reply_children))) ->
  (forall children_ids, P (More children_ids)) ->
  P OtherKind ->
  forall t, P t.
Proof.
  intros Hleaf Hnode Hmore Hother.
  fix IH 1. intros [data [reply_children|] | children_ids | ].
  - apply Hnode. induction reply_children as [|t l IHl]; constructor.
    + apply IH.
    + apply IHl.
  - apply Hleaf.
  - apply Hmore.
  - apply Hother.
Qed.

(** The accumulators once a new comment is recorded. *)
Lemma process_thing_T1 (data : t1_data) (replies : option (list thing))
    (acc : accumulators) (comment_id : string) :
  d_id data = Some comment_id ->
  pending (fetched_ids acc) comment_id = true ->
  process_thing (T1 data replies) acc
  = _process_comment_listing (default [] replies) (record_comment comment_id data acc).
Proof.
  intros Hid Hpending. simpl. rewrite Hid, Hpending.
  destruct replies as [reply_children|]; [|done]. simpl.
  unfold _process_comment_listing.
  generalize (record_comment comment_id data acc).
  induction reply_children as [|t l IH]; intros a; simpl; [done|].
  apply IH.
Qed.

Lemma process_thing_T1_skip (data : t1_data) (replies : option (list thing))
    (acc : accumulators) :
  match d_id data with
  | Some comment_id => pending (fetched_ids acc) comment_id = false
  | None => True
  end ->
  process_thing (T1 data replies) acc = acc.
Proof.
  intros H. simpl. destruct (d_id data) as [comment_id|]; [|done].
  by rewrite H.
Qed.

Lemma pending_spec (fetched : gset string) (i : string) :
  pending fetched i = true <-> i <> "" /\ i ∉ fetched.
Proof.
  unfold pending, PyStr.truthy.
  rewrite andb_true_iff, !negb_true_iff, !bool_decide_eq_false. tauto.
Qed.

Lemma grows_refl (acc : accumulators) : grows acc acc.
Proof.
  exists [], []. rewrite !app_nil_r. simpl.
  repeat split; [set_solver | constructor | constructor].
Qed.

Lemma grows_trans (a b c : accumulators) : grows a b -> grows b c -> grows a c.
Proof.
  intros (n1 & m1 & Hc1 & Hm1 & Hf1 & Hnd1 & Hnew1)
         (n2 & m2 & Hc2 & Hm2 & Hf2 & Hnd2 & Hnew2).
  exists (n1 ++ n2), (m1 ++ m2).
  rewrite Hc2, Hc1, Hm2, Hm1, Hf2, Hf1, !app_assoc, map_app, list_to_set_app_L.
  rewrite Hf1 in Hnew2. rewrite Forall_forall in Hnew1, Hnew2.
  repeat split.
  - set_solver.
  - apply NoDup_app. repeat split; try done.
    intros i Hi1 Hi2. apply list_elem_of_fmap in Hi2 as (c2 & -> & Hc2').
    apply (Hnew2 c2 Hc2'). apply elem_of_union_l. by apply elem_of_list_to_set.
  - apply Forall_app. rewrite !Forall_forall. split; [done|].
    intros c2 Hc2' Hin. apply (Hnew2 c2 Hc2'). set_solver.
Qed.

Lemma grows_record (comment_id : string) (data : t1_data) (acc : accumulators) :
  pending (fetched_ids acc) comment_id = true ->
  grows acc (record_comment comment_id data acc).
Proof.
  intros [_ Hnew]%pending_spec.
  exists [make_comment comment_id data], []. simpl. rewrite app_nil_r.
  repeat split.
  - set_solver.
  - apply NoDup_singleton.
  - by repeat constructor.
Qed.

Lemma grows_walked (acc acc' : accumulators) :
  walked acc -> grows acc acc' -> walked acc'.
Proof.
  intros [Hnd Hseen] (n & m & Hc & _ & Hf & Hndn & Hnew).
  rewrite Forall_forall in Hnew.
  unfold walked. rewrite Hc, Hf, map_app. split.
  - apply NoDup_app. repeat split; try done.
    intros i Hi1 Hi2.
    apply list_elem_of_fmap in Hi1 as (c1 & -> & Hc1).
    apply list_elem_of_fmap in Hi2 as (c2 & Heq & Hc2).
    apply (Hnew c2 Hc2). rewrite <- Heq. by apply Hseen.
  - intros c [Hin|Hin]%elem_of_app.
    + apply elem_of_union_r. by apply Hseen.
    + apply elem_of_union_l, elem_of_list_to_set, list_elem_of_fmap. by exists c.
Qed.

(** What one thing adds: comments go to the end, their ids were not seen
    before, and nothing seen is forgotten. *)
Lemma process_thing_grows (t : thing) :
  forall acc, grows acc (process_thing t acc).
Proof.
  induction t as [data | data reply_children IH | children_ids | ]
    using thing_listing_ind; intros acc.
  - destruct (d_id data) as [comment_id|] eqn:Hid;
      [destruct (pending (fetched_ids acc) comment_id) eqn:Hp|].
    + rewrite (process_thing_T1 _ _ _ _ Hid Hp). by apply grows_record.
    + rewrite process_thing_T1_skip; [apply grows_refl | by rewrite Hid].
    + rewrite process_thing_T1_skip; [apply grows_refl | by rewrite Hid].
  - destruct (d_id data) as [comment_id|] eqn:Hid;
      [destruct (pending (fetched_ids acc) comment_id) eqn:Hp|].
    + rewrite (process_thing_T1 _ _ _ _ Hid Hp). simpl.
      apply (grows_trans _ (record_comment comment_id data acc));
        [by apply grows_record|].
      generalize (record_comment comment_id data acc).
      unfold _process_comment_listing.
      induction IH as [|t l Ht _ IHl]; intros a; simpl; [apply grows_refl|].
      eapply grows_trans; [apply Ht | apply IHl].
    + rewrite process_thing_T1_skip; [apply grows_refl | by rewrite Hid].
    + rewrite process_thing_T1_skip; [apply grows_refl | by rewrite Hid].
  - exists [], (filter (fun i => pending (fetched_ids acc) i = true) children_ids).
    simpl. rewrite app_nil_r.
    repeat split; [set_solver | constructor | constructor].
  - apply grows_refl.
Qed.

Lemma listing_grows (children : list thing) (acc : accumulators) :
  grows acc (_process_comment_listing children acc).
Proof.
  unfold _process_comment_listing.
  apply (fold_left_invariant _ (grows acc)); [apply grows_refl|].
  intros a t _ Ha. eapply grows_trans; [exact Ha | apply process_thing_grows].
Qed.

Lemma listing_walked (children : list thing) (acc : accumulators) :
  walked acc -> walked (_process_comment_listing children acc).
Proof. intros H. eapply grows_walked; [exact H | apply listing_grows]. Qed.

Lemma empty_acc_walked : walked empty_acc.
Proof. split; [constructor | intros c Hc; inversion Hc]. Qed.

Lemma drop_batch_walked (acc : accumulators) : walked acc -> walked (drop_batch acc).
Proof. done. Qed.

Lemma initial_walk_walked (body : json_body) : walked (initial_walk body).
Proof.
  unfold initial_walk. destruct (comments_listing body); [|apply empty_acc_walked].
  apply listing_walked, empty_acc_walked.
Qed.

End WalkerFacts.

(** ** The two fetchers keep the walker's invariant *)

Module PublicFacts.
Import WalkerFacts PublicRedditClient.

Section Remote.
Variable remote : remote_api.

Lemma expansion_iteration_walked (submission_id : string)
    (progress_callback : progress_sink) (expansions_done : nat)
    (acc : accumulators) (s : self) (w : world) :
  walked acc ->
  match expansion_iteration remote submission_id progress_callback
          expansions_done acc s w with
  | Continue (_, acc', _, _) => walked acc'
  | Break (acc', _, _) => walked acc'
  end.
Proof.
  intros Hacc. pose proof (drop_batch_walked acc Hacc) as Hdrop.
  unfold expansion_iteration.
  repeat case_match; simplify_eq; try done; by apply listing_walked.
Qed.

Lemma public_expansion_loop_walked (fuel : nat) (submission_id : string)
    (progress_callback : progress_sink) :
  forall expansions_done acc s w acc' s' w',
    walked acc ->
    expansion_loop remote fuel submission_id progress_callback
                   expansions_done acc s w = Some (acc', s', w') ->
    walked acc'.
Proof.
  induction fuel as [|fuel IH]; intros expansions_done acc s w acc' s' w' Hacc Hrun;
    simpl in Hrun; [done|].
  destruct (_ && _); [|by simplify_eq].
  pose proof (expansion_iteration_walked submission_id progress_callback
                expansions_done acc s w Hacc) as Hstep.
  destruct (expansion_iteration _ _ _ _ _ _ _) as [[[[d a] s1] w1] | [[a s1] w1]].
  - by eapply IH.
  - by simplify_eq.
Qed.

Lemma public_get_all_comments_walked (fuel : nat) (submission_id : string)
    (progress_callback : progress_sink) (s s' : self) (w w' : world)
    (result : list Comment) :
  get_all_comments remote fuel submission_id progress_callback s w
    = Some (Done result, s', w') ->
  NoDup (map c_id result).
Proof.
  unfold get_all_comments. intros Hrun.
  repeat case_match; simplify_eq.
  eapply public_expansion_loop_walked; [|eassumption]. apply initial_walk_walked.
Qed.
End Remote.

End PublicFacts.

Module AuthFacts.
Import WalkerFacts RedditClient.

Section Remote.
Variable auth_remote : auth_api.
Variable remote : remote_api.

Lemma auth_expansion_loop_walked (fuel : nat) (submission_id : string) :
  forall acc s w acc' s' w',
    walked acc ->
    expansion_loop auth_remote remote fuel submission_id acc s w
      = Some (acc', s', w') ->
    walked acc'.
Proof.
  induction fuel as [|fuel IH]; intros acc s w acc' s' w' Hacc Hrun;
    [done|].
  pose proof (drop_batch_walked acc Hacc) as Hdrop.
  cbn [expansion_loop] in Hrun.
  repeat case_match; simplify_eq; try done;
    try (eapply IH; [|eassumption]; try done);
    by apply listing_walked.
Qed.

Lemma auth_get_all_comments_walked (fuel : nat) (submission_id : string)
    (s s' : self) (w w' : world) (result : list Comment) :
  get_all_comments auth_remote remote fuel submission_id s w
    = Some (Done result, s', w') ->
  NoDup (map c_id result).
Proof.
  unfold get_all_comments. intros Hrun.
  repeat case_match; simplify_eq.
  eapply auth_expansion_loop_walked; [|eassumption]. apply initial_walk_walked.
Qed.
End Remote.

End AuthFacts.

(** C1: the flat collection never holds an id twice. Walking any sequence
    of listings from empty accumulators leaves distinct ids; a walk only
    appends, and no comment it appends has an id that was in the seen set;
    so the result of [get_all_comments], of either client, has distinct
    ids. *)
Theorem C1_flat_collection_has_no_duplicate_ids :
  (forall listings : list (list thing),
      NoDup (map c_id
               (comments (fold_left (fun acc children =>
                                       _process_comment_listing children acc)
                                    listings empty_acc))))
  /\ (forall children acc,
        exists new_comments,
          comments (_process_comment_listing children acc)
          = (comments acc ++ new_comments)
          /\ Forall (fun c => c_id c ∉ fetched_ids acc) new_comments)
  /\ (forall remote fuel submission_id progress_callback s w result s' w',
        PublicRedditClient.get_all_comments remote fuel submission_id
          progress_callback s w = Some (Done result, s', w') ->
        NoDup (map c_id result))
  /\ (forall auth_remote remote fuel submission_id s w result s' w',
        RedditClient.get_all_comments auth_remote remote fuel submission_id s w
          = Some (Done result, s', w') ->
        NoDup (map c_id result)).
Proof.
  split; [|split; [|split]].
  - intros listings.
    apply (fold_left_invariant _ walked); [apply WalkerFacts.empty_acc_walked|].
    intros acc children _ Hacc. by apply WalkerFacts.listing_walked.
  - intros children acc.
    destruct (WalkerFacts.listing_grows children acc)
      as (new_comments & _ & Hc & _ & _ & _ & Hnew).
    by exists new_comments.
  - intros. by eapply PublicFacts.public_get_all_comments_walked.
  - intros. by eapply AuthFacts.auth_get_all_comments_walked.
Qed.

(** A thread with [c2] on two paths, [c1] named again by a marker, and an
    expansion that repeats [c2] and gives [m1] twice: four comments. *)
Lemma C1_two_paths_witness :
  NoDup (map c_id [Scenario.flat "c1" "t3_post"; Scenario.flat "c2" "t1_c1";
                   Scenario.flat "m1" "t1_c1"; Scenario.flat "m2" "t3_post"]).
Proof.
  eapply (proj1 (proj2 (proj2 C1_flat_collection_has_no_duplicate_ids))
            Scenario.thread_remote 5%nat "post" None
            Scenario.public_self Scenario.start).
  vm_compute. reflexivity.
Defined.

(** C8: a comment node met with an unseen id is appended first and its
    reply listing is walked next, so in the flat collection the comment
    stands before everything its reply subtree adds ([below]); what the rest
    of the listing adds comes after ([rest]). *)
Theorem C8_comment_before_its_replies (before after : list thing)
    (data : t1_data) (replies : option (list thing)) (acc : accumulators)
    (comment_id : string) :
  d_id data = Some comment_id ->
  pending (fetched_ids (_process_comment_listing before acc)) comment_id = true ->
  exists below rest,
    comments (_process_comment_listing (before ++ T1 data replies :: after) acc)
    = (comments (_process_comment_listing before acc)
       ++ make_comment comment_id data :: below ++ rest)
    /\ comments (_process_comment_listing (default [] replies)
                   (record_comment comment_id data
                      (_process_comment_listing before acc)))
       = (comments (_process_comment_listing before acc)
          ++ make_comment comment_id data :: below).
Proof.
  intros Hid Hpending.
  unfold _process_comment_listing at 1. rewrite fold_left_app. cbn [fold_left].
  fold (_process_comment_listing before acc).
  set (acc0 := _process_comment_listing before acc) in *.
  rewrite (WalkerFacts.process_thing_T1 _ _ _ _ Hid Hpending).
  destruct (WalkerFacts.listing_grows (default [] replies)
              (record_comment comment_id data acc0))
    as (below & _ & Hbelow & _).
  set (acc1 := _process_comment_listing (default [] replies) _) in *.
  destruct (WalkerFacts.listing_grows after acc1) as (rest & _ & Hrest & _).
  exists below, rest.
  fold (_process_comment_listing after acc1).
  rewrite Hrest, Hbelow. simpl. rewrite <- !app_assoc. done.
Qed.

Lemma C8_comment_before_its_replies_witness :
  exists below rest,
    comments (_process_comment_listing Scenario.thread empty_acc)
    = Scenario.flat "c1" "t3_post" :: (below ++ rest)
    /\ comments (_process_comment_listing
                   [Scenario.node "c2" "t1_c1" None; More ["m1"]]
                   (record_comment "c1"
                      {| d_id := Some "c1"; d_author := Some "someone";
                         d_body := Some "text"; d_created_utc := Some 1;
                         d_parent_id := Some "t3_post"; d_permalink := None;
                         d_score := None; d_is_submitter := None |}
                      empty_acc))
       = Scenario.flat "c1" "t3_post" :: below.
Proof.
  apply (C8_comment_before_its_replies []
           [Scenario.node "c2" "t1_c1" None; More ["m2"; "c1"]]
           {| d_id := Some "c1"; d_author := Some "someone";
              d_body := Some "text"; d_created_utc := Some 1;
              d_parent_id := Some "t3_post"; d_permalink := None;
              d_score := None; d_is_submitter := None |}
           (Some [Scenario.node "c2" "t1_c1" None; More ["m1"]])
           empty_acc "c1").
  - reflexivity.
  - vm_compute. reflexivity.
Defined.

(** The walk of that thread, in full. *)
Example walk_thread :
  _process_comment_listing Scenario.thread empty_acc
  = {| comments := [Scenario.flat "c1" "t3_post"; Scenario.flat "c2" "t1_c1"];
       more_ids := ["m1"; "m2"];
       fetched_ids := {["c1"; "c2"]} |}.
Proof. vm_compute. reflexivity. Qed.

Module GateFacts.

Section Public.
Import PublicRedditClient.
Variable remote : remote_api.

Lemma public_rate_limit_calls (s : self) (w : world) :
  calls (snd (_rate_limit s w)) = calls w
  /\ requests (trace (snd (_rate_limit s w))) = requests (trace w).
Proof.
  unfold _rate_limit. simpl. case_match; [|done].
  split; [done|]. simpl. unfold requests. by rewrite omap_app, app_nil_r.
Qed.

(** A call that is answered 429 sleeps and starts over, with the same
    [url]. *)
Lemma public_request_429 (fuel : nat) (url : string) (s : self) (w : world)
    (response : response) :
  answer (remote (calls w) (get url)) = Some response ->
  status_code response = 429 ->
  _request remote (S fuel) url s w
  = _request remote fuel url (fst (_rate_limit s w))
      (sleep (retry_delay response)
         (print (MsgRateLimited (retry_delay response))
            (snd (send remote (get url) (snd (_rate_limit s w)))))).
Proof.
  intros Hanswer Hstatus. cbn [_request].
  destruct (_rate_limit s w) as [s1 w1] eqn:Hrl.
  destruct (public_rate_limit_calls s w) as [Hcalls _].
  rewrite Hrl in Hcalls. simpl in Hcalls.
  unfold send. fold (get url). rewrite Hcalls, Hanswer, Hstatus. simpl.
  by rewrite Hcalls.
Qed.

(** A call that returns has sent its request once, and once more for each
    429 it met, and no other request. *)
Lemma public_request_count (fuel : nat) (url : string) :
  forall s w out s' w',
    _request remote fuel url s w = Some (out, s', w') ->
    exists n : nat,
      calls w' = (calls w + S n)%nat
      /\ requests (trace w') = requests (trace w) ++ replicate (S n) (get url)
      /\ (forall i, (i < n)%nat ->
            status_code <$> answer (remote (calls w + i)%nat (get url)) = Some 429)
      /\ status_code <$> answer (remote (calls w + n)%nat (get url)) <> Some 429.
Proof.
  induction fuel as [|fuel IH]; intros s w out s' w' Hrun; [done|].
  cbn [_request] in Hrun.
  destruct (_rate_limit s w) as [s1 w1] eqn:Hrl.
  destruct (public_rate_limit_calls s w) as [Hcalls Htrace].
  rewrite Hrl in Hcalls, Htrace. simpl in Hcalls, Htrace.
  unfold send in Hrun. fold (get url) in Hrun. rewrite Hcalls in Hrun.
  destruct (answer (remote (calls w) (get url))) as [response|] eqn:Hanswer.
  - destruct (status_code response =? 429) eqn:Hstatus.
    + apply Z.eqb_eq in Hstatus.
      apply IH in Hrun as (n & Hn & Hreq & Hthrottled & Hlast).
      simpl in Hn, Hreq, Hthrottled, Hlast.
      exists (S n). split; [lia|]. split; [|split].
      * rewrite Hreq. unfold requests.
        rewrite !omap_app. simpl. rewrite !app_nil_r.
        fold (requests (trace w1)). rewrite Htrace, <- app_assoc. done.
      * intros [|i] Hi.
        -- by rewrite Nat.add_0_r, Hanswer, <- Hstatus.
        -- replace (calls w + S i)%nat with (S (calls w + i)) by lia.
           apply Hthrottled. lia.
      * by replace (calls w + S n)%nat with (S (calls w + n)) by lia.
    + apply Z.eqb_neq in Hstatus.
      exists 0%nat. rewrite Nat.add_0_r, Hanswer.
      repeat case_match; simplify_eq; simpl;
        (split; [lia|]); (split; [|split; [intros; lia | congruence]]);
        unfold requests; rewrite omap_app; simpl;
        by fold (requests (trace w1)); rewrite Htrace.
  - simplify_eq. exists 0%nat. rewrite Nat.add_0_r, Hanswer. simpl.
    split; [lia|]. split; [|split; [intros; lia | done]].
    unfold requests. rewrite omap_app. simpl.
    by fold (requests (trace w1)); rewrite Htrace.
Qed.
End Public.

Section Auth.
Import RedditClient.
Variable auth_remote : auth_api.
Variable remote : remote_api.

Lemma auth_rate_limit_calls (s : self) (w : world) :
  calls (snd (_rate_limit s w)) = calls w.
Proof. unfold _rate_limit. simpl. by case_match. Qed.

Lemma check_token_calls (s s0 : self) (w w0 : world) (checked : outcome bool) :
  check_token auth_remote s w = (checked, s0, w0) -> calls w0 = calls w.
Proof.
  unfold check_token, authenticate. intros H.
  repeat case_match; by simplify_eq.
Qed.

(** The same for the authenticated client, once the token check has
    passed. *)
Lemma auth_request_429 (fuel : nat) (method endpoint : string)
    (kwargs : list (string * string)) (s s0 : self) (w w0 : world)
    (checked : bool) (response : response) :
  check_token auth_remote s w = (Done checked, s0, w0) ->
  answer (remote (calls w) (api_call method endpoint kwargs)) = Some response ->
  status_code response = 429 ->
  _request auth_remote remote (S fuel) method endpoint kwargs s w
  = _request auth_remote remote fuel method endpoint kwargs
      (fst (_rate_limit s0 w0))
      (sleep (retry_delay response)
         (print (MsgRateLimited (retry_delay response))
            (snd (send remote (api_call method endpoint kwargs)
                       (snd (_rate_limit s0 w0)))))).
Proof.
  intros Hcheck Hanswer Hstatus. cbn [_request]. rewrite Hcheck.
  pose proof (check_token_calls _ _ _ _ _ Hcheck) as Hcalls0.
  pose proof (auth_rate_limit_calls s0 w0) as Hcalls.
  destruct (_rate_limit s0 w0) as [s1 w1]. simpl in Hcalls.
  unfold send. rewrite Hcalls, Hcalls0, Hanswer, Hstatus. simpl.
  by rewrite Hcalls, Hcalls0.
Qed.
Lemma check_token_requests (s s0 : self) (w w0 : world) (checked : outcome bool) :
  check_token auth_remote s w = (checked, s0, w0) ->
  requests (trace w0) = requests (trace w).
Proof.
  unfold check_token, authenticate, requests. intros H.
  repeat case_match; simplify_eq; simpl; by rewrite ?omap_app, ?app_nil_r.
Qed.

Lemma auth_rate_limit_requests (s : self) (w : world) :
  requests (trace (snd (_rate_limit s w))) = requests (trace w).
Proof.
  unfold _rate_limit, requests. simpl. case_match; [|done].
  simpl. by rewrite omap_app, app_nil_r.
Qed.

(** A call of the authenticated client that returns has met some number
    [n] of 429 answers and has sent its request once for each of them; it
    has sent it once more, and met another answer, unless the token check
    before that raised. *)
Lemma auth_request_count (fuel : nat) (method endpoint : string)
    (kwargs : list (string * string)) :
  forall s w out s' w',
    _request auth_remote remote fuel method endpoint kwargs s w
      = Some (out, s', w') ->
    exists n : nat,
      (forall i, (i < n)%nat ->
         status_code <$> answer (remote (calls w + i)%nat
                                        (api_call method endpoint kwargs))
         = Some 429)
      /\ ((requests (trace w')
           = requests (trace w) ++ replicate (S n) (api_call method endpoint kwargs)
           /\ status_code <$> answer (remote (calls w + n)%nat
                                             (api_call method endpoint kwargs))
              <> Some 429)
          \/ (requests (trace w')
              = requests (trace w) ++ replicate n (api_call method endpoint kwargs)
              /\ exists e, out = Raised e)).
Proof.
  set (req := api_call method endpoint kwargs).
  induction fuel as [|fuel IH]; intros s w out s' w' Hrun; [done|].
  cbn [_request] in Hrun. fold req in Hrun.
  destruct (check_token auth_remote s w) as [[checked s0] w0] eqn:Hcheck.
  pose proof (check_token_calls _ _ _ _ _ Hcheck) as Hcalls0.
  pose proof (check_token_requests _ _ _ _ _ Hcheck) as Htrace0.
  destruct checked as [checked|e].
  2:{ simplify_eq. exists 0%nat. split; [intros; lia|]. right.
      simpl. rewrite app_nil_r. split; [done | by exists e]. }
  pose proof (auth_rate_limit_calls s0 w0) as Hcalls.
  pose proof (auth_rate_limit_requests s0 w0) as Htrace.
  destruct (_rate_limit s0 w0) as [s1 w1]. simpl in Hcalls, Htrace.
  unfold send in Hrun. rewrite Hcalls, Hcalls0 in Hrun.
  assert (forall tail, requests (trace w1 ++ EvRequest req :: tail)
                       = requests (trace w) ++ req :: requests tail) as Hsent.
  { intros tail. unfold requests in *. rewrite omap_app. simpl.
    by rewrite Htrace, Htrace0. }
  destruct (answer (remote (calls w) req)) as [response|] eqn:Hanswer.
  - destruct (status_code response =? 429) eqn:Hstatus.
    + apply Z.eqb_eq in Hstatus.
      apply IH in Hrun as (n & Hthrottled & Hrest). simpl in Hthrottled, Hrest.
      rewrite <- !app_assoc in Hrest. simpl in Hrest. rewrite Hsent in Hrest.
      simpl in Hrest.
      exists (S n). split.
      * intros [|i] Hi.
        -- by rewrite Nat.add_0_r, Hanswer, <- Hstatus.
        -- replace (calls w + S i)%nat with (S (calls w + i)) by lia.
           apply Hthrottled. lia.
      * replace (calls w + S n)%nat with (S (calls w + n)) by lia.
        destruct Hrest as [[Hreq Hlast] | [Hreq Hraised]]; [left | right];
          (split; [|done]); rewrite Hreq, <- app_assoc; done.
    + apply Z.eqb_neq in Hstatus.
      exists 0%nat. split; [intros; lia|]. left.
      rewrite Nat.add_0_r, Hanswer.
      split; [|simpl; congruence].
      repeat case_match; simplify_eq; simpl; by rewrite (Hsent []).
  - simplify_eq. exists 0%nat. split; [intros; lia|]. left.
    rewrite Nat.add_0_r, Hanswer. split; [|done]. simpl. by rewrite (Hsent []).
Qed.
End Auth.

End GateFacts.

(** ** Throttled calls *)

Module ThrottleFacts.
Import Gate.

Lemma requests_app (tr1 tr2 : list event) :
  requests (tr1 ++ tr2) = requests tr1 ++ requests tr2.
Proof. apply omap_app. Qed.

Lemma requests_housekeeping (gap : list event) :
  forallb housekeeping gap = true -> requests gap = [].
Proof.
  induction gap as [|e gap IH]; [done|]. simpl.
  intros [He Hrest]%andb_true_iff.
  change (requests (e :: gap)) with (requests [e] ++ requests gap).
  rewrite IH by done. by destruct e.
Qed.



Section Public.
Import PublicRedditClient.
Variable remote : remote_api.


End Public.

Section Auth.
Import RedditClient.
Variable auth_remote : auth_api.
Variable remote : remote_api.
Hypothesis granted : forall k, grants (auth_remote k).

Lemma auth_rate_limit_gap (s : self) (w : world) :
  exists gap,
    trace (snd (_rate_limit s w)) = trace w ++ gap
    /\ forallb housekeeping gap = true
    /\ now w <= now (snd (_rate_limit s w))
    /\ calls (snd (_rate_limit s w)) = calls w.
Proof.
  unfold _rate_limit.
  destruct (Z.ltb_spec (now w - last_request_time s) min_request_interval);
    simpl.
  - eexists [_]. repeat split. lia.
  - exists []. rewrite app_nil_r. repeat split. lia.
Qed.

(** With a token endpoint that grants, the token check passes. *)
Lemma check_token_granted (s : self) (w : world) :
  exists checked s0 w0 gap,
    check_token auth_remote s w = (Done checked, s0, w0)
    /\ trace w0 = trace w ++ gap
    /\ forallb housekeeping gap = true
    /\ now w <= now w0
    /\ calls w0 = calls w.
Proof.
  unfold check_token.
  destruct (now w >=? token_expires s - 60).
  - unfold authenticate.
    destruct (granted (auths w)) as (token & expires_in & ->). simpl.
    eexists _, _, _, [_]. repeat split. simpl. lia.
  - exists true, s, w, []. rewrite app_nil_r. repeat split. lia.
Qed.

Lemma auth_request_once (fuel : nat) (method endpoint : string)
    (kwargs : list (string * string)) (s s0 : self) (w w0 : world)
    (checked : bool) :
  check_token auth_remote s w = (Done checked, s0, w0) ->
  status_code <$> answer (remote (calls w) (api_call method endpoint kwargs))
    <> Some 429 ->
  _request auth_remote remote (S fuel) method endpoint kwargs s w
  = Some (settle (answer (remote (calls w) (api_call method endpoint kwargs))),
          fst (_rate_limit s0 w0),
          snd (send remote (api_call method endpoint kwargs)
                    (snd (_rate_limit s0 w0)))).
Proof.
  intros Hcheck Hnot. cbn [_request]. rewrite Hcheck.
  pose proof (GateFacts.check_token_calls _ _ _ _ _ _ Hcheck) as Hcalls0.
  pose proof (GateFacts.auth_rate_limit_calls s0 w0) as Hcalls.
  destruct (_rate_limit s0 w0) as [s1 w1]. simpl in Hcalls.
  unfold send. simpl. rewrite !Hcalls, !Hcalls0.
  destruct (answer (remote (calls w) (api_call method endpoint kwargs)))
    as [response|] eqn:Hanswer; simpl in *; [|done].
  destruct (Z.eqb_spec (status_code response) 429) as [H429|_]; [congruence|].
  destruct (negb (status_code response =? 200)); [done|].
  by destruct (json response).
Qed.

End Auth.

End ThrottleFacts.



(** In full: two requests, the same twice, one second of sleep for the
    header and one more for the spacing of requests. *)
Example throttled_once_public :
  PublicRedditClient._request Scenario.throttled_once 2 "u"
    Scenario.public_self Scenario.start
  = Some (Done (BodyListings [[]; Scenario.thread]),
          {| PublicRedditClient.last_request_time := 1700000002 |},
          {| now := 1700000002; calls := 2; auths := 0;
             trace := [EvRequest (PublicRedditClient.get "u");
                       EvPrint (MsgRateLimited 1); EvSleep 1; EvSleep 1;
                       EvRequest (PublicRedditClient.get "u")] |}).
Proof. vm_compute. reflexivity. Qed.

Example throttled_once_authenticated :
  RedditClient._request Scenario.no_auth Scenario.throttled_once 2
    "GET" "/comments/post" [] Scenario.auth_self Scenario.start
  = Some (Done (BodyListings [[]; Scenario.thread]),
          {| RedditClient.access_token := Some "token";
             RedditClient.token_expires := 1700003600;
             RedditClient.last_request_time := 1700000001 |},
          {| now := 1700000001; calls := 2; auths := 0;
             trace := [EvRequest (RedditClient.api_call "GET" "/comments/post" []);
                       EvPrint (MsgRateLimited 1); EvSleep 1;
                       EvRequest (RedditClient.api_call "GET" "/comments/post" [])] |}).
Proof. vm_compute. reflexivity. Qed.

(** ** The expansion loops *)

Module LoopFacts.

Section Public.
Import PublicRedditClient.
Variable remote : remote_api.

(** An iteration that does not leave the loop counts an expansion or
    shortens the queue. *)
Lemma expansion_iteration_progress (submission_id : string)
    (progress_callback : progress_sink) (expansions_done : nat)
    (acc : accumulators) (s : self) (w : world) :
  more_ids acc <> [] ->
  match expansion_iteration remote submission_id progress_callback
          expansions_done acc s w with
  | Continue (expansions_done', acc', _, _) =>
      expansions_done' = S expansions_done
      \/ (expansions_done' = expansions_done
          /\ (List.length (more_ids acc') < List.length (more_ids acc))%nat)
  | Break _ => True
  end.
Proof.
  intros Hpending. unfold expansion_iteration.
  repeat case_match; simplify_eq; try done; try by left.
  all: right; split; [done|]; simpl; rewrite length_drop.
  all: destruct (more_ids acc); [done | simpl; lia].
Qed.

(** The loop of the public client always comes to an end. *)
Lemma expansion_loop_terminates (submission_id : string)
    (progress_callback : progress_sink) (expansions_done : nat)
    (acc : accumulators) (s : self) (w : world) :
  exists fuel result,
    expansion_loop remote fuel submission_id progress_callback
                   expansions_done acc s w = Some result.
Proof.
  remember (max_expansions - expansions_done)%nat as k eqn:Hk.
  assert (max_expansions - expansions_done <= k)%nat as Hle by lia. clear Hk.
  remember (List.length (more_ids acc)) as n eqn:Hn.
  assert (List.length (more_ids acc) <= n)%nat as Hlen by lia. clear Hn.
  revert n expansions_done acc s w Hle Hlen.
  induction k as [|k IHk]; intros n expansions_done acc s w Hle Hlen.
  { exists 1%nat. eexists. simpl.
    replace (expansions_done <? max_expansions)%nat with false
      by (symmetry; apply Nat.ltb_ge; lia).
    by rewrite andb_false_r. }
  revert expansions_done acc s w Hle Hlen.
  induction n as [|n IHn]; intros expansions_done acc s w Hle Hlen.
  { exists 1%nat. eexists. simpl.
    destruct (more_ids acc); [|simpl in Hlen; lia].
    by rewrite bool_decide_eq_false_2 by (intros H; by apply H). }
  destruct (bool_decide (more_ids acc <> [])
            && (expansions_done <? max_expansions)%nat) eqn:Hcond.
  - apply andb_true_iff in Hcond as [Hpending%bool_decide_eq_true Hdone%Nat.ltb_lt].
    pose proof (expansion_iteration_progress submission_id progress_callback
                  expansions_done acc s w Hpending) as Hstep.
    destruct (expansion_iteration remote submission_id progress_callback
                expansions_done acc s w)
      as [[[[d a] s1] w1] | result] eqn:Hiter.
    + destruct Hstep as [-> | [-> Hshorter]].
      * destruct (IHk (List.length (more_ids a)) (S expansions_done) a s1 w1)
          as (fuel & result & Hrun); [lia | lia |].
        exists (S fuel), result. simpl.
        rewrite bool_decide_eq_true_2 by done.
        replace (expansions_done <? max_expansions)%nat with true
          by (symmetry; by apply Nat.ltb_lt).
        simpl. by rewrite Hiter.
      * destruct (IHn expansions_done a s1 w1) as (fuel & result & Hrun);
          [lia | lia |].
        exists (S fuel), result. simpl.
        rewrite bool_decide_eq_true_2 by done.
        replace (expansions_done <? max_expansions)%nat with true
          by (symmetry; by apply Nat.ltb_lt).
        simpl. by rewrite Hiter.
    + exists 1%nat, result. simpl.
      rewrite bool_decide_eq_true_2 by done.
      replace (expansions_done <? max_expansions)%nat with true
        by (symmetry; by apply Nat.ltb_lt).
      simpl. by rewrite Hiter.
  - exists 1%nat. eexists. simpl. by rewrite Hcond.
Qed.
(** An iteration sends one request. *)
Lemma expansion_iteration_calls (submission_id : string)
    (progress_callback : progress_sink) (expansions_done : nat)
    (acc : accumulators) (s : self) (w : world) :
  match expansion_iteration remote submission_id progress_callback
          expansions_done acc s w with
  | Continue (_, _, _, w') => calls w' = S (calls w)
  | Break (_, _, w') => calls w' = S (calls w)
  end.
Proof.
  unfold expansion_iteration.
  pose proof (GateFacts.public_rate_limit_calls s w) as [Hcalls _].
  destruct (_rate_limit s w) as [s1 w1]. simpl in Hcalls.
  unfold send, report_progress.
  repeat case_match; simplify_eq; simpl; by rewrite ?Hcalls.
Qed.

(** When every answer carries [json.data], every batch is counted, and the
    loop sends no more batches than the cap leaves. *)
Lemma expansion_loop_cap_with_data (fuel : nat) (submission_id : string)
    (progress_callback : progress_sink) :
  (forall n req, exists r things,
      answer (remote n req) = Some r
      /\ status_code r = 200 /\ json r = BodyJson (Some things)) ->
  forall expansions_done acc s w acc' s' w',
    expansion_loop remote fuel submission_id progress_callback
                   expansions_done acc s w = Some (acc', s', w') ->
    (calls w' <= calls w + (max_expansions - expansions_done))%nat.
Proof.
  intros Hdata.
  induction fuel as [|fuel IH]; intros expansions_done acc s w acc' s' w' Hrun;
    [done|].
  simpl in Hrun.
  destruct (bool_decide (more_ids acc <> [])
            && (expansions_done <? max_expansions)%nat) eqn:Hcond;
    [|simplify_eq; lia].
  apply andb_true_iff in Hcond as [_ Hdone%Nat.ltb_lt].
  pose proof (expansion_iteration_calls submission_id progress_callback
                expansions_done acc s w) as Hcalls.
  assert (match expansion_iteration remote submission_id progress_callback
                  expansions_done acc s w with
          | Continue (d, _, _, _) => d = S expansions_done
          | Break _ => True
          end) as Hcounted.
  { unfold expansion_iteration.
    destruct (_rate_limit s w) as [s1 w1]. unfold send.
    destruct (Hdata (calls w1)
                {| method := "GET"; url := BASE_URL +:+ "/api/morechildren.json";
                   params := morechildren_params submission_id
                               (take 100 (more_ids acc)) |})
      as (r & things & -> & -> & ->).
    simpl. by destruct (report_progress _ _ _) as [[] w3]. }
  destruct (expansion_iteration remote submission_id progress_callback
              expansions_done acc s w) as [[[[d a] s1] w1] | [[a s1] w1]].
  - subst d. apply IH in Hrun. lia.
  - simplify_eq. lia.
Qed.
End Public.

Section Auth.
Import RedditClient.
Variable auth_remote : auth_api.
Variable remote : remote_api.

(** An iteration whose call raises: the warning is printed and the loop
    goes on without the batch. *)
Lemma expansion_loop_failed_batch (fuel : nat) (submission_id : string)
    (acc : accumulators) (s s2 : self) (w w2 : world) (e : exn) :
  more_ids acc <> [] ->
  _request auth_remote remote (S fuel) "GET" "/api/morechildren"
    (morechildren_params submission_id (take 100 (more_ids acc))) s
    (print (MsgExpanding (List.length (take 100 (more_ids acc)))
                         (List.length (drop 100 (more_ids acc)))) w)
    = Some (Raised e, s2, w2) ->
  expansion_loop auth_remote remote (S fuel) submission_id acc s w
  = expansion_loop auth_remote remote fuel submission_id (drop_batch acc) s2
      (print (MsgWarning e) w2).
Proof.
  intros Hpending Hcall. cbn [expansion_loop].
  destruct (more_ids acc) as [|i ids] eqn:Hids; [done|].
  cbn [drop_batch more_ids] in *. rewrite Hids in *.
  by rewrite Hcall.
Qed.
End Auth.

End LoopFacts.

(** C3 (the cap is on counted expansions, not on batches): 2500 pending
    marker ids against answers of status 200 that carry no [json.data] make
    the loop of the public client send 25 batches, after which it returns
    with no comment and an empty queue. *)
Theorem C3_batches_without_data_are_not_counted :
  match PublicRedditClient.expansion_loop Scenario.no_data_remote 30 "post"
          None 0 (Scenario.pending_markers 2500) Scenario.public_self
          Scenario.start with
  | Some (acc', _, w') =>
      calls w' = 25%nat
      /\ List.length (requests (trace w')) = 25%nat
      /\ comments acc' = []
      /\ more_ids acc' = []
  | None => False
  end.
Proof. vm_compute. repeat split. Qed.

(** The loop of the authenticated client with 101 pending ids and a first
    call answered 500: the comment of the second batch is the result, and
    the warning is in the trace. *)
Example failed_batch_run :
  exists s' w',
    RedditClient.expansion_loop Scenario.no_auth Scenario.failing_once 3 "post"
      (Scenario.pending_markers 101) Scenario.auth_self Scenario.start
    = Some ({| comments := [Scenario.flat "m100" "t3_post"];
               more_ids := [];
               fetched_ids := {["m100"]} |}, s', w')
    /\ EvPrint (MsgWarning (ApiError 500)) ∈ trace w'
    /\ calls w' = 2%nat.
Proof.
  destruct (RedditClient.expansion_loop Scenario.no_auth Scenario.failing_once 3
              "post" (Scenario.pending_markers 101) Scenario.auth_self
              Scenario.start) as [[[acc' s'] w']|] eqn:Hrun;
    vm_compute in Hrun; [|done].
  exists s', w'. simplify_eq. split; [|split; [|done]].
  - f_equal. 
  - set_solver.
Qed.

(** * More about the correlator *)

Lemma filter_none {A : Type} (P : A -> Prop) `{!forall x, Decision (P x)}
    (l : list A) :
  (forall x, x ∈ l -> ~ P x) -> filter P l = [].
Proof.
  induction l as [|x l IH]; intros Hnone; [done|].
  rewrite filter_cons_False by (apply Hnone; left).
  apply IH. intros y Hy. apply Hnone. by right.
Qed.

Module CorrelatorFacts.
Import RedditArchiver ArchiverFacts Correlator.

Lemma build_comment_map_elem (comments : list Comment) (k : string) (c : Comment) :
  build_comment_map comments !! k = Some c -> c ∈ comments.
Proof.
  unfold build_comment_map.
  assert (forall (l : list Comment) (m : gmap string Comment),
             (forall k c, m !! k = Some c -> c ∈ comments) ->
             (forall c, c ∈ l -> c ∈ comments) ->
             forall k c, fold_left (fun m c => <[c_id c := c]> m) l m !! k = Some c ->
                         c ∈ comments) as Hgen.
  { induction l as [|c' l IH]; intros m Hm Hl k' c0; simpl; [apply Hm|].
    apply IH.
    - intros k1 c1. rewrite lookup_insert. case_decide.
      + intros [= <-]. apply Hl. left.
      + apply Hm.
    - intros c1 Hc1. apply Hl. by right. }
  apply (Hgen comments ∅); [intros k' c'; by rewrite lookup_empty | done].
Qed.

(** [files] says when an iteration files its comment. *)
Lemma files_spec (answer_authors_lower : list string) (include_deleted : bool)
    (comment_map : gmap string Comment) (c : Comment) :
  files answer_authors_lower include_deleted comment_map c = true <->
  exists parent,
    well_answered answer_authors_lower include_deleted comment_map parent c
    /\ (include_deleted = false -> is_deleted_body (c_body parent) = false).
Proof.
  unfold files, well_answered. split.
  - intros H. repeat (apply andb_true_iff in H as [H ?]).
    destruct (comment_map !! _) as [parent|] eqn:Hparent; [|done].
    exists parent. apply bool_decide_eq_true in H3.
    repeat split; try done.
    + intros ->. by destruct (is_deleted_body (c_body c)).
    + intros ->. by destruct (is_deleted_body (c_body parent)).
  - intros (parent & (Htruthy & Hauthor & Hdel & Ht1 & Hparent) & Hdel').
    rewrite Htruthy, Ht1, Hparent, bool_decide_eq_true_2 by done. simpl.
    destruct include_deleted; simpl; [done|].
    by rewrite Hdel, Hdel'.
Qed.

Lemma qa_step_files_not (answer_authors_lower : list string)
    (include_deleted : bool) (comment_map : gmap string Comment)
    (qa_pairs : list QAPair) (c : Comment) :
  files answer_authors_lower include_deleted comment_map c = false ->
  qa_step answer_authors_lower include_deleted comment_map qa_pairs c = qa_pairs.
Proof.
  intros Hno.
  destruct (qa_step_cases answer_authors_lower include_deleted comment_map
              qa_pairs c)
    as [-> | (parent & _ & Htruthy & Hauthor & Hdel & Ht1 & Hparent & Hdel')];
    [done|].
  assert (files answer_authors_lower include_deleted comment_map c = true)
    as Hyes; [|congruence].
  apply files_spec. exists parent. by repeat split.
Qed.

Lemma qa_step_files_yes (answer_authors_lower : list string)
    (include_deleted : bool) (comment_map : gmap string Comment)
    (qa_pairs : list QAPair) (c : Comment) :
  files answer_authors_lower include_deleted comment_map c = true ->
  exists parent,
    comment_map !! PyStr.slice_from 3 (c_parent_id c) = Some parent
    /\ qa_step answer_authors_lower include_deleted comment_map qa_pairs c
       = file_answer parent c qa_pairs.
Proof.
  intros (parent & (Htruthy & Hauthor & Hdel & Ht1 & Hparent) & Hdel')%files_spec.
  exists parent. split; [done|]. by apply qa_step_files.
Qed.

Lemma all_answers_app (l1 l2 : list QAPair) :
  all_answers (l1 ++ l2) = all_answers l1 ++ all_answers l2.
Proof. unfold all_answers. by rewrite map_app, concat_app. Qed.

Lemma all_answers_cons (qa : QAPair) (l : list QAPair) :
  all_answers (qa :: l) = answers qa ++ all_answers l.
Proof. done. Qed.

Lemma file_answer_all_answers (parent c : Comment) (qa_pairs : list QAPair) :
  all_answers (file_answer parent c qa_pairs) ≡ₚ c :: all_answers qa_pairs.
Proof.
  destruct (file_answer_cases parent c qa_pairs)
    as [(l1 & qa & l2 & -> & _ & ->) | [_ ->]];
    rewrite !all_answers_app, !all_answers_cons; simpl.
  - solve_Permutation.
  - unfold all_answers at 2. simpl. solve_Permutation.
Qed.

Lemma all_answers_perm (l1 l2 : list QAPair) :
  l1 ≡ₚ l2 -> all_answers l1 ≡ₚ all_answers l2.
Proof.
  induction 1 as [|x l l' _ IH|x y l|l l' l'' _ IH1 _ IH2];
    rewrite ?all_answers_cons.
  - done.
  - by rewrite IH.
  - solve_Permutation.
  - by rewrite IH1.
Qed.

Lemma all_answers_sort_answers (l : list QAPair) :
  all_answers (map sort_answers l) ≡ₚ all_answers l.
Proof.
  induction l as [|qa l IH]; [done|].
  simpl. rewrite !all_answers_cons, IH. simpl. by rewrite sort_by_perm.
Qed.

Section Groups.
Variable answer_authors_lower : list string.
Variable include_deleted : bool.
Variable comment_map : gmap string Comment.
Hypothesis comment_map_id :
  forall k c, comment_map !! k = Some c -> c_id c = k.

Abbreviation step := (qa_step answer_authors_lower include_deleted comment_map).
Abbreviation filed := (files answer_authors_lower include_deleted comment_map).
Abbreviation to := (answers_to answer_authors_lower include_deleted comment_map).

(** After the comments [l]: every group holds the filed comments of [l]
    that name its question, in the order of [l]; no question has two
    groups; every filed comment has its group. *)
Lemma fold_grouped (l : list Comment) :
  (forall qa, qa ∈ fold_left step l [] ->
      answers qa = filter (to (c_id (question qa))) l)
  /\ NoDup (question_ids (fold_left step l []))
  /\ (forall c, c ∈ l -> filed c = true ->
        PyStr.slice_from 3 (c_parent_id c) ∈ question_ids (fold_left step l [])).
Proof.
  induction l as [|c l (IH1 & IH2 & IH3)] using rev_ind.
  { split; [intros qa Hqa; inversion Hqa|].
    split; [constructor | intros c Hc; inversion Hc]. }
  rewrite fold_left_app. simpl.
  set (qs := fold_left step l []) in *.
  destruct (filed c) eqn:Hfiled.
  2:{ rewrite qa_step_files_not by done. split; [|split; [done|]].
      - intros qa Hqa. rewrite filter_app, (IH1 qa Hqa).
        rewrite filter_cons_False, filter_nil, app_nil_r; [done|].
        intros [Habs _]. congruence.
      - intros c' [Hc'|Hc']%elem_of_app Hf; [by apply IH3|].
        apply list_elem_of_singleton in Hc' as ->. congruence. }
  destruct (qa_step_files_yes _ _ _ qs c Hfiled) as (parent & Hparent & ->).
  pose proof (comment_map_id _ _ Hparent) as Hpid.
  pose proof (file_answer_question_ids parent c qs IH2) as Hnodup.
  destruct (file_answer_cases parent c qs)
    as [(l1 & qa0 & l2 & Hqs & Hid & Heq) | [Hnone Heq]]; rewrite Heq in *.
  - assert (question_ids (l1 ++ append_answer c qa0 :: l2) = question_ids qs)
      as Hids by (rewrite Hqs; unfold question_ids; by rewrite !map_app).
    split; [|split; [done|]].
    + intros qa Hqa. rewrite filter_app.
      assert (qa = append_answer c qa0
              \/ (qa ∈ qs /\ c_id (question qa) <> c_id (question qa0)))
        as [-> | [Hin Hne]].
      { rewrite Hqs in IH2 |- *. unfold question_ids in IH2.
        rewrite map_app in IH2. simpl in IH2.
        apply NoDup_app in IH2 as (_ & Hdisj & [Hnotin _]%NoDup_cons).
        apply elem_of_app in Hqa as [Hqa | [-> | Hqa]%elem_of_cons].
        - right. split; [set_solver|]. intros Heq'.
          apply (Hdisj (c_id (question qa))).
          + apply list_elem_of_fmap. by exists qa.
          + rewrite Heq'. left.
        - by left.
        - right. split; [set_solver|]. intros Heq'.
          apply Hnotin. rewrite <- Heq'. apply list_elem_of_fmap. by exists qa. }
      * simpl. rewrite (IH1 qa0) by (rewrite Hqs; set_solver).
        rewrite filter_cons_True, filter_nil; [done|].
        split; [done | congruence].
      * rewrite (IH1 qa Hin), filter_cons_False, filter_nil, app_nil_r; [done|].
        intros [_ Habs]. congruence.
    + rewrite Hids.
      intros c' [Hc'|Hc']%elem_of_app Hf; [by apply IH3|].
      apply list_elem_of_singleton in Hc' as ->.
      rewrite Hqs. unfold question_ids. rewrite map_app. simpl.
      apply elem_of_app. right. rewrite <- Hpid, <- Hid. left.
  - rewrite Forall_forall in Hnone.
    split; [|split; [done|]].
    + intros qa [Hqa | Hqa]%elem_of_app; rewrite filter_app.
      * rewrite (IH1 qa Hqa), filter_cons_False, filter_nil, app_nil_r; [done|].
        intros [_ Habs]. apply (Hnone qa Hqa). congruence.
      * apply list_elem_of_singleton in Hqa as ->. simpl.
        rewrite filter_cons_True, filter_nil by (split; [done | congruence]).
        assert (filter (to (c_id parent)) l = []) as ->; [|done].
        apply filter_none. intros c' Hc' [Hf Hto].
        pose proof (IH3 c' Hc' Hf) as Hin.
        apply list_elem_of_fmap in Hin as (qa & Hqid & Hqa).
        apply (Hnone qa Hqa). congruence.
    + intros c' [Hc'|Hc']%elem_of_app Hf; unfold question_ids; rewrite map_app;
        apply elem_of_app.
      * left. by apply IH3.
      * apply list_elem_of_singleton in Hc' as ->. right. simpl.
        rewrite <- Hpid. left.
Qed.
End Groups.

End CorrelatorFacts.

Module CorrelatorProps.
Import RedditArchiver ArchiverFacts Correlator CorrelatorFacts.

Lemma collect_grouped (comments : list Comment) (answer_authors : list string)
    (include_deleted : bool) :
  (forall qa, qa ∈ collect_qa_pairs comments answer_authors include_deleted ->
      answers qa
      = filter (answers_to (map PyStr.lower answer_authors) include_deleted
                           (build_comment_map comments) (c_id (question qa)))
               comments)
  /\ (forall c, c ∈ comments ->
        files (map PyStr.lower answer_authors) include_deleted
              (build_comment_map comments) c = true ->
        PyStr.slice_from 3 (c_parent_id c)
        ∈ question_ids (collect_qa_pairs comments answer_authors include_deleted)).
Proof.
  destruct (fold_grouped (map PyStr.lower answer_authors) include_deleted
              (build_comment_map comments) (build_comment_map_id comments)
              comments) as (H1 & _ & H3).
  by split.
Qed.

Lemma collect_answers_nonempty (comments : list Comment)
    (answer_authors : list string) (include_deleted : bool) :
  Forall (fun qa => answers qa <> [])
         (collect_qa_pairs comments answer_authors include_deleted).
Proof.
  apply (collect_invariant (Forall (fun qa => answers qa <> []))); [constructor|].
  intros qa_pairs c _ IH.
  destruct (qa_step_cases (map PyStr.lower answer_authors) include_deleted
              (build_comment_map comments) qa_pairs c)
    as [-> | (parent & -> & _)]; [done|].
  destruct (file_answer_cases parent c qa_pairs)
    as [(l1 & qa & l2 & -> & _ & ->) | [_ ->]].
  - apply Forall_app in IH as [IH1 [_ IH2]%Forall_cons].
    apply Forall_app. split; [done|]. apply Forall_cons. split; [|done].
    simpl. by destruct (answers qa).
  - apply Forall_app. split; [done|]. by repeat constructor.
Qed.

Lemma sort_by_nil_inv {A : Type} (key : A -> Z) (l : list A) :
  sort_by key l = [] -> l = [].
Proof.
  intros H. apply Permutation_nil_r. rewrite <- H. by rewrite sort_by_perm.
Qed.

Lemma extract_group_contents (comments : list Comment)
    (answer_authors : list string) (include_deleted : bool) :
  Forall (fun qa =>
            build_comment_map comments !! c_id (question qa) = Some (question qa)
            /\ answers qa
               = sort_by c_created_utc
                   (filter (answers_to (map PyStr.lower answer_authors)
                                       include_deleted
                                       (build_comment_map comments)
                                       (c_id (question qa)))
                           comments)
            /\ answers qa <> [])
         (extract_qa_pairs comments answer_authors include_deleted).
Proof.
  apply Forall_forall. intros qa (qa0 & Hqa0 & ->)%elem_of_extract.
  destruct (collect_grouped comments answer_authors include_deleted) as [Hans _].
  pose proof (collect_sound comments answer_authors include_deleted) as Hsound.
  pose proof (collect_answers_nonempty comments answer_authors include_deleted)
    as Hne.
  rewrite Forall_forall in Hsound, Hne.
  destruct (Hsound qa0 Hqa0) as (Hq & _).
  simpl. split; [done|]. split.
  - by rewrite (Hans qa0 Hqa0).
  - intros Hnil%sort_by_nil_inv. by apply (Hne qa0 Hqa0).
Qed.

(** X1: every group of the output has as its question the comment that the
    id map holds for the question's id, and as its answers the comments of
    the input that the loop files under that id, in the order of a stable
    sort by [created_utc]; no group is without an answer. *)
Theorem X1_group_contents (comments : list Comment)
    (answer_authors : list string) (include_deleted : bool) :
  Forall (fun qa =>
            build_comment_map comments !! c_id (question qa) = Some (question qa)
            /\ answers qa
               = sort_by c_created_utc
                   (filter (answers_to (map PyStr.lower answer_authors)
                                       include_deleted
                                       (build_comment_map comments)
                                       (c_id (question qa)))
                           comments)
            /\ answers qa <> [])
         (extract_qa_pairs comments answer_authors include_deleted).
Proof. apply extract_group_contents. Qed.

Lemma extract_cover (comments : list Comment)
    (answer_authors : list string) (include_deleted : bool) :
  Forall (fun c =>
            files (map PyStr.lower answer_authors) include_deleted
                  (build_comment_map comments) c = true ->
            PyStr.slice_from 3 (c_parent_id c)
            ∈ question_ids (extract_qa_pairs comments answer_authors
                                             include_deleted))
         comments.
Proof.
  apply Forall_forall. intros c Hc Hfiled.
  rewrite question_ids_extract.
  by apply (collect_grouped comments answer_authors include_deleted).
Qed.

(** X2: every comment of the input that the loop files has a group in the
    output, the one of its parent's id; and every question and every answer
    of the output is a comment of the input. *)
Theorem X2_groups_cover_and_come_from_input (comments : list Comment)
    (answer_authors : list string) (include_deleted : bool) :
  Forall (fun c =>
            files (map PyStr.lower answer_authors) include_deleted
                  (build_comment_map comments) c = true ->
            PyStr.slice_from 3 (c_parent_id c)
            ∈ question_ids (extract_qa_pairs comments answer_authors
                                             include_deleted))
         comments
  /\ Forall (fun qa => question qa ∈ comments
                       /\ Forall (fun a => a ∈ comments) (answers qa))
            (extract_qa_pairs comments answer_authors include_deleted).
Proof.
  split; [apply extract_cover|].
  - pose proof (X1_helper := collect_grouped comments answer_authors include_deleted).
    apply Forall_forall. intros qa (qa0 & Hqa0 & ->)%elem_of_extract.
    pose proof (collect_sound comments answer_authors include_deleted) as Hsound.
    rewrite Forall_forall in Hsound. destruct (Hsound qa0 Hqa0) as (Hq & _).
    split.
    + simpl. by eapply build_comment_map_elem.
    + apply Forall_forall. intros a Ha.
      apply (proj1 (elem_of_sort_answers a qa0)) in Ha.
      destruct X1_helper as [Hans _]. rewrite (Hans qa0 Hqa0) in Ha.
      by apply list_elem_of_filter in Ha as [_ Ha].
Qed.

Section FoldAnswers.
Variable answer_authors_lower : list string.
Variable include_deleted : bool.
Variable comment_map : gmap string Comment.

Lemma fold_all_answers (l : list Comment) (qa_pairs : list QAPair) :
  all_answers (fold_left (qa_step answer_authors_lower include_deleted comment_map)
                         l qa_pairs)
  ≡ₚ all_answers qa_pairs
     ++ filter (fun c => files answer_authors_lower include_deleted comment_map c
                         = true) l.
Proof.
  revert qa_pairs. induction l as [|c l IH]; intros qa_pairs; simpl.
  - by rewrite app_nil_r.
  - rewrite IH.
    destruct (files answer_authors_lower include_deleted comment_map c) eqn:Hf.
    + destruct (qa_step_files_yes _ _ _ qa_pairs c Hf) as (parent & _ & ->).
      rewrite file_answer_all_answers, filter_cons_True by done.
      solve_Permutation.
    + rewrite qa_step_files_not, filter_cons_False by (done || congruence).
      done.
Qed.
End FoldAnswers.

(** X3: the answers of all groups of the output, taken together, are the
    comments of the input that the loop files, each as often as the input
    has it: no answer is lost, repeated or put under two questions. *)
Theorem X3_answers_are_the_filed_comments (comments : list Comment)
    (answer_authors : list string) (include_deleted : bool) :
  all_answers (extract_qa_pairs comments answer_authors include_deleted)
  ≡ₚ filter (fun c => files (map PyStr.lower answer_authors) include_deleted
                            (build_comment_map comments) c = true)
            comments.
Proof.
  unfold extract_qa_pairs.
  rewrite all_answers_sort_answers, (all_answers_perm _ _ (sort_by_perm _ _)).
  unfold collect_qa_pairs. by rewrite fold_all_answers.
Qed.

Lemma files_include_deleted (answer_authors_lower : list string)
    (comment_map : gmap string Comment) (c : Comment) :
  files answer_authors_lower false comment_map c = true ->
  files answer_authors_lower true comment_map c = true.
Proof.
  unfold files. intros H. repeat (apply andb_true_iff in H as [H ?]).
  destruct (comment_map !! _); [|done].
  by rewrite H, H3, H1.
Qed.

(** X4: what is found without [include_deleted] is found with it: every
    group of the output without the flag has a group of the same question in
    the output with the flag, which holds all its answers. *)
Theorem X4_include_deleted_only_adds (comments : list Comment)
    (answer_authors : list string) :
  Forall (fun qa =>
            exists qa',
              qa' ∈ extract_qa_pairs comments answer_authors true
              /\ question qa' = question qa
              /\ forall a, a ∈ answers qa -> a ∈ answers qa')
         (extract_qa_pairs comments answer_authors false).
Proof.
  apply Forall_forall. intros qa Hqa.
  pose proof (extract_group_contents comments answer_authors false) as Hoff.
  pose proof (extract_group_contents comments answer_authors true) as Hon.
  rewrite Forall_forall in Hoff, Hon.
  destruct (Hoff qa Hqa) as (Hq & Hans & Hne).
  destruct (answers qa) as [|a0 rest] eqn:Hanswers; [done|].
  assert (a0 ∈ filter (answers_to (map PyStr.lower answer_authors) false
                         (build_comment_map comments) (c_id (question qa)))
                      comments) as Ha0.
  { rewrite <- (elem_of_sort_by c_created_utc), <- Hans. left. }
  apply list_elem_of_filter in Ha0 as [[Hf0 Hto0] Hin0].
  pose proof (extract_cover comments answer_authors true) as Hcover.
  rewrite Forall_forall in Hcover.
  pose proof (Hcover a0 Hin0 (files_include_deleted _ _ _ Hf0)) as Hgroup.
  apply list_elem_of_fmap in Hgroup as (qa' & Hid' & Hqa').
  destruct (Hon qa' Hqa') as (Hq' & Hans' & _).
  exists qa'. split; [done|].
  assert (question qa' = question qa) as Hsame.
  { rewrite <- Hid', Hto0, Hq in Hq'. congruence. }
  split; [done|].
  intros a Ha. rewrite Hans in Ha. rewrite Hans', elem_of_sort_by, Hsame.
  rewrite elem_of_sort_by in Ha.
  apply list_elem_of_filter in Ha as [[Hf Hto] Hin].
  apply list_elem_of_filter. split; [|done].
  split; [by apply files_include_deleted | done].
Qed.

Lemma qa_step_authors (authors1 authors2 : list string) (include_deleted : bool)
    (comment_map : gmap string Comment) (qa_pairs : list QAPair) (c : Comment) :
  (forall x, x ∈ authors1 <-> x ∈ authors2) ->
  qa_step authors1 include_deleted comment_map qa_pairs c
  = qa_step authors2 include_deleted comment_map qa_pairs c.
Proof.
  intros Hsame. unfold qa_step.
  by rewrite (bool_decide_ext _ _ (Hsame (PyStr.lower (c_author c)))).
Qed.

(** X5: the answer authors count as a set of lower-case names: two lists
    with the same names up to case, order and repetition give the same
    output. *)
Theorem X5_answer_authors_as_a_set (comments : list Comment)
    (authors1 authors2 : list string) (include_deleted : bool) :
  (forall x, x ∈ map PyStr.lower authors1 <-> x ∈ map PyStr.lower authors2) ->
  extract_qa_pairs comments authors1 include_deleted
  = extract_qa_pairs comments authors2 include_deleted.
Proof.
  intros Hsame. unfold extract_qa_pairs, collect_qa_pairs.
  do 2 f_equal.
  generalize (@nil QAPair). generalize (build_comment_map comments).
  induction comments as [|c l IH]; intros m qa_pairs; simpl; [done|].
  by rewrite IH, (qa_step_authors _ _ _ _ _ _ Hsame).
Qed.

Lemma X5_answer_authors_witness :
  (forall x, x ∈ map PyStr.lower ["Target"; "target"; "MOD"]
             <-> x ∈ map PyStr.lower ["mod"; "TARGET"])
  /\ extract_qa_pairs [Scenario.Q1; Scenario.A1; Scenario.A2]
                      ["Target"; "target"; "MOD"] false
     = extract_qa_pairs [Scenario.Q1; Scenario.A1; Scenario.A2]
                        ["mod"; "TARGET"] false.
Proof.
  assert (forall x, x ∈ map PyStr.lower ["Target"; "target"; "MOD"]
                    <-> x ∈ map PyStr.lower ["mod"; "TARGET"]) as Hsame.
  { intros x. simpl. rewrite !elem_of_cons, !elem_of_nil. tauto. }
  split; [exact Hsame|].
  apply (X5_answer_authors_as_a_set [Scenario.Q1; Scenario.A1; Scenario.A2]
           ["Target"; "target"; "MOD"] ["mod"; "TARGET"] false Hsame).
Defined.

(** X6: when no comment has an author among the answer authors, as when
    the list of answer authors is empty, the output is empty. *)
Theorem X6_no_answer_author_no_group (comments : list Comment)
    (answer_authors : list string) (include_deleted : bool) :
  (forall c, c ∈ comments ->
             PyStr.lower (c_author c) ∉ map PyStr.lower answer_authors) ->
  extract_qa_pairs comments answer_authors include_deleted = [].
Proof.
  intros Hnone.
  assert (collect_qa_pairs comments answer_authors include_deleted = []) as Hc.
  { apply (collect_invariant (fun l => l = [])); [done|].
    intros qa_pairs c Hin ->. apply qa_step_files_not.
    unfold files. rewrite (bool_decide_eq_false_2 _ (Hnone c Hin)).
    by rewrite andb_false_r. }
  unfold extract_qa_pairs. by rewrite Hc.
Qed.

Lemma X6_no_answer_author_witness :
  (forall c, c ∈ [Scenario.Q1; Scenario.A1; Scenario.A2] ->
             PyStr.lower (c_author c) ∉ map PyStr.lower [])
  /\ extract_qa_pairs [Scenario.Q1; Scenario.A1; Scenario.A2] [] true = [].
Proof.
  assert (forall c, c ∈ [Scenario.Q1; Scenario.A1; Scenario.A2] ->
                    PyStr.lower (c_author c) ∉ map PyStr.lower []) as Hnone.
  { intros c _ Hin. inversion Hin. }
  split; [exact Hnone|].
  apply (X6_no_answer_author_no_group
           [Scenario.Q1; Scenario.A1; Scenario.A2] [] true Hnone).
Defined.

Lemma server_qa_step (accounts_lower : list string)
    (comment_map : gmap string Comment) (qa_pairs : list QAPair) (c : Comment) :
  Server.qa_step accounts_lower comment_map qa_pairs c
  = qa_step accounts_lower false comment_map qa_pairs c.
Proof.
  unfold Server.qa_step, qa_step. simpl.
  repeat case_match; done.
Qed.

(** X7: the correlator of the web backend is that of the archiver without
    [include_deleted]. *)
Theorem X7_server_correlates_like_the_archiver (comments : list Comment)
    (accounts : list string) :
  Server.extract_qa_pairs comments accounts
  = extract_qa_pairs comments accounts false.
Proof.
  unfold Server.extract_qa_pairs, extract_qa_pairs, collect_qa_pairs.
  do 2 f_equal.
  generalize (@nil QAPair). generalize (build_comment_map comments).
  induction comments as [|c l IH]; intros m qa_pairs; simpl; [done|].
  by rewrite IH, server_qa_step.
Qed.

End CorrelatorProps.

(** * More about the tree walker *)

Module WalkerProps.
Import WalkerFacts Walker.

Lemma comment_nodes_T1 (data : t1_data) (replies : option (list thing))
    (comment_id : string) :
  d_id data = Some comment_id ->
  comment_nodes (T1 data replies)
  = make_comment comment_id data :: listing_nodes (default [] replies).
Proof.
  intros Hid. simpl. rewrite Hid. f_equal.
  destruct replies as [reply_children|]; [|done]. simpl.
  unfold listing_nodes.
  induction reply_children as [|t l IH]; simpl; [done|]. by rewrite IH.
Qed.

Lemma listing_nodes_cons (t : thing) (l : list thing) :
  listing_nodes (t :: l) = comment_nodes t ++ listing_nodes l.
Proof. done. Qed.

Lemma listing_cons (t : thing) (l : list thing) (acc : accumulators) :
  _process_comment_listing (t :: l) acc
  = _process_comment_listing l (process_thing t acc).
Proof. done. Qed.

Lemma listing_flattens (children : list thing) :
  Forall flattens children ->
  forall acc,
    NoDup (map c_id (listing_nodes children)) ->
    Forall (fun c => c_id c <> "" /\ c_id c ∉ fetched_ids acc)
           (listing_nodes children) ->
    comments (_process_comment_listing children acc)
    = comments acc ++ listing_nodes children
    /\ fetched_ids (_process_comment_listing children acc)
       = list_to_set (map c_id (listing_nodes children)) ∪ fetched_ids acc.
Proof.
  induction 1 as [|t l Ht _ IH]; intros acc Hnd Hnew.
  - simpl. rewrite app_nil_r. split; [done | set_solver].
  - rewrite listing_nodes_cons in *. rewrite listing_cons.
    rewrite map_app in Hnd. apply NoDup_app in Hnd as (Hnd1 & Hdisj & Hnd2).
    apply Forall_app in Hnew as [Hnew1 Hnew2].
    destruct (Ht acc Hnd1 Hnew1) as [Hc Hf].
    destruct (IH (process_thing t acc) Hnd2) as [Hc' Hf'].
    { rewrite Forall_forall in Hnew2 |- *. intros c Hin.
      destruct (Hnew2 c Hin) as [Hne Hnotin]. split; [done|].
      rewrite Hf. intros [Hin1|Hin2]%elem_of_union; [|done].
      apply elem_of_list_to_set in Hin1.
      apply (Hdisj (c_id c) Hin1). apply list_elem_of_fmap. by exists c. }
    rewrite Hc', Hf', Hc, Hf, map_app, list_to_set_app_L, <- app_assoc.
    split; [done | set_solver].
Qed.

Lemma thing_flattens (t : thing) : flattens t.
Proof.
  induction t as [data | data reply_children IH | children_ids | ]
    using thing_listing_ind; intros acc Hnd Hnew.
  - destruct (d_id data) as [comment_id|] eqn:Hid.
    + rewrite (comment_nodes_T1 _ _ _ Hid) in *.
      apply Forall_cons in Hnew as [[Hne Hnotin] _].
      rewrite (process_thing_T1 _ _ _ _ Hid) by (by apply pending_spec).
      simpl. split; [done | set_solver].
    + rewrite process_thing_T1_skip by (by rewrite Hid).
      simpl. rewrite Hid, app_nil_r. split; [done | set_solver].
  - destruct (d_id data) as [comment_id|] eqn:Hid.
    + rewrite (comment_nodes_T1 _ _ _ Hid) in *.
      apply Forall_cons in Hnew as [[Hne Hnotin] Hnew].
      simpl in Hnd, Hne, Hnotin. apply NoDup_cons in Hnd as [Hfresh Hnd].
      rewrite (process_thing_T1 _ _ _ _ Hid) by (by apply pending_spec).
      simpl.
      destruct (listing_flattens reply_children IH
                  (record_comment comment_id data acc) Hnd) as [Hc Hf].
      { rewrite Forall_forall in Hnew |- *. intros c Hin.
        destruct (Hnew c Hin) as [Hne' Hnotin']. split; [done|]. simpl.
        intros [Heq%elem_of_singleton|Hin2]%elem_of_union; [|done].
        apply Hfresh. rewrite <- Heq. apply list_elem_of_fmap. by exists c. }
      rewrite Hc, Hf. simpl. rewrite <- app_assoc. split; [done | set_solver].
    + rewrite process_thing_T1_skip by (by rewrite Hid).
      simpl. rewrite Hid, app_nil_r. split; [done | set_solver].
  - simpl. rewrite app_nil_r. split; [done | set_solver].
  - simpl. rewrite app_nil_r. split; [done | set_solver].
Qed.

(** X8: when the comment nodes of a listing have distinct, non-empty ids
    that were not seen, the walk appends them all, in preorder (a node, then
    its replies, then the next node), and adds exactly their ids to the seen
    set, however deep the listing is. *)
Theorem X8_walk_is_preorder_flattening (children : list thing)
    (acc : accumulators) :
  NoDup (map c_id (listing_nodes children)) ->
  Forall (fun c => c_id c <> "" /\ c_id c ∉ fetched_ids acc)
         (listing_nodes children) ->
  comments (_process_comment_listing children acc)
  = comments acc ++ listing_nodes children
  /\ fetched_ids (_process_comment_listing children acc)
     = list_to_set (map c_id (listing_nodes children)) ∪ fetched_ids acc.
Proof.
  apply listing_flattens, Forall_forall. intros t _. apply thing_flattens.
Qed.

Lemma X8_walk_is_preorder_witness :
  comments (_process_comment_listing
              [Scenario.node "c1" "t3_post"
                 (Some [Scenario.node "c2" "t1_c1"
                          (Some [Scenario.node "c3" "t1_c2" None]);
                        More ["m1"]]);
               Scenario.node "c4" "t3_post" None]
              empty_acc)
  = [Scenario.flat "c1" "t3_post"; Scenario.flat "c2" "t1_c1";
     Scenario.flat "c3" "t1_c2"; Scenario.flat "c4" "t3_post"].
Proof.
  apply (X8_walk_is_preorder_flattening
           [Scenario.node "c1" "t3_post"
              (Some [Scenario.node "c2" "t1_c1"
                       (Some [Scenario.node "c3" "t1_c2" None]);
                     More ["m1"]]);
            Scenario.node "c4" "t3_post" None]
           empty_acc).
  - apply (bool_decide_unpack _). vm_compute. exact I.
  - apply (bool_decide_unpack _). vm_compute. exact I.
Defined.

(** What a walk appends is always a part of the preorder list, in that
    order. *)
Lemma process_thing_sublist (t : thing) :
  forall acc, exists new_comments,
    comments (process_thing t acc) = comments acc ++ new_comments
    /\ new_comments `sublist_of` comment_nodes t.
Proof.
  assert (forall l, Forall (fun t => forall acc, exists new_comments,
                       comments (process_thing t acc) = comments acc ++ new_comments
                       /\ new_comments `sublist_of` comment_nodes t) l ->
            forall acc, exists new_comments,
              comments (_process_comment_listing l acc)
              = comments acc ++ new_comments
              /\ new_comments `sublist_of` listing_nodes l) as Hlist.
  { induction 1 as [|t' l Ht _ IH]; intros acc.
    - exists []. by rewrite app_nil_r.
    - rewrite listing_cons, listing_nodes_cons.
      destruct (Ht acc) as (n1 & Hc1 & Hs1).
      destruct (IH (process_thing t' acc)) as (n2 & Hc2 & Hs2).
      exists (n1 ++ n2). rewrite Hc2, Hc1, <- app_assoc.
      split; [done | by apply sublist_app]. }
  induction t as [data | data reply_children IH | children_ids | ]
    using thing_listing_ind; intros acc;
    try (exists []; simpl; rewrite app_nil_r; split; [done | apply sublist_nil_l]).
  - destruct (d_id data) as [comment_id|] eqn:Hid;
      [destruct (pending (fetched_ids acc) comment_id) eqn:Hp|].
    + rewrite (process_thing_T1 _ _ _ _ Hid Hp), (comment_nodes_T1 _ _ _ Hid).
      by exists [make_comment comment_id data].
    + rewrite process_thing_T1_skip by (by rewrite Hid).
      exists []. rewrite app_nil_r. split; [done | apply sublist_nil_l].
    + rewrite process_thing_T1_skip by (by rewrite Hid).
      exists []. rewrite app_nil_r. split; [done | apply sublist_nil_l].
  - destruct (d_id data) as [comment_id|] eqn:Hid;
      [destruct (pending (fetched_ids acc) comment_id) eqn:Hp|].
    + rewrite (process_thing_T1 _ _ _ _ Hid Hp), (comment_nodes_T1 _ _ _ Hid).
      destruct (Hlist reply_children IH (record_comment comment_id data acc))
        as (n & Hc & Hs).
      exists (make_comment comment_id data :: n). simpl in *.
      rewrite Hc, <- app_assoc. split; [done | by apply sublist_skip].
    + rewrite process_thing_T1_skip by (by rewrite Hid).
      exists []. rewrite app_nil_r. split; [done | apply sublist_nil_l].
    + rewrite process_thing_T1_skip by (by rewrite Hid).
      exists []. rewrite app_nil_r. split; [done | apply sublist_nil_l].
Qed.

(** X9: a walk never invents or reorders comments: what it appends to the
    flat collection is a subsequence of the preorder list of the comment
    nodes of the listing. *)
Theorem X9_walk_appends_a_part_of_the_listing (children : list thing)
    (acc : accumulators) :
  exists new_comments,
    comments (_process_comment_listing children acc)
    = comments acc ++ new_comments
    /\ new_comments `sublist_of` listing_nodes children.
Proof.
  revert acc. induction children as [|t l IH]; intros acc.
  - exists []. by rewrite app_nil_r.
  - rewrite listing_cons, listing_nodes_cons.
    destruct (process_thing_sublist t acc) as (n1 & Hc1 & Hs1).
    destruct (IH (process_thing t acc)) as (n2 & Hc2 & Hs2).
    exists (n1 ++ n2). rewrite Hc2, Hc1, <- app_assoc.
    split; [done | by apply sublist_app].
Qed.

Lemma grows_fetched (acc acc' : accumulators) :
  grows acc acc' -> fetched_ids acc ⊆ fetched_ids acc'.
Proof. intros (n & m & _ & _ & -> & _). set_solver. Qed.

Lemma passed_over_mono (fetched fetched' : gset string) (t : thing) :
  fetched ⊆ fetched' -> passed_over fetched t -> passed_over fetched' t.
Proof.
  intros Hsub. destruct t as [data replies| |]; simpl; try done.
  destruct (d_id data) as [i|]; [|done].
  destruct (pending fetched' i) eqn:Hp; [|done].
  apply pending_spec in Hp as [Hne Hnotin].
  intros Hp'. assert (pending fetched i = true) as Habs; [|congruence].
  apply pending_spec. split; [done | set_solver].
Qed.

Lemma process_thing_then_passed_over (t : thing) (acc : accumulators) :
  passed_over (fetched_ids (process_thing t acc)) t.
Proof.
  destruct t as [data replies| |]; try done.
  cbn [passed_over].
  destruct (d_id data) as [i|] eqn:Hid; [|done].
  destruct (pending (fetched_ids acc) i) eqn:Hp.
  - rewrite (process_thing_T1 _ _ _ _ Hid Hp).
    pose proof (grows_fetched _ _ (listing_grows (default [] replies)
                                     (record_comment i data acc))) as Hsub.
    destruct (pending (fetched_ids (_process_comment_listing _ _)) i) eqn:Hp';
      [|done].
    apply pending_spec in Hp' as [_ Hnotin]. exfalso. apply Hnotin, Hsub.
    simpl. set_solver.
  - rewrite process_thing_T1_skip by (by rewrite Hid). done.
Qed.

Lemma walk_then_passed_over (children : list thing) (acc : accumulators) :
  Forall (passed_over (fetched_ids (_process_comment_listing children acc)))
         children.
Proof.
  revert acc. induction children as [|t l IH]; intros acc; [constructor|].
  rewrite listing_cons. constructor; [|apply IH].
  eapply passed_over_mono; [|apply process_thing_then_passed_over].
  apply grows_fetched, listing_grows.
Qed.

Lemma walk_passed_over (children : list thing) (acc : accumulators) :
  Forall (passed_over (fetched_ids acc)) children ->
  comments (_process_comment_listing children acc) = comments acc
  /\ fetched_ids (_process_comment_listing children acc) = fetched_ids acc.
Proof.
  revert acc. induction children as [|t l IH]; intros acc Hall; [done|].
  apply Forall_cons in Hall as [Ht Hl]. rewrite listing_cons.
  assert (comments (process_thing t acc) = comments acc
          /\ fetched_ids (process_thing t acc) = fetched_ids acc) as [Hc Hf].
  { destruct t as [data replies|ids|]; [|done|done].
    by rewrite process_thing_T1_skip. }
  destruct (IH (process_thing t acc)) as [Hc' Hf']; [by rewrite Hf|].
  by rewrite Hc', Hf', Hc, Hf.
Qed.

(** X10: a listing that is walked once more adds no comment and no id to
    the seen set: after a walk, every comment node at the top of the listing
    is passed over, with its replies. *)
Theorem X10_second_walk_adds_no_comment (children : list thing)
    (acc : accumulators) :
  comments (_process_comment_listing children
              (_process_comment_listing children acc))
  = comments (_process_comment_listing children acc)
  /\ fetched_ids (_process_comment_listing children
                    (_process_comment_listing children acc))
     = fetched_ids (_process_comment_listing children acc).
Proof. apply walk_passed_over, walk_then_passed_over. Qed.

Lemma process_thing_tidy (t : thing) :
  forall acc, tidy acc -> tidy (process_thing t acc).
Proof.
  assert (forall l, Forall (fun t => forall acc, tidy acc -> tidy (process_thing t acc)) l ->
                    forall acc, tidy acc -> tidy (_process_comment_listing l acc))
    as Hlist.
  { induction 1 as [|t' l Ht _ IH]; intros acc Hacc; [done|].
    rewrite listing_cons. by apply IH, Ht. }
  assert (forall i data acc, pending (fetched_ids acc) i = true -> tidy acc ->
                             tidy (record_comment i data acc)) as Hrecord.
  { intros i data acc [Hne _]%pending_spec (Hc & Hm & Hf).
    split; [|split]; simpl.
    - apply Forall_app. split; [done|]. by repeat constructor.
    - done.
    - rewrite Hf, map_app, list_to_set_app_L. simpl. set_solver. }
  induction t as [data | data reply_children IH | children_ids | ]
    using thing_listing_ind; intros acc Hacc; try done.
  - destruct (d_id data) as [i|] eqn:Hid;
      [destruct (pending (fetched_ids acc) i) eqn:Hp|].
    + rewrite (process_thing_T1 _ _ _ _ Hid Hp). by apply Hrecord.
    + by rewrite process_thing_T1_skip by (by rewrite Hid).
    + by rewrite process_thing_T1_skip by (by rewrite Hid).
  - destruct (d_id data) as [i|] eqn:Hid;
      [destruct (pending (fetched_ids acc) i) eqn:Hp|].
    + rewrite (process_thing_T1 _ _ _ _ Hid Hp). by apply Hlist, Hrecord.
    + by rewrite process_thing_T1_skip by (by rewrite Hid).
    + by rewrite process_thing_T1_skip by (by rewrite Hid).
  - destruct Hacc as (Hc & Hm & Hf). split; [|split]; simpl; try done.
    apply Forall_app. split; [done|].
    apply Forall_forall. intros i [Hp _]%list_elem_of_filter.
    by apply pending_spec in Hp as [Hne _].
Qed.

Lemma listing_tidy (children : list thing) (acc : accumulators) :
  tidy acc -> tidy (_process_comment_listing children acc).
Proof.
  revert acc. induction children as [|t l IH]; intros acc Hacc; [done|].
  rewrite listing_cons. by apply IH, process_thing_tidy.
Qed.

Lemma empty_acc_tidy : tidy empty_acc.
Proof. by repeat split. Qed.

Lemma drop_batch_tidy (acc : accumulators) : tidy acc -> tidy (drop_batch acc).
Proof.
  intros (Hc & Hm & Hf). split; [|split]; simpl; try done.
  by apply Forall_drop.
Qed.

End WalkerProps.

(** * More about the request gate *)

Module GateProps.
Import Gate.

(** X11: [_rate_limit], of either client, leaves at least
    [min_request_interval] between the time it recorded last and the time it
    records now; it sleeps for the positive time that is missing and no
    more, and never asks for a negative sleep. *)
Theorem X11_rate_limit_spaces_requests :
  (forall s w,
      let '(s1, w1) := PublicRedditClient._rate_limit s w in
      PublicRedditClient.last_request_time s1 = now w1
      /\ PublicRedditClient.min_request_interval
         <= now w1 - PublicRedditClient.last_request_time s
      /\ (trace w1 = trace w /\ now w1 = now w
          \/ exists d, 0 < d /\ trace w1 = trace w ++ [EvSleep d]
                       /\ now w1 = now w + d
                       /\ now w1 - PublicRedditClient.last_request_time s
                          = PublicRedditClient.min_request_interval))
  /\ (forall s w,
      let '(s1, w1) := RedditClient._rate_limit s w in
      RedditClient.last_request_time s1 = now w1
      /\ RedditClient.min_request_interval
         <= now w1 - RedditClient.last_request_time s
      /\ (trace w1 = trace w /\ now w1 = now w
          \/ exists d, 0 < d /\ trace w1 = trace w ++ [EvSleep d]
                       /\ now w1 = now w + d
                       /\ now w1 - RedditClient.last_request_time s
                          = RedditClient.min_request_interval)).
Proof.
  split; intros s w.
  - unfold PublicRedditClient._rate_limit.
    destruct (Z.ltb_spec (now w - PublicRedditClient.last_request_time s)
                PublicRedditClient.min_request_interval) as [Hlt|Hge]; simpl.
    + split; [done|]. split; [lia|]. right.
      exists (PublicRedditClient.min_request_interval
              - (now w - PublicRedditClient.last_request_time s)).
      repeat split; lia.
    + split; [done|]. split; [lia|]. by left.
  - unfold RedditClient._rate_limit.
    destruct (Z.ltb_spec (now w - RedditClient.last_request_time s)
                RedditClient.min_request_interval) as [Hlt|Hge]; simpl.
    + split; [done|]. split; [lia|]. right.
      exists (RedditClient.min_request_interval
              - (now w - RedditClient.last_request_time s)).
      repeat split; lia.
    + split; [done|]. split; [lia|]. by left.
Qed.

Section Public.
Import PublicRedditClient.
Variable remote : remote_api.

Lemma public_request_settles (fuel : nat) (url : string) (s : self) (w : world) :
  status_code <$> answer (remote (calls w) (get url)) <> Some 429 ->
  exists s' w',
    _request remote (S fuel) url s w
    = Some (settle (answer (remote (calls w) (get url))), s', w')
    /\ calls w' = S (calls w).
Proof.
  intros Hnot. cbn [_request].
  destruct (GateFacts.public_rate_limit_calls s w) as [Hcalls _].
  destruct (_rate_limit s w) as [s1 w1]. simpl in Hcalls.
  unfold send. rewrite Hcalls.
  destruct (answer (remote (calls w) (get url))) as [response|] eqn:Hanswer;
    simpl in *.
  - destruct (Z.eqb_spec (status_code response) 429) as [H429|_];
      [congruence|].
    destruct (negb (status_code response =? 200)); [by eexists _, _|].
    destruct (json response); by eexists _, _.
  - by eexists _, _.
Qed.

(** A call of the public client returns as soon as the remote stops
    answering 429, with what that answer settles. *)
Lemma public_request_returns (n : nat) :
  forall fuel url s w,
    (forall i, (i < n)%nat ->
       status_code <$> answer (remote (calls w + i)%nat (get url)) = Some 429) ->
    status_code <$> answer (remote (calls w + n)%nat (get url)) <> Some 429 ->
    exists s' w',
      _request remote (S n + fuel) url s w
      = Some (settle (answer (remote (calls w + n)%nat (get url))), s', w')
      /\ calls w' = (calls w + S n)%nat.
Proof.
  induction n as [|n IH]; intros fuel url s w Hthrottled Hlast.
  - rewrite Nat.add_0_r in *.
    destruct (public_request_settles fuel url s w Hlast) as (s' & w' & Hrun & Hc).
    exists s', w'. split; [done | lia].
  - pose proof (Hthrottled 0%nat ltac:(lia)) as H0.
    rewrite Nat.add_0_r in H0.
    destruct (answer (remote (calls w) (get url))) as [response|] eqn:Hanswer;
      [|done].
    simpl in H0. injection H0 as H0.
    change (S (S n) + fuel)%nat with (S (S n + fuel)).
    rewrite (GateFacts.public_request_429 remote _ url s w response Hanswer H0).
    destruct (GateFacts.public_rate_limit_calls s w) as [Hcalls _].
    set (w4 := sleep _ _).
    assert (calls w4 = S (calls w)) as Hcalls4.
    { change (calls w4) with (S (calls (snd (_rate_limit s w)))).
      by rewrite Hcalls. }
    destruct (IH fuel url (fst (_rate_limit s w)) w4) as (s' & w' & Hrun & Hc).
    + intros i Hi. rewrite Hcalls4.
      replace (S (calls w) + i)%nat with (calls w + S i)%nat by lia.
      apply Hthrottled. lia.
    + rewrite Hcalls4.
      by replace (S (calls w) + n)%nat with (calls w + S n)%nat by lia.
    + exists s', w'. rewrite Hrun, Hcalls4.
      replace (S (calls w) + n)%nat with (calls w + S n)%nat by lia.
      split; [done | lia].
Qed.
End Public.

(** X12: when the remote answers 429 to the first [n] sends of a call of
    the public client and something else to the next, the call returns,
    given fuel for [n + 1] sends, with what that answer settles: the body
    for a 200 that decodes, [JSONDecodeError] for one that does not,
    [ApiError] for another status, [TransportError] for no answer; it has
    sent [n + 1] requests. *)
Theorem X12_public_request_returns (remote : remote_api) (n fuel : nat)
    (url : string) (s : PublicRedditClient.self) (w : world) :
  (forall i, (i < n)%nat ->
     status_code <$> answer (remote (calls w + i)%nat (PublicRedditClient.get url))
     = Some 429) ->
  status_code <$> answer (remote (calls w + n)%nat (PublicRedditClient.get url))
    <> Some 429 ->
  exists s' w',
    PublicRedditClient._request remote (S n + fuel) url s w
    = Some (settle (answer (remote (calls w + n)%nat
                                   (PublicRedditClient.get url))), s', w')
    /\ calls w' = (calls w + S n)%nat.
Proof. apply public_request_returns. Qed.

Lemma X12_public_request_witness :
  exists s' w',
    PublicRedditClient._request Scenario.throttled_once 2 "u"
      Scenario.public_self Scenario.start
    = Some (Done (BodyListings [[]; Scenario.thread]), s', w')
    /\ calls w' = 2%nat.
Proof.
  apply (X12_public_request_returns Scenario.throttled_once 1 0 "u"
           Scenario.public_self Scenario.start).
  - intros [|i] Hi; [reflexivity | lia].
  - discriminate.
Defined.

Section Auth.
Import RedditClient.
Variable auth_remote : auth_api.

Lemma authenticate_cases (s : self) (w : world) :
  let '(out, s', w') := authenticate auth_remote s w in
  auths w' = S (auths w) /\ calls w' = calls w
  /\ trace w' = trace w ++ [EvAuthenticate]
  /\ ((exists e, out = Raised e /\ s' = s)
      \/ (exists response data token,
            a_answer (auth_remote (auths w)) = Some response
            /\ a_status_code response = 200
            /\ a_json response = Some data
            /\ td_error data = None
            /\ td_access_token data = Some token
            /\ out = Done true
            /\ access_token s' = Some token
            /\ token_expires s' = now w' + default 3600 (td_expires_in data)
            /\ last_request_time s' = last_request_time s)).
Proof.
  unfold authenticate.
  destruct (a_answer (auth_remote (auths w))) as [response|] eqn:Hanswer;
    [|repeat split; left; by eexists].
  destruct (Z.eqb_spec (a_status_code response) 200) as [H200|Hnot]; simpl;
    [|repeat split; left; by eexists].
  destruct (a_json response) as [data|] eqn:Hjson;
    [|repeat split; left; by eexists].
  destruct (td_error data) as [e|] eqn:Herror;
    [repeat split; left; by eexists|].
  destruct (td_access_token data) as [token|] eqn:Htoken;
    [|repeat split; left; by eexists].
  repeat split. right. exists response, data, token. by repeat split.
Qed.
End Auth.

(** X13: [authenticate] makes one token request and no other call. When it
    raises, the client's token, expiry and request time are as before; when
    it returns, the answer had status 200 and a body with a token and no
    [error], and the client holds that token with an expiry of now plus
    [expires_in], 3600 when the body has none. *)
Theorem X13_authenticate (auth_remote : RedditClient.auth_api)
    (s : RedditClient.self) (w : world) :
  let '(out, s', w') := RedditClient.authenticate auth_remote s w in
  auths w' = S (auths w) /\ calls w' = calls w
  /\ trace w' = trace w ++ [EvAuthenticate]
  /\ ((exists e, out = Raised e /\ s' = s)
      \/ (exists response data token,
            RedditClient.a_answer (auth_remote (auths w)) = Some response
            /\ RedditClient.a_status_code response = 200
            /\ RedditClient.a_json response = Some data
            /\ RedditClient.td_error data = None
            /\ RedditClient.td_access_token data = Some token
            /\ out = Done true
            /\ RedditClient.access_token s' = Some token
            /\ RedditClient.token_expires s'
               = now w' + default 3600 (RedditClient.td_expires_in data)
            /\ RedditClient.last_request_time s'
               = RedditClient.last_request_time s)).
Proof. apply authenticate_cases. Qed.

(** X14: a call of the authenticated client that returns has met some
    number [n] of 429 answers and sent its one request once for each; it
    then sent it once more and met an answer other than 429, or its token
    check raised and nothing more was sent. *)
Theorem X14_authenticated_request_count (auth_remote : RedditClient.auth_api)
    (remote : remote_api) (fuel : nat) (method endpoint : string)
    (kwargs : list (string * string)) (s s' : RedditClient.self) (w w' : world)
    (out : outcome json_body) :
  RedditClient._request auth_remote remote fuel method endpoint kwargs s w
    = Some (out, s', w') ->
  exists n : nat,
    (forall i, (i < n)%nat ->
       status_code <$> answer (remote (calls w + i)%nat
                                      (RedditClient.api_call method endpoint kwargs))
       = Some 429)
    /\ ((requests (trace w')
         = requests (trace w)
           ++ replicate (S n) (RedditClient.api_call method endpoint kwargs)
         /\ status_code <$> answer (remote (calls w + n)%nat
                                      (RedditClient.api_call method endpoint kwargs))
            <> Some 429)
        \/ (requests (trace w')
            = requests (trace w)
              ++ replicate n (RedditClient.api_call method endpoint kwargs)
            /\ exists e, out = Raised e)).
Proof. apply GateFacts.auth_request_count. Qed.

Lemma X14_authenticated_request_witness :
  exists n : nat,
    (forall i, (i < n)%nat ->
       status_code <$> answer (Scenario.throttled_once (0 + i)%nat
                                 (RedditClient.api_call "GET" "/comments/post" []))
       = Some 429)
    /\ ((requests
           [EvRequest (RedditClient.api_call "GET" "/comments/post" []);
            EvPrint (MsgRateLimited 1); EvSleep 1;
            EvRequest (RedditClient.api_call "GET" "/comments/post" [])]
         = [] ++ replicate (S n) (RedditClient.api_call "GET" "/comments/post" [])
         /\ status_code <$> answer (Scenario.throttled_once (0 + n)%nat
                                      (RedditClient.api_call "GET" "/comments/post" []))
            <> Some 429)
        \/ (requests
              [EvRequest (RedditClient.api_call "GET" "/comments/post" []);
               EvPrint (MsgRateLimited 1); EvSleep 1;
               EvRequest (RedditClient.api_call "GET" "/comments/post" [])]
            = [] ++ replicate n (RedditClient.api_call "GET" "/comments/post" [])
            /\ exists e, Done (BodyListings [[]; Scenario.thread]) = Raised e)).
Proof.
  apply (X14_authenticated_request_count Scenario.no_auth Scenario.throttled_once
           2 "GET" "/comments/post" [] Scenario.auth_self
           {| RedditClient.access_token := Some "token";
              RedditClient.token_expires := 1700003600;
              RedditClient.last_request_time := 1700000001 |}
           Scenario.start
           {| now := 1700000001; calls := 2; auths := 0;
              trace := [EvRequest (RedditClient.api_call "GET" "/comments/post" []);
                        EvPrint (MsgRateLimited 1); EvSleep 1;
                        EvRequest (RedditClient.api_call "GET" "/comments/post" [])] |}
           (Done (BodyListings [[]; Scenario.thread]))).
  vm_compute. reflexivity.
Defined.

End GateProps.

(** * More about the expansion loops *)

Module LoopProps.
Import Gate Walker WalkerProps.

(** Whatever the walker and the cut of a batch keep, the loops keep. *)
Section Invariant.
Variable I : accumulators -> Prop.
Hypothesis I_walk :
  forall children acc, I acc -> I (_process_comment_listing children acc).
Hypothesis I_drop : forall acc, I acc -> I (drop_batch acc).

Lemma public_iteration_keeps (remote : remote_api) (submission_id : string)
    (progress_callback : progress_sink) (expansions_done : nat)
    (acc : accumulators) (s : PublicRedditClient.self) (w : world) :
  I acc ->
  match PublicRedditClient.expansion_iteration remote submission_id
          progress_callback expansions_done acc s w with
  | Continue (_, acc', _, _) => I acc'
  | Break (acc', _, _) => I acc'
  end.
Proof.
  intros Hacc. pose proof (I_drop acc Hacc) as Hdrop.
  unfold PublicRedditClient.expansion_iteration.
  repeat case_match; simplify_eq; try done; by apply I_walk.
Qed.

Lemma public_loop_keeps (remote : remote_api) (fuel : nat)
    (submission_id : string) (progress_callback : progress_sink) :
  forall expansions_done acc s w acc' s' w',
    I acc ->
    PublicRedditClient.expansion_loop remote fuel submission_id
      progress_callback expansions_done acc s w = Some (acc', s', w') ->
    I acc'.
Proof.
  induction fuel as [|fuel IH]; intros expansions_done acc s w acc' s' w' Hacc Hrun;
    simpl in Hrun; [done|].
  destruct (_ && _); [|by simplify_eq].
  pose proof (public_iteration_keeps remote submission_id progress_callback
                expansions_done acc s w Hacc) as Hstep.
  destruct (PublicRedditClient.expansion_iteration _ _ _ _ _ _ _)
    as [[[[d a] s1] w1] | [[a s1] w1]].
  - by eapply IH.
  - by simplify_eq.
Qed.

Lemma auth_loop_keeps (auth_remote : RedditClient.auth_api)
    (remote : remote_api) (fuel : nat) (submission_id : string) :
  forall acc s w acc' s' w',
    I acc ->
    RedditClient.expansion_loop auth_remote remote fuel submission_id acc s w
      = Some (acc', s', w') ->
    I acc'.
Proof.
  induction fuel as [|fuel IH]; intros acc s w acc' s' w' Hacc Hrun; [done|].
  pose proof (I_drop acc Hacc) as Hdrop.
  cbn [RedditClient.expansion_loop] in Hrun.
  repeat case_match; simplify_eq; try done;
    try (eapply IH; [|eassumption]; try done);
    by apply I_walk.
Qed.
End Invariant.

Lemma initial_walk_tidy (body : json_body) : tidy (initial_walk body).
Proof.
  unfold initial_walk. destruct (comments_listing body); [|apply empty_acc_tidy].
  apply listing_tidy, empty_acc_tidy.
Qed.

(** X15: no empty id gets into the collection or the queue, and the seen
    set is the set of the ids of the collected comments: after any sequence
    of listings walked from empty accumulators, and so in every comment that
    [get_all_comments], of either client, returns. *)
Theorem X15_ids_are_never_empty :
  (forall listings : list (list thing),
      tidy (fold_left (fun acc children => _process_comment_listing children acc)
                      listings empty_acc))
  /\ (forall remote fuel submission_id progress_callback s w result s' w',
        PublicRedditClient.get_all_comments remote fuel submission_id
          progress_callback s w = Some (Done result, s', w') ->
        Forall (fun c => c_id c <> "") result)
  /\ (forall auth_remote remote fuel submission_id s w result s' w',
        RedditClient.get_all_comments auth_remote remote fuel submission_id s w
          = Some (Done result, s', w') ->
        Forall (fun c => c_id c <> "") result).
Proof.
  split; [|split].
  - intros listings.
    apply (fold_left_invariant _ tidy); [apply empty_acc_tidy|].
    intros acc children _ Hacc. by apply listing_tidy.
  - intros remote fuel submission_id progress_callback s w result s' w' Hrun.
    unfold PublicRedditClient.get_all_comments in Hrun.
    repeat case_match; simplify_eq.
    eapply (public_loop_keeps tidy listing_tidy drop_batch_tidy); [|eassumption].
    apply initial_walk_tidy.
  - intros auth_remote remote fuel submission_id s w result s' w' Hrun.
    unfold RedditClient.get_all_comments in Hrun.
    repeat case_match; simplify_eq.
    eapply (auth_loop_keeps tidy listing_tidy drop_batch_tidy); [|eassumption].
    apply initial_walk_tidy.
Qed.

Lemma X15_ids_are_never_empty_witness :
  Forall (fun c => c_id c <> "")
         [Scenario.flat "c1" "t3_post"; Scenario.flat "c2" "t1_c1";
          Scenario.flat "m1" "t1_c1"; Scenario.flat "m2" "t3_post"].
Proof.
  eapply (proj1 (proj2 X15_ids_are_never_empty)
            Scenario.thread_remote 5%nat "post" None
            Scenario.public_self Scenario.start).
  vm_compute. reflexivity.
Defined.

Lemma prefix_walk (acc0 : accumulators) (children : list thing)
    (acc : accumulators) :
  comments acc0 `prefix_of` comments acc ->
  comments acc0 `prefix_of` comments (_process_comment_listing children acc).
Proof.
  intros Hpre.
  destruct (WalkerFacts.listing_grows children acc) as (n & _ & -> & _).
  by apply prefix_app_r.
Qed.

(** X16: expansion only appends: the comments walked from the first
    response are the first of the result of [get_all_comments], in their
    order, for either client. *)
Theorem X16_first_response_comes_first :
  (forall remote fuel submission_id progress_callback s w result s' w',
      PublicRedditClient.get_all_comments remote fuel submission_id
        progress_callback s w = Some (Done result, s', w') ->
      exists response s1 w1,
        PublicRedditClient._request remote fuel
          (PublicRedditClient.BASE_URL +:+ "/comments/" +:+ submission_id
           +:+ ".json?limit=500&depth=100&sort=old") s w
        = Some (Done response, s1, w1)
        /\ comments (initial_walk response) `prefix_of` result)
  /\ (forall auth_remote remote fuel submission_id s w result s' w',
      RedditClient.get_all_comments auth_remote remote fuel submission_id s w
        = Some (Done result, s', w') ->
      exists response s1 w1,
        RedditClient._request auth_remote remote fuel "GET"
          ("/comments/" +:+ submission_id) [("limit", "500"); ("depth", "100")]
          s w
        = Some (Done response, s1, w1)
        /\ comments (initial_walk response) `prefix_of` result).
Proof.
  split.
  - intros remote fuel submission_id progress_callback s w result s' w' Hrun.
    unfold PublicRedditClient.get_all_comments in Hrun.
    destruct (PublicRedditClient._request _ _ _ _ _)
      as [[[[response|e] s1] w1]|]; [|done|done].
    exists response, s1, w1. split; [done|].
    repeat case_match; simplify_eq.
    eapply (public_loop_keeps
              (fun acc => comments (initial_walk response) `prefix_of` comments acc));
      [apply prefix_walk | done | | eassumption].
    done.
  - intros auth_remote remote fuel submission_id s w result s' w' Hrun.
    unfold RedditClient.get_all_comments in Hrun.
    destruct (RedditClient._request _ _ _ _ _ _ _ _)
      as [[[[response|e] s1] w1]|]; [|done|done].
    exists response, s1, w1. split; [done|].
    repeat case_match; simplify_eq.
    eapply (auth_loop_keeps
              (fun acc => comments (initial_walk response) `prefix_of` comments acc));
      [apply prefix_walk | done | | eassumption].
    done.
Qed.

Lemma X16_first_response_witness :
  exists response s1 w1,
    PublicRedditClient._request Scenario.thread_remote 5
      (PublicRedditClient.BASE_URL +:+ "/comments/" +:+ "post"
       +:+ ".json?limit=500&depth=100&sort=old")
      Scenario.public_self Scenario.start
    = Some (Done response, s1, w1)
    /\ comments (initial_walk response)
       `prefix_of` [Scenario.flat "c1" "t3_post"; Scenario.flat "c2" "t1_c1";
                    Scenario.flat "m1" "t1_c1"; Scenario.flat "m2" "t3_post"].
Proof.
  eapply (proj1 X16_first_response_comes_first
            Scenario.thread_remote 5%nat "post" None
            Scenario.public_self Scenario.start).
  vm_compute. reflexivity.
Defined.

(** X17: the expansion loop of the public client always comes to an end:
    whatever the remote answers and whatever the queue and the count are,
    some amount of fuel gives a result. *)
Theorem X17_public_loop_terminates (remote : remote_api)
    (submission_id : string) (progress_callback : progress_sink)
    (expansions_done : nat) (acc : accumulators)
    (s : PublicRedditClient.self) (w : world) :
  exists fuel result,
    PublicRedditClient.expansion_loop remote fuel submission_id
      progress_callback expansions_done acc s w = Some result.
Proof. apply LoopFacts.expansion_loop_terminates. Qed.

(** X18: when every answer of the remote is a 200 with [json.data], the
    loop of the public client sends no more batches than [max_expansions]
    less the expansions already counted. *)
Theorem X18_public_cap_with_data (remote : remote_api) (fuel : nat)
    (submission_id : string) (progress_callback : progress_sink)
    (expansions_done : nat) (acc acc' : accumulators)
    (s s' : PublicRedditClient.self) (w w' : world) :
  (forall n req, exists r things,
      answer (remote n req) = Some r
      /\ status_code r = 200 /\ json r = BodyJson (Some things)) ->
  PublicRedditClient.expansion_loop remote fuel submission_id progress_callback
    expansions_done acc s w = Some (acc', s', w') ->
  (calls w' <= calls w + (PublicRedditClient.max_expansions - expansions_done))%nat.
Proof. intros Hdata. by apply LoopFacts.expansion_loop_cap_with_data. Qed.

Lemma X18_public_cap_witness :
  exists acc' s' w',
    PublicRedditClient.expansion_loop
      (fun _ _ => Scenario.ok (BodyJson (Some []))) 30 "post" None 0
      (Scenario.pending_markers 2500) Scenario.public_self Scenario.start
    = Some (acc', s', w')
    /\ (calls w' <= 0 + (PublicRedditClient.max_expansions - 0))%nat.
Proof.
  eexists _, _, _. split; [vm_compute; reflexivity|].
  eapply (X18_public_cap_with_data (fun _ _ => Scenario.ok (BodyJson (Some [])))
            30 "post" None 0 (Scenario.pending_markers 2500) _
            Scenario.public_self _ Scenario.start).
  - intros n req. by eexists _, [].
  - vm_compute. reflexivity.
Defined.

Section Observer.
Import PublicRedditClient.
Variable remote : remote_api.
Variable f : nat -> nat -> bool.
Hypothesis f_returns : forall fetched remaining, f fetched remaining = true.

Lemma rate_limit_same (s : self) (w1 w2 : world) :
  same_but_trace w1 w2 ->
  fst (_rate_limit s w1) = fst (_rate_limit s w2)
  /\ same_but_trace (snd (_rate_limit s w1)) (snd (_rate_limit s w2)).
Proof.
  intros (Hnow & Hcalls & Hauths & Hreq). unfold _rate_limit. simpl.
  rewrite Hnow. case_match; simpl.
  - rewrite Hnow. split; [done|]. repeat split; simpl; try congruence.
    unfold requests in *. by rewrite !omap_app, Hreq.
  - rewrite Hnow. by repeat split.
Qed.

Lemma send_same (req : request) (w1 w2 : world) :
  same_but_trace w1 w2 ->
  fst (send remote req w1) = fst (send remote req w2)
  /\ same_but_trace (snd (send remote req w1)) (snd (send remote req w2)).
Proof.
  intros (Hnow & Hcalls & Hauths & Hreq). unfold send. simpl.
  rewrite Hcalls, Hnow. split; [done|]. repeat split; simpl; try congruence.
  unfold requests in *. by rewrite !omap_app, Hreq.
Qed.

Lemma report_same (acc : accumulators) (w1 w2 : world) :
  same_but_trace w1 w2 ->
  fst (report_progress (Some f) acc w1) = true
  /\ fst (report_progress None acc w2) = true
  /\ same_but_trace (snd (report_progress (Some f) acc w1))
                    (snd (report_progress None acc w2)).
Proof.
  intros (Hnow & Hcalls & Hauths & Hreq). simpl.
  split; [apply f_returns|]. split; [done|]. repeat split; simpl; try done.
  unfold requests in *. by rewrite omap_app, app_nil_r.
Qed.

Lemma iteration_same (submission_id : string) (expansions_done : nat)
    (acc : accumulators) (s : self) (w1 w2 : world) :
  same_but_trace w1 w2 ->
  match expansion_iteration remote submission_id (Some f) expansions_done acc s w1,
        expansion_iteration remote submission_id None expansions_done acc s w2
  with
  | Continue (d1, a1, s1, w1'), Continue (d2, a2, s2, w2') =>
      d1 = d2 /\ a1 = a2 /\ s1 = s2 /\ same_but_trace w1' w2'
  | Break (a1, s1, w1'), Break (a2, s2, w2') =>
      a1 = a2 /\ s1 = s2 /\ same_but_trace w1' w2'
  | _, _ => False
  end.
Proof.
  intros Hsame. unfold expansion_iteration.
  destruct (rate_limit_same s w1 w2 Hsame) as [Hs Hw].
  destruct (_rate_limit s w1) as [s1 w1'], (_rate_limit s w2) as [s2 w2'].
  simpl in Hs, Hw. subst s2.
  set (req := {| method := "GET"; url := _; params := _ |}).
  destruct (send_same req w1' w2' Hw) as [Hr Hw'].
  destruct (send remote req w1') as [r1 w1''], (send remote req w2') as [r2 w2''].
  simpl in Hr, Hw'. subst r2.
  destruct r1 as [response|]; [|done].
  destruct (status_code response =? 200); [|done].
  destruct (json response) as [|listings|things] eqn:Hjson; try done.
  simpl. destruct things as [things|]; [|done].
  set (acc2 := _process_comment_listing things (drop_batch acc)).
  rewrite f_returns. do 3 (split; [done|]).
  apply (report_same acc2 w1'' w2'' Hw').
Qed.

Lemma loop_same (fuel : nat) (submission_id : string) :
  forall expansions_done acc s w1 w2,
    same_but_trace w1 w2 ->
    match expansion_loop remote fuel submission_id (Some f) expansions_done acc s w1,
          expansion_loop remote fuel submission_id None expansions_done acc s w2
    with
    | Some (a1, s1, w1'), Some (a2, s2, w2') =>
        a1 = a2 /\ s1 = s2 /\ same_but_trace w1' w2'
    | None, None => True
    | _, _ => False
    end.
Proof.
  induction fuel as [|fuel IH]; intros expansions_done acc s w1 w2 Hsame;
    [done|].
  simpl. destruct (_ && _); [|done].
  pose proof (iteration_same submission_id expansions_done acc s w1 w2 Hsame)
    as Hstep.
  destruct (expansion_iteration remote submission_id (Some f) _ _ _ _)
    as [[[[d1 a1] s1] w1'] | [[a1 s1] w1']],
     (expansion_iteration remote submission_id None _ _ _ _)
    as [[[[d2 a2] s2] w2'] | [[a2 s2] w2']]; try done.
  destruct Hstep as (-> & -> & -> & Hsame'). by apply IH.
Qed.
End Observer.

(** X19: a progress callback that returns has no part in the result:
    [get_all_comments] of the public client gives the same outcome, leaves
    the client in the same state, and has sent the same requests at the same
    times as without a callback. *)
Theorem X19_progress_callback_only_observes (remote : remote_api)
    (f : nat -> nat -> bool) (fuel : nat) (submission_id : string)
    (s : PublicRedditClient.self) (w : world) :
  (forall fetched remaining, f fetched remaining = true) ->
  match PublicRedditClient.get_all_comments remote fuel submission_id (Some f) s w,
        PublicRedditClient.get_all_comments remote fuel submission_id None s w
  with
  | Some (out1, s1, w1), Some (out2, s2, w2) =>
      out1 = out2 /\ s1 = s2 /\ same_but_trace w1 w2
  | None, None => True
  | _, _ => False
  end.
Proof.
  intros Hf. unfold PublicRedditClient.get_all_comments.
  destruct (PublicRedditClient._request _ _ _ _ _)
    as [[[[response|e] s1] w1]|]; [| |done].
  2:{ by repeat split. }
  assert (same_but_trace w1 w1) as Hrefl by (by repeat split).
  destruct (report_same f Hf (initial_walk response) w1 w1 Hrefl)
    as (Hret & _ & Hsame).
  destruct (report_progress (Some f) (initial_walk response) w1) as [returned w2].
  simpl in Hret, Hsame. subst returned. cbn [report_progress].
  pose proof (loop_same remote f Hf fuel submission_id 0%nat
                (initial_walk response) s1 w2 w1 Hsame) as Hloop.
  destruct (PublicRedditClient.expansion_loop remote fuel submission_id (Some f)
              _ _ _ _) as [[[a1 s1'] w1']|],
           (PublicRedditClient.expansion_loop remote fuel submission_id None
              _ _ _ _) as [[[a2 s2'] w2']|]; try done.
  destruct Hloop as (-> & -> & Hw). by do 2 (split; [done|]).
Qed.

Lemma X19_progress_callback_witness :
  match PublicRedditClient.get_all_comments Scenario.thread_remote 5 "post"
          (Some (fun _ _ => true)) Scenario.public_self Scenario.start,
        PublicRedditClient.get_all_comments Scenario.thread_remote 5 "post"
          None Scenario.public_self Scenario.start
  with
  | Some (out1, s1, w1), Some (out2, s2, w2) =>
      out1 = out2 /\ s1 = s2 /\ same_but_trace w1 w2
  | None, None => True
  | _, _ => False
  end.
Proof.
  apply (X19_progress_callback_only_observes Scenario.thread_remote
           (fun _ _ => true) 5 "post" Scenario.public_self Scenario.start).
  reflexivity.
Defined.

Section Failing.
Import RedditClient.
Variable auth_remote : auth_api.
Variable remote : remote_api.
Hypothesis never_ok :
  forall n req, status_code <$> answer (remote n req) <> Some 200
                /\ status_code <$> answer (remote n req) <> Some 429.

Lemma auth_request_raises (fuel : nat) (method endpoint : string)
    (kwargs : list (string * string)) (s : self) (w : world) :
  exists e s' w',
    _request auth_remote remote (S fuel) method endpoint kwargs s w
    = Some (Raised e, s', w').
Proof.
  cbn [_request].
  destruct (check_token auth_remote s w) as [[[checked|e] s0] w0];
    [|by eexists _, _, _].
  destruct (_rate_limit s0 w0) as [s1 w1]. unfold send.
  destruct (never_ok (calls w1) (api_call method endpoint kwargs)) as [H200 H429].
  destruct (answer (remote (calls w1) (api_call method endpoint kwargs)))
    as [response|]; [|by eexists _, _, _].
  simpl in H200, H429.
  destruct (Z.eqb_spec (status_code response) 429) as [Heq|_]; [congruence|].
  destruct (Z.eqb_spec (status_code response) 200) as [Heq|_]; [congruence|].
  by eexists _, _, _.
Qed.

Lemma auth_loop_all_failing (fuel : nat) (submission_id : string) :
  forall acc s w,
    (List.length (more_ids acc) < fuel)%nat ->
    exists s' w',
      expansion_loop auth_remote remote fuel submission_id acc s w
      = Some ({| comments := comments acc; more_ids := [];
                 fetched_ids := fetched_ids acc |}, s', w').
Proof.
  induction fuel as [|fuel IH]; intros acc s w Hlen; [lia|].
  cbn [expansion_loop].
  destruct (more_ids acc) as [|i ids] eqn:Hids.
  - exists s, w. destruct acc. simpl in *. by subst.
  - set (w1 := print _ w).
    destruct (auth_request_raises fuel "GET" "/api/morechildren"
                (morechildren_params submission_id (take 100 (i :: ids))) s w1)
      as (e & s2 & w2 & ->).
    destruct (IH (drop_batch acc) s2 (print (MsgWarning e) w2))
      as (s' & w' & ->).
    + simpl. rewrite Hids, length_drop. simpl in *. lia.
    + by exists s', w'.
Qed.
End Failing.

(** X20: when no expansion call succeeds (the remote never answers 200 nor
    429), the loop of the authenticated client still ends, within one
    iteration per pending id: it returns the comments and the seen set it
    was given, with an empty queue. *)
Theorem X20_authenticated_loop_survives_failures
    (auth_remote : RedditClient.auth_api) (remote : remote_api) (fuel : nat)
    (submission_id : string) (acc : accumulators) (s : RedditClient.self)
    (w : world) :
  (forall n req, status_code <$> answer (remote n req) <> Some 200
                 /\ status_code <$> answer (remote n req) <> Some 429) ->
  (List.length (more_ids acc) < fuel)%nat ->
  exists s' w',
    RedditClient.expansion_loop auth_remote remote fuel submission_id acc s w
    = Some ({| comments := comments acc; more_ids := [];
               fetched_ids := fetched_ids acc |}, s', w').
Proof. intros Hnever. by apply auth_loop_all_failing. Qed.

Lemma X20_authenticated_loop_witness :
  exists s' w',
    RedditClient.expansion_loop Scenario.no_auth (fun _ _ => Scenario.failed 503 None)
      251 "post" (Scenario.pending_markers 250) Scenario.auth_self Scenario.start
    = Some ({| comments := []; more_ids := []; fetched_ids := ∅ |}, s', w').
Proof.
  apply (X20_authenticated_loop_survives_failures Scenario.no_auth
           (fun _ _ => Scenario.failed 503 None) 251 "post"
           (Scenario.pending_markers 250) Scenario.auth_self Scenario.start).
  - intros n req. split; discriminate.
  - vm_compute. lia.
Defined.

(** X21: in the public client the first expansion that fails ends the
    loop: when the answer to a batch is no answer, a status other than 200
    or a body that does not decode, the loop returns after that one request
    with the comments it had, and the rest of the queue is left. *)
Theorem X21_public_loop_stops_at_first_failure (remote : remote_api)
    (fuel : nat) (submission_id : string) (progress_callback : progress_sink)
    (expansions_done : nat) (acc : accumulators)
    (s : PublicRedditClient.self) (w : world) :
  more_ids acc <> [] ->
  (expansions_done < PublicRedditClient.max_expansions)%nat ->
  (forall r,
      answer (remote (calls w)
                {| method := "GET";
                   url := PublicRedditClient.BASE_URL +:+ "/api/morechildren.json";
                   params := morechildren_params submission_id
                               (take 100 (more_ids acc)) |}) = Some r ->
      status_code r <> 200 \/ json r = BodyInvalid) ->
  exists s' w',
    PublicRedditClient.expansion_loop remote (S fuel) submission_id
      progress_callback expansions_done acc s w
    = Some (drop_batch acc, s', w')
    /\ calls w' = S (calls w).
Proof.
  intros Hpending Hdone Hfails. cbn [PublicRedditClient.expansion_loop].
  rewrite bool_decide_eq_true_2 by done.
  replace (expansions_done <? PublicRedditClient.max_expansions)%nat with true
    by (symmetry; by apply Nat.ltb_lt).
  cbn [andb]. unfold PublicRedditClient.expansion_iteration.
  destruct (GateFacts.public_rate_limit_calls s w) as [Hcalls _].
  destruct (PublicRedditClient._rate_limit s w) as [s1 w1]. simpl in Hcalls.
  unfold send. rewrite Hcalls.
  set (req := {| method := "GET"; url := _; params := _ |}) in *.
  destruct (answer (remote (calls w) req)) as [r|]; [|by eexists _, _].
  destruct (Hfails r eq_refl) as [Hstatus | Hbody].
  - destruct (Z.eqb_spec (status_code r) 200) as [Heq|_]; [congruence|].
    by eexists _, _.
  - destruct (status_code r =? 200); [|by eexists _, _].
    rewrite Hbody. by eexists _, _.
Qed.

Lemma X21_public_loop_witness :
  exists s' w',
    PublicRedditClient.expansion_loop Scenario.failing_once 1 "post" None 0
      (Scenario.pending_markers 250) Scenario.public_self Scenario.start
    = Some (drop_batch (Scenario.pending_markers 250), s', w')
    /\ calls w' = 1%nat.
Proof.
  apply (X21_public_loop_stops_at_first_failure Scenario.failing_once 0 "post"
           None 0 (Scenario.pending_markers 250) Scenario.public_self
           Scenario.start).
  - discriminate.
  - vm_compute. lia.
  - intros r [= <-]. left. discriminate.
Defined.

End LoopProps.

(** * The failed batch of the authenticated loop *)

Module FailedBatchFacts.
Import Gate Walker Loop WalkerFacts WalkerProps ThrottleFacts.

Lemma thing_markers_T1 (data : t1_data) (replies : option (list thing)) :
  thing_markers (T1 data replies) = listing_markers (default [] replies).
Proof.
  destruct replies as [reply_children|]; [|done]. simpl.
  unfold listing_markers.
  induction reply_children as [|t l IH]; simpl; [done|]. by rewrite IH.
Qed.

Lemma listing_markers_cons (t : thing) (l : list thing) :
  listing_markers (t :: l) = thing_markers t ++ listing_markers l.
Proof. done. Qed.

(** What a walk adds to the queue is listed by the [more] things of the
    listing. *)
Lemma listing_queues (children : list thing) :
  Forall (fun t => forall acc, exists new_ids,
            more_ids (process_thing t acc) = more_ids acc ++ new_ids
            /\ new_ids ⊆ thing_markers t) children ->
  forall acc, exists new_ids,
    more_ids (_process_comment_listing children acc) = more_ids acc ++ new_ids
    /\ new_ids ⊆ listing_markers children.
Proof.
  induction 1 as [|t l Ht _ IH]; intros acc.
  - exists []. by rewrite app_nil_r.
  - rewrite listing_cons, listing_markers_cons.
    destruct (Ht acc) as (n1 & Hq1 & Hs1).
    destruct (IH (process_thing t acc)) as (n2 & Hq2 & Hs2).
    exists (n1 ++ n2). rewrite Hq2, Hq1, <- app_assoc.
    split; [done | set_solver].
Qed.

Lemma thing_queues (t : thing) :
  forall acc, exists new_ids,
    more_ids (process_thing t acc) = more_ids acc ++ new_ids
    /\ new_ids ⊆ thing_markers t.
Proof.
  induction t as [data | data reply_children IH | children_ids | ]
    using thing_listing_ind; intros acc.
  - exists []. rewrite app_nil_r. split; [|done].
    destruct (d_id data) as [comment_id|] eqn:Hid;
      [destruct (pending (fetched_ids acc) comment_id) eqn:Hp|].
    + by rewrite (process_thing_T1 _ _ _ _ Hid Hp).
    + by rewrite process_thing_T1_skip by (by rewrite Hid).
    + by rewrite process_thing_T1_skip by (by rewrite Hid).
  - destruct (d_id data) as [comment_id|] eqn:Hid;
      [destruct (pending (fetched_ids acc) comment_id) eqn:Hp|].
    + rewrite (process_thing_T1 _ _ _ _ Hid Hp), thing_markers_T1.
      destruct (listing_queues reply_children IH
                  (record_comment comment_id data acc)) as (n & Hq & Hs).
      by exists n.
    + rewrite process_thing_T1_skip by (by rewrite Hid).
      exists []. rewrite app_nil_r. split; [done | set_solver].
    + rewrite process_thing_T1_skip by (by rewrite Hid).
      exists []. rewrite app_nil_r. split; [done | set_solver].
  - eexists. split; [done|]. simpl. intros i Hi.
    by apply list_elem_of_filter in Hi as [_ Hi].
  - exists []. rewrite app_nil_r. split; [done | set_solver].
Qed.

Lemma walk_queues (children : list thing) (acc : accumulators) :
  exists new_ids,
    more_ids (_process_comment_listing children acc) = more_ids acc ++ new_ids
    /\ new_ids ⊆ listing_markers children.
Proof.
  apply listing_queues, Forall_forall. intros t _. apply thing_queues.
Qed.

(** A walk over a listing without markers leaves the queue as it is. *)
Lemma walk_without_markers (children : list thing) (acc : accumulators) :
  listing_markers children = [] ->
  more_ids (_process_comment_listing children acc) = more_ids acc.
Proof.
  intros Hnone. destruct (walk_queues children acc) as (new_ids & -> & Hsub).
  rewrite Hnone in Hsub. destruct new_ids as [|i new_ids].
  - by rewrite app_nil_r.
  - destruct (not_elem_of_nil i). apply Hsub. left.
Qed.

(** The comments after a walk were there before or are nodes of the
    listing. *)
Lemma walk_comments_from (children : list thing) (acc : accumulators)
    (c : Comment) :
  c ∈ comments (_process_comment_listing children acc) ->
  c ∈ comments acc \/ c ∈ listing_nodes children.
Proof.
  revert acc. induction children as [|t l IH]; intros acc Hc; [by left|].
  rewrite listing_cons in Hc. rewrite listing_nodes_cons.
  destruct (IH _ Hc) as [Hbefore | Hlater]; [|right; set_solver].
  destruct (process_thing_sublist t acc) as (new & Hnew & Hsub).
  rewrite Hnew in Hbefore. apply elem_of_app in Hbefore as [H1|H2]; [by left|].
  right. apply elem_of_app. left. by eapply elem_of_sublist.
Qed.

Lemma batches_enough (n m : nat) :
  forall ids : list string,
    (List.length ids <= n)%nat -> (List.length ids <= m)%nat ->
    batches n ids = batches m ids.
Proof.
  revert m. induction n as [|n IH]; intros [|m] [|i ids] Hn Hm;
    simpl in *; try done; try lia.
  f_equal. apply IH; rewrite length_drop; simpl; lia.
Qed.

Lemma settle_done (x : option response) (body : json_body) :
  settle x = Done body ->
  exists r, x = Some r /\ status_code r = 200 /\ json r = body.
Proof.
  unfold settle. destruct x as [r|]; [|done].
  destruct (Z.eqb_spec (status_code r) 200) as [H200|]; simpl; [|done].
  intros Hbody. exists r. split; [done|]. split; [done|].
  destruct (json r); by simplify_eq.
Qed.

Section Auth.
Import RedditClient.
Variable auth_remote : auth_api.
Variable remote : remote_api.
Hypothesis granted : forall k, grants (auth_remote k).

(** With a token and an answer that is not 429, a call sends once and
    settles. *)
Lemma auth_request_calm (fuel : nat) (method endpoint : string)
    (kwargs : list (string * string)) (s : self) (w : world) :
  status_code <$> answer (remote (calls w) (api_call method endpoint kwargs))
    <> Some 429 ->
  exists s' w' tr,
    _request auth_remote remote (S fuel) method endpoint kwargs s w
    = Some (settle (answer (remote (calls w) (api_call method endpoint kwargs))),
            s', w')
    /\ trace w' = trace w ++ tr
    /\ requests tr = [api_call method endpoint kwargs]
    /\ calls w' = S (calls w).
Proof.
  intros Hnot. set (req := api_call method endpoint kwargs) in *.
  destruct (check_token_granted auth_remote granted s w)
    as (checked & s0 & w0 & gap0 & Hcheck & Htrace0 & Hquiet0 & _ & Hcalls0).
  destruct (auth_rate_limit_gap s0 w0) as (gap & Htrace & Hquiet & _ & Hcalls).
  eexists _, _, ((gap0 ++ gap) ++ [EvRequest req]).
  split; [by eapply auth_request_once|].
  unfold send. cbn [snd trace calls].
  rewrite Htrace, Htrace0, Hcalls, Hcalls0.
  split; [by rewrite <- !app_assoc|]. split; [|done].
  rewrite requests_app, requests_housekeeping; [done|].
  by rewrite forallb_app, Hquiet0, Hquiet.
Qed.

(** The loop from a call on from which every answer is calm: it returns
    once the queue is used up, batch by batch. *)
Lemma auth_loop_calm (submission_id : string) (fuel : nat) :
  forall acc s w,
    (forall n req, (calls w <= n)%nat -> calm (remote n req)) ->
    (List.length (more_ids acc) < fuel)%nat ->
    exists acc' s' w' tr,
      expansion_loop auth_remote remote fuel submission_id acc s w
      = Some (acc', s', w')
      /\ trace w' = trace w ++ tr
      /\ requests tr
         = map (expansion_call submission_id)
               (batches (List.length (more_ids acc)) (more_ids acc))
      /\ more_ids acc' = [].
Proof.
  induction fuel as [|fuel IH]; intros acc s w Hcalm Hlen; [lia|].
  cbn [expansion_loop drop_batch more_ids].
  destruct (more_ids acc) as [|i ids] eqn:Hids.
  { exists acc, s, w, []. by rewrite app_nil_r. }
  set (batch := take 100 (i :: ids)).
  set (w1 := print _ w).
  assert (calls w1 = calls w) as Hcalls1 by done.
  destruct (Hcalm (calls w) (expansion_call submission_id batch)) as [Hnot Hquiet];
    [lia|].
  destruct (auth_request_calm fuel "GET" "/api/morechildren"
              (morechildren_params submission_id batch) s w1)
    as (s2 & w2 & tr2 & Hcall & Htr2 & Hreq2 & Hcalls2); [done|].
  rewrite Hcall. fold (expansion_call submission_id batch) in *.
  rewrite Hcalls1 in *.
  assert (forall acc_next w_next tr_next,
             more_ids acc_next = drop 100 (i :: ids) ->
             trace w_next = trace w2 ++ tr_next ->
             requests tr_next = [] ->
             calls w_next = calls w2 ->
             exists acc' s' w' tr,
               expansion_loop auth_remote remote fuel submission_id
                              acc_next s2 w_next = Some (acc', s', w')
               /\ trace w' = trace w ++ tr
               /\ requests tr
                  = map (expansion_call submission_id)
                        (batches (List.length (i :: ids)) (i :: ids))
               /\ more_ids acc' = [])
    as Hnext.
  { intros acc_next w_next tr_next Hqueue Htrace Hsilent Hcalls_next.
    destruct (IH acc_next s2 w_next)
      as (acc' & s' & w' & tr & Hrun & Htr & Hreq & Hempty).
    - intros n req Hn. apply Hcalm. lia.
    - rewrite Hqueue, length_drop. simpl in *. lia.
    - exists acc', s', w', ([EvPrint (MsgExpanding (List.length batch)
                                       (List.length (drop 100 (i :: ids))))]
                            ++ tr2 ++ tr_next ++ tr).
      split; [done|]. split.
      { rewrite Htr, Htrace, Htr2. unfold w1. simpl. by rewrite <- !app_assoc. }
      split.
      { rewrite !requests_app, Hreq2, Hsilent, Hreq, Hqueue.
        change (batches (List.length (i :: ids)) (i :: ids))
          with (batch :: batches (List.length ids) (drop 100 (i :: ids))).
        simpl. do 2 f_equal.
        apply batches_enough; rewrite length_drop; simpl; lia. }
      done. }
  destruct (settle (answer (remote (calls w) (expansion_call submission_id batch))))
    as [more_response|e] eqn:Hsettle.
  - apply settle_done in Hsettle as (r & Hanswer & H200 & Hjson).
    apply (Hnext _ w2 []).
    + destruct (more_things more_response) as [things|] eqn:Hthings;
        [|simpl; by rewrite Hids].
      rewrite walk_without_markers; [simpl; by rewrite Hids|].
      apply (Hquiet r things Hanswer). by rewrite Hjson.
    + by rewrite app_nil_r.
    + done.
    + done.
  - apply (Hnext _ (print (MsgWarning e) w2) [EvPrint (MsgWarning e)]);
      try done.
    simpl. by rewrite Hids.
Qed.
End Auth.

Section Sources.
Import RedditClient.
Variable auth_remote : auth_api.
Variable remote : remote_api.

Lemma check_token_gap (s s0 : self) (w w0 : world) (checked : outcome bool) :
  check_token auth_remote s w = (checked, s0, w0) ->
  exists gap, trace w0 = trace w ++ gap /\ requests gap = []
              /\ calls w0 = calls w.
Proof.
  unfold check_token, authenticate. intros H.
  repeat case_match; simplify_eq; simpl;
    first [ by exists [EvAuthenticate] | exists []; by rewrite app_nil_r ].
Qed.

Lemma answered_app_l (first : nat) (sent later : list request)
    (things : list thing) :
  answered remote first sent things ->
  answered remote first (sent ++ later) things.
Proof.
  intros (k & req & r & Hk & Hrest). exists k, req, r. split; [|done].
  by apply lookup_app_l_Some.
Qed.

Lemma answered_app_r (first : nat) (sent later : list request)
    (things : list thing) :
  answered remote (first + List.length sent) later things ->
  answered remote first (sent ++ later) things.
Proof.
  intros (k & req & r & Hk & Hanswer & Hrest).
  exists (List.length sent + k)%nat, req, r. split; [|split; [|done]].
  - by rewrite lookup_app_r, Nat.add_comm, Nat.add_sub by lia.
  - by rewrite Nat.add_assoc.
Qed.

(** What a call that returns has done: its trace has grown by as many
    requests as it made calls, all of them its own request, and a body it
    returns is that of a 200 answer to one of them. *)
Lemma auth_request_sent (fuel : nat) (method endpoint : string)
    (kwargs : list (string * string)) :
  forall s w out s' w',
    _request auth_remote remote fuel method endpoint kwargs s w
      = Some (out, s', w') ->
    exists tr,
      trace w' = trace w ++ tr
      /\ calls w' = (calls w + List.length (requests tr))%nat
      /\ Forall (fun req => req = api_call method endpoint kwargs) (requests tr)
      /\ forall body, out = Done body ->
           exists k r,
             requests tr !! k = Some (api_call method endpoint kwargs)
             /\ answer (remote (calls w + k)%nat
                               (api_call method endpoint kwargs)) = Some r
             /\ status_code r = 200 /\ json r = body.
Proof.
  set (req := api_call method endpoint kwargs).
  induction fuel as [|fuel IH]; intros s w out s' w' Hrun; [done|].
  cbn [_request] in Hrun. fold req in Hrun.
  destruct (check_token auth_remote s w) as [[checked s0] w0] eqn:Hcheck.
  destruct (check_token_gap _ _ _ _ _ Hcheck)
    as (gap0 & Htrace0 & Hreq0 & Hcalls0).
  destruct checked as [checked|e'].
  2:{ simplify_eq. exists gap0. rewrite Hreq0. simpl.
      split; [done|]. split; [lia|]. split; [constructor | done]. }
  destruct (auth_rate_limit_gap s0 w0) as (gap & Htrace & Hquiet & _ & Hcalls).
  destruct (_rate_limit s0 w0) as [s1 w1]. simpl in Htrace, Hcalls.
  unfold send in Hrun. rewrite Hcalls, Hcalls0 in Hrun.
  assert (requests (gap0 ++ gap ++ [EvRequest req]) = [req]) as Hsent.
  { by rewrite !requests_app, Hreq0, requests_housekeeping. }
  assert (trace w1 ++ [EvRequest req] = trace w ++ gap0 ++ gap ++ [EvRequest req])
    as Htrace2 by (by rewrite Htrace, Htrace0, <- !app_assoc).
  destruct (answer (remote (calls w) req)) as [response|] eqn:Hanswer.
  - destruct (status_code response =? 429) eqn:Hstatus.
    + apply IH in Hrun as (tr & Htr & Hc & Hreq & Hbody).
      simpl in Htr, Hc, Hbody.
      exists ((gap0 ++ gap ++ [EvRequest req])
              ++ [EvPrint (MsgRateLimited (retry_delay response));
                  EvSleep (retry_delay response)] ++ tr).
      rewrite (requests_app (gap0 ++ gap ++ [EvRequest req])), Hsent,
        requests_app.
      simpl. split; [by rewrite Htr, Htrace2, <- !app_assoc|].
      split; [lia|]. split; [by constructor|].
      intros body Hout. destruct (Hbody body Hout) as (k & r & Hk & Ha & Hrest).
      exists (S k), r. split; [done|]. split; [|done].
      by replace (calls w + S k)%nat with (S (calls w + k)) by lia.
    + exists (gap0 ++ gap ++ [EvRequest req]). rewrite Hsent.
      destruct (Z.eqb_spec (status_code response) 200) as [H200|Hnot];
        simpl in Hrun.
      * assert (w' = {| now := now w1
                               + Z.of_nat (took (remote (calls w) req));
                        calls := S (calls w); auths := auths w1;
                        trace := trace w1 ++ [EvRequest req] |}
                /\ (forall body, out = Done body -> json response = body))
          as (-> & Hjson).
        { destruct (json response); simplify_eq; split; congruence. }
        simpl. split; [done|]. split; [lia|]. split; [by repeat constructor|].
        intros body Hout. exists 0%nat, response. rewrite Nat.add_0_r.
        split; [done|]. split; [done|]. split; [done|]. by apply Hjson.
      * simplify_eq. simpl. split; [done|]. split; [lia|].
        split; [by repeat constructor | done].
  - simplify_eq. exists (gap0 ++ gap ++ [EvRequest req]). rewrite Hsent. simpl.
    split; [done|]. split; [lia|]. split; [by repeat constructor | done].
Qed.

(** Where the requests and the comments of a run of the loop come from. *)
Lemma auth_loop_sent (submission_id : string) (fuel : nat) :
  forall acc s w acc' s' w',
    expansion_loop auth_remote remote fuel submission_id acc s w
      = Some (acc', s', w') ->
    exists tr,
      trace w' = trace w ++ tr
      /\ calls w' = (calls w + List.length (requests tr))%nat
      /\ Forall (fun req => exists batch,
                   req = expansion_call submission_id batch
                   /\ Forall (fun i =>
                                i ∈ more_ids acc
                                \/ listed_from remote (calls w) (requests tr) i)
                             batch)
                (requests tr)
      /\ forall c, c ∈ comments acc' ->
                   c ∈ comments acc
                   \/ returned_from remote (calls w) (requests tr) c.
Proof.
  induction fuel as [|fuel IH]; intros acc s w acc' s' w' Hrun; [done|].
  cbn [expansion_loop drop_batch more_ids] in Hrun.
  destruct (more_ids acc) as [|i ids] eqn:Hids.
  { simplify_eq. exists []. rewrite app_nil_r. simpl. split; [done|].
    split; [lia|]. split; [constructor | by left]. }
  set (batch := take 100 (i :: ids)) in *.
  set (w1 := print _ w) in *.
  destruct (_request auth_remote remote (S fuel) "GET" "/api/morechildren"
              (morechildren_params submission_id batch) s w1)
    as [[[out s2] w2]|] eqn:Hcall; [|done].
  destruct (auth_request_sent _ _ _ _ _ _ _ _ _ Hcall)
    as (tr2 & Htr2 & Hcalls2 & Hreq2 & Hbody).
  change (calls w1) with (calls w) in Hcalls2, Hbody.
  fold (expansion_call submission_id batch) in Hreq2, Hbody.
  assert (forall i0, i0 ∈ drop 100 (i :: ids) -> i0 ∈ i :: ids) as Hrest_ids.
  { intros i0 Hi0. by eapply elem_of_sublist, sublist_drop. }
  assert (forall acc_next w_next tr_next,
             (forall i0, i0 ∈ more_ids acc_next ->
                i0 ∈ i :: ids
                \/ listed_from remote (calls w) (requests tr2) i0) ->
             (forall c, c ∈ comments acc_next ->
                c ∈ comments acc
                \/ returned_from remote (calls w) (requests tr2) c) ->
             trace w_next = trace w2 ++ tr_next ->
             requests tr_next = [] ->
             calls w_next = calls w2 ->
             expansion_loop auth_remote remote fuel submission_id
                            acc_next s2 w_next = Some (acc', s', w') ->
             exists tr,
               trace w' = trace w ++ tr
               /\ calls w' = (calls w + List.length (requests tr))%nat
               /\ Forall (fun req => exists batch,
                            req = expansion_call submission_id batch
                            /\ Forall (fun i0 =>
                                         i0 ∈ i :: ids
                                         \/ listed_from remote (calls w)
                                                        (requests tr) i0)
                                      batch)
                         (requests tr)
               /\ forall c, c ∈ comments acc' ->
                            c ∈ comments acc
                            \/ returned_from remote (calls w) (requests tr) c)
    as Hnext.
  { intros acc_next w_next tr_next Hqueue Hfrom Htrace Hsilent Hcalls_next Hrest.
    destruct (IH _ _ _ _ _ _ Hrest) as (tr & Htr & Hc & Hreq & Hcomments).
    exists ([EvPrint (MsgExpanding (List.length batch)
                        (List.length (drop 100 (i :: ids))))]
            ++ tr2 ++ tr_next ++ tr).
    assert (requests ([EvPrint (MsgExpanding (List.length batch)
                                  (List.length (drop 100 (i :: ids))))]
                      ++ tr2 ++ tr_next ++ tr)
            = requests tr2 ++ requests tr) as ->.
    { rewrite !requests_app, Hsilent. done. }
    assert (calls w_next = (calls w + List.length (requests tr2))%nat) as Hshift
      by lia.
    rewrite Hshift in Hreq, Hcomments.
    split.
    { rewrite Htr, Htrace, Htr2. unfold w1. simpl. by rewrite <- !app_assoc. }
    split; [rewrite length_app; lia|].
    split.
    { apply Forall_app. split.
      - eapply Forall_impl; [exact Hreq2|]. intros req ->. exists batch.
        split; [done|]. apply Forall_forall. intros i0 Hi0. left.
        by eapply elem_of_sublist, sublist_take.
      - eapply Forall_impl; [exact Hreq|].
        intros req (batch' & -> & Hbatch'). exists batch'. split; [done|].
        eapply Forall_impl; [exact Hbatch'|].
        intros i0 [Hin | (things & Hans & Hi0)].
        + destruct (Hqueue i0 Hin) as [Hold | (things & Hans & Hi0)];
            [by left|].
          right. exists things. split; [by apply answered_app_l | done].
        + right. exists things. split; [by apply answered_app_r | done]. }
    intros c Hc'. destruct (Hcomments c Hc') as [Hin | (things & Hans & Hin)].
    - destruct (Hfrom c Hin) as [Hold | (things & Hans & Hin')]; [by left|].
      right. exists things. split; [by apply answered_app_l | done].
    - right. exists things. split; [by apply answered_app_r | done]. }
  destruct out as [more_response|e].
  - destruct (Hbody more_response eq_refl) as (k & r & Hk & Hanswer & H200 & Hjson).
    assert (forall things, more_things more_response = Some things ->
                           answered remote (calls w) (requests tr2) things)
      as Hanswered.
    { intros things Hthings.
      exists k, (expansion_call submission_id batch), r. by rewrite Hjson. }
    apply (Hnext _ w2 []) in Hrun; try done; [| |by rewrite app_nil_r].
    + intros i0 Hi0.
      destruct (more_things more_response) as [things|] eqn:Hthings.
      * destruct (walk_queues things (drop_batch acc)) as (new_ids & Hq & Hsub).
        rewrite Hq in Hi0. simpl in Hi0. rewrite Hids in Hi0.
        apply elem_of_app in Hi0 as [Hi0 | Hi0]; [left; by apply Hrest_ids|].
        right. exists things. split; [by apply Hanswered | by apply Hsub].
      * left. simpl in Hi0. rewrite Hids in Hi0. by apply Hrest_ids.
    + intros c Hc.
      destruct (more_things more_response) as [things|] eqn:Hthings;
        [|by left].
      apply walk_comments_from in Hc as [Hc|Hc]; [by left|].
      right. exists things. split; [by apply Hanswered | done].
  - apply (Hnext _ (print (MsgWarning e) w2) [EvPrint (MsgWarning e)]) in Hrun;
      try done.
    + intros i0 Hi0. left. simpl in Hi0. rewrite Hids in Hi0. by apply Hrest_ids.
    + intros c Hc. by left.
Qed.
End Sources.

End FailedBatchFacts.

(** C4 (amended): when the call for a batch raises, the authenticated
    loop prints the warning and goes on from the queue without its first
    hundred entries, with the comments and the seen set as they were.
    Whatever the remote does, when the loop returns: the warning stands in
    the trace right after the failed call; every id requested after it
    stood in the rest of the queue or is listed by an answer given after the
    failed call; and every comment of the result was there before the batch
    or is a comment node of an answer given after the failed call. So an id
    of the failed batch is asked for again, or has a comment in the result,
    only when it occurs again in the queue or comes back in a later answer.
    And the loop does go on: when the failed answer is not 429, the token
    endpoint grants a token when asked, and no later answer is 429 or lists
    markers, the loop returns, given fuel for one iteration per id left,
    after the requests for exactly the batches of the rest of the queue, in
    order, and with an empty queue. *)
Theorem C4_failed_batch_is_dropped :
  (forall (auth_remote : RedditClient.auth_api) (remote : remote_api)
          (fuel : nat) (submission_id : string) (acc : accumulators)
          (s s2 : RedditClient.self) (w w2 : world) (e : exn),
      more_ids acc <> [] ->
      RedditClient._request auth_remote remote (S fuel) "GET"
        "/api/morechildren"
        (morechildren_params submission_id (take 100 (more_ids acc))) s
        (print (MsgExpanding (List.length (take 100 (more_ids acc)))
                             (List.length (drop 100 (more_ids acc)))) w)
      = Some (Raised e, s2, w2) ->
      RedditClient.expansion_loop auth_remote remote (S fuel) submission_id
        acc s w
      = RedditClient.expansion_loop auth_remote remote fuel submission_id
          {| comments := comments acc;
             more_ids := drop 100 (more_ids acc);
             fetched_ids := fetched_ids acc |}
          s2 (print (MsgWarning e) w2)
      /\ forall acc' s' w',
           RedditClient.expansion_loop auth_remote remote (S fuel)
             submission_id acc s w
           = Some (acc', s', w') ->
           exists tail,
             trace w' = trace w2 ++ EvPrint (MsgWarning e) :: tail
             /\ calls w' = (calls w2 + List.length (requests tail))%nat
             /\ Forall (fun req => exists batch,
                          req = Loop.expansion_call submission_id batch
                          /\ Forall (fun i =>
                                       i ∈ drop 100 (more_ids acc)
                                       \/ Loop.listed_from remote (calls w2)
                                                           (requests tail) i)
                                    batch)
                       (requests tail)
             /\ forall c, c ∈ comments acc' ->
                          c ∈ comments acc
                          \/ Loop.returned_from remote (calls w2)
                                                (requests tail) c)
  /\ (forall (auth_remote : RedditClient.auth_api) (remote : remote_api)
             (fuel : nat) (submission_id : string) (acc : accumulators)
             (s : RedditClient.self) (w : world) (e : exn),
      more_ids acc <> [] ->
      (forall k, Gate.grants (auth_remote k)) ->
      status_code <$> answer (remote (calls w)
                                (Loop.expansion_call submission_id
                                   (take 100 (more_ids acc))))
        <> Some 429 ->
      Gate.settle (answer (remote (calls w)
                             (Loop.expansion_call submission_id
                                (take 100 (more_ids acc)))))
        = Raised e ->
      (forall n req, (calls w < n)%nat -> Loop.calm (remote n req)) ->
      (List.length (drop 100 (more_ids acc)) < fuel)%nat ->
      exists s2 w2 acc' s' w' tail,
        RedditClient._request auth_remote remote (S fuel) "GET"
          "/api/morechildren"
          (morechildren_params submission_id (take 100 (more_ids acc))) s
          (print (MsgExpanding (List.length (take 100 (more_ids acc)))
                               (List.length (drop 100 (more_ids acc)))) w)
        = Some (Raised e, s2, w2)
        /\ RedditClient.expansion_loop auth_remote remote (S fuel)
             submission_id acc s w
           = Some (acc', s', w')
        /\ trace w' = trace w2 ++ EvPrint (MsgWarning e) :: tail
        /\ requests tail
           = map (Loop.expansion_call submission_id)
                 (Loop.batches (List.length (drop 100 (more_ids acc)))
                               (drop 100 (more_ids acc)))
        /\ more_ids acc' = []).
Proof.
  split.
  - intros auth_remote remote fuel submission_id acc s s2 w w2 e
      Hpending Hcall.
    pose proof (LoopFacts.expansion_loop_failed_batch auth_remote remote fuel
                  submission_id acc s s2 w w2 e Hpending Hcall) as Hstep.
    split; [exact Hstep|].
    intros acc' s' w' Hrun. rewrite Hstep in Hrun.
    destruct (FailedBatchFacts.auth_loop_sent auth_remote remote submission_id
                fuel _ _ _ _ _ _ Hrun)
      as (tail & Htrace & Hcalls & Hreq & Hcomments).
    exists tail. split; [|by split].
    rewrite Htrace. simpl. by rewrite <- app_assoc.
  - intros auth_remote remote fuel submission_id acc s w e
      Hpending Hgranted Hnot Hfails Hcalm Hfuel.
    set (batch := take 100 (more_ids acc)) in *.
    set (w1 := print _ w).
    destruct (FailedBatchFacts.auth_request_calm auth_remote remote Hgranted
                fuel "GET" "/api/morechildren"
                (morechildren_params submission_id batch) s w1)
      as (s2 & w2 & tr2 & Hcall & Htr2 & Hreq2 & Hcalls2); [done|].
    fold (Loop.expansion_call submission_id batch) in Hcall.
    change (calls w1) with (calls w) in Hcall, Hcalls2.
    rewrite Hfails in Hcall.
    destruct (FailedBatchFacts.auth_loop_calm auth_remote remote Hgranted
                submission_id fuel
                {| comments := comments acc;
                   more_ids := drop 100 (more_ids acc);
                   fetched_ids := fetched_ids acc |}
                s2 (print (MsgWarning e) w2))
      as (acc' & s' & w' & tail & Hrun & Htrace & Hreq & Hempty).
    { intros n req Hn. apply Hcalm. simpl in Hn. lia. }
    { done. }
    exists s2, w2, acc', s', w', tail.
    split; [done|]. split.
    { cbn [RedditClient.expansion_loop].
      destruct (more_ids acc) as [|i ids] eqn:Hids; [done|].
      fold batch. cbn [drop_batch more_ids]. rewrite Hids. fold w1.
      rewrite Hcall. unfold drop_batch. by rewrite Hids. }
    split; [|done].
    rewrite Htrace. simpl. by rewrite <- app_assoc.
Qed.

(** 101 pending ids, the first call answered 500: the warning is printed,
    and the one request after it is for the one id left. *)
Lemma C4_failed_batch_witness :
  (more_ids (Scenario.pending_markers 101) <> []
   /\ (forall k, Gate.grants (Scenario.granting k))
   /\ Gate.settle
        (answer (Scenario.failing_once (calls Scenario.start)
                   (Loop.expansion_call "post"
                      (take 100 (more_ids (Scenario.pending_markers 101))))))
      = Raised (ApiError 500)
   /\ (forall n req, (calls Scenario.start < n)%nat ->
                     Loop.calm (Scenario.failing_once n req)))
  /\ exists s2 w2 acc' s' w' tail,
       RedditClient._request Scenario.granting Scenario.failing_once 3 "GET"
         "/api/morechildren"
         (morechildren_params "post"
            (take 100 (more_ids (Scenario.pending_markers 101))))
         Scenario.auth_self
         (print
            (MsgExpanding
               (List.length (take 100 (more_ids (Scenario.pending_markers 101))))
               (List.length (drop 100 (more_ids (Scenario.pending_markers 101)))))
            Scenario.start)
       = Some (Raised (ApiError 500), s2, w2)
       /\ RedditClient.expansion_loop Scenario.granting Scenario.failing_once 3
            "post" (Scenario.pending_markers 101) Scenario.auth_self
            Scenario.start
          = Some (acc', s', w')
       /\ trace w' = trace w2 ++ EvPrint (MsgWarning (ApiError 500)) :: tail
       /\ requests tail
          = map (Loop.expansion_call "post")
                (Loop.batches
                   (List.length
                      (drop 100 (more_ids (Scenario.pending_markers 101))))
                   (drop 100 (more_ids (Scenario.pending_markers 101))))
       /\ more_ids acc' = [].
Proof.
  assert (more_ids (Scenario.pending_markers 101) <> []) as Hpending
    by discriminate.
  assert (forall k, Gate.grants (Scenario.granting k)) as Hgranted
    by (intros k; by eexists _, _).
  assert (forall n req, (calls Scenario.start < n)%nat ->
                        Loop.calm (Scenario.failing_once n req)) as Hcalm.
  { intros [|n] req Hn; [simpl in Hn; lia|]. split; [discriminate|].
    intros r things [= <-] [= <-]. reflexivity. }
  split.
  { split; [exact Hpending|]. split; [exact Hgranted|].
    split; [reflexivity | exact Hcalm]. }
  apply (proj2 C4_failed_batch_is_dropped Scenario.granting
           Scenario.failing_once 2%nat "post" (Scenario.pending_markers 101)
           Scenario.auth_self Scenario.start (ApiError 500));
    try done.
  vm_compute. lia.
Defined.

(** The claim as it stands fails: in a queue of 101 entries with [m0] first
    and last, the call for the first hundred fails, and [m0] is still in the
    queue, is asked for again and has its comment in the result. *)
Lemma C4_failed_id_comes_back :
  exists s2 w2 acc' s' w',
    RedditClient._request Scenario.granting Scenario.failing_then_m0 3 "GET"
      "/api/morechildren"
      (morechildren_params "post"
         (take 100 (more_ids Scenario.repeated_marker)))
      Scenario.auth_self (print (MsgExpanding 100 1) Scenario.start)
    = Some (Raised (ApiError 500), s2, w2)
    /\ RedditClient.expansion_loop Scenario.granting Scenario.failing_then_m0
         3 "post" Scenario.repeated_marker Scenario.auth_self Scenario.start
       = Some (acc', s', w')
    /\ "m0" ∈ take 100 (more_ids Scenario.repeated_marker)
    /\ "m0" ∈ more_ids (drop_batch Scenario.repeated_marker)
    /\ requests (trace w')
       = [Loop.expansion_call "post"
            (take 100 (more_ids Scenario.repeated_marker));
          Loop.expansion_call "post" ["m0"]]
    /\ comments acc' = [Scenario.flat "m0" "t3_post"].
Proof.
  eexists _, _, _, _, _.
  split; [vm_compute; reflexivity|].
  split; [vm_compute; reflexivity|].
  split; [vm_compute; left|].
  split; [vm_compute; left|].
  split; vm_compute; reflexivity.
Qed.

(** * The exporters and the configuration *)

Module ExporterProps.
Import Exporters.

Lemma append_answers (answers : list Comment) (lines : list string) :
  fold_left (fun lines answer =>
               let lines := lines ++ ["A:"] in
               let lines := lines ++ [c_body answer] in
               lines ++ [""]) answers lines
  = lines ++ List.concat (map (fun answer => ["A:"; c_body answer; ""]) answers).
Proof.
  revert lines. induction answers as [|a l IH]; intros lines; simpl.
  - by rewrite app_nil_r.
  - rewrite IH, <- !app_assoc. done.
Qed.

Lemma markdown_group_block (lines : list string) (qa : QAPair) :
  markdown_group lines qa = lines ++ group_block qa.
Proof.
  unfold markdown_group, group_block. rewrite append_answers, <- !app_assoc. done.
Qed.

Lemma fold_markdown_group (qa_pairs : list QAPair) (lines : list string) :
  fold_left markdown_group qa_pairs lines
  = lines ++ List.concat (map group_block qa_pairs).
Proof.
  revert lines. induction qa_pairs as [|qa l IH]; intros lines; simpl.
  - by rewrite app_nil_r.
  - by rewrite IH, markdown_group_block, <- app_assoc.
Qed.

Lemma fold_enumerate {A B : Type} (g : B -> A -> B) (h : nat -> nat)
    (l : list A) (b : B) :
  fold_left (fun acc '(i, x) => g acc x) (imap (fun i x => (h i, x)) l) b
  = fold_left g l b.
Proof.
  revert h b. induction l as [|x l IH]; intros h b; [done|].
  simpl. apply (IH (h ∘ S)).
Qed.

(** X22: the text export is the Markdown export, for every list of
    groups. *)
Theorem X22_text_export_is_markdown_export (qa_pairs : list QAPair) :
  text_export qa_pairs = markdown_export qa_pairs.
Proof.
  unfold text_export, markdown_export, text_lines, markdown_lines, enumerate1.
  f_equal. apply (fold_enumerate markdown_group S).
Qed.

(** X23: the exported lines are the blocks of the groups one after the
    other, each block being [Q:], the question's body and an empty line,
    then [A:], the body and an empty line for every answer in order, then
    one more empty line: four lines for a group and three for an answer. *)
Theorem X23_export_is_made_of_blocks (qa_pairs : list QAPair) :
  markdown_lines qa_pairs = List.concat (map group_block qa_pairs)
  /\ List.length (markdown_lines qa_pairs)
     = (4 * List.length qa_pairs
        + 3 * List.length (Correlator.all_answers qa_pairs))%nat.
Proof.
  unfold markdown_lines. rewrite fold_markdown_group. simpl. split; [done|].
  induction qa_pairs as [|qa l IH]; [done|].
  cbn [map List.concat]. rewrite length_app, IH.
  unfold Correlator.all_answers. cbn [map List.concat]. rewrite length_app.
  unfold group_block. rewrite !length_app. simpl.
  assert (List.length (List.concat
                         (map (fun answer => ["A:"; c_body answer; ""])
                              (answers qa)))
          = (3 * List.length (answers qa))%nat) as ->; [|lia].
  induction (answers qa) as [|a l' IH']; [done|]. simpl in *. lia.
Qed.

End ExporterProps.

Module ConfigProps.
Import Config.

Lemma truthy_py_or (a b : option string) :
  truthy (py_or a b) = truthy a || truthy b.
Proof. unfold py_or. by destruct (truthy a) eqn:Ha. Qed.

Lemma missing_nil (b1 b2 b3 b4 : bool) :
  (if b1 then [] else ["REDDIT_CLIENT_ID"])
  ++ (if b2 then [] else ["REDDIT_CLIENT_SECRET"])
  ++ (if b3 then [] else ["REDDIT_USERNAME"])
  ++ (if b4 then [] else ["REDDIT_PASSWORD"]) = [] ->
  b1 = true /\ b2 = true /\ b3 = true /\ b4 = true.
Proof. by destruct b1, b2, b3, b4. Qed.

(** X24: a [Config] that is built holds four non-empty credentials, each
    the argument when that is non-empty and the environment's value
    otherwise, and a user agent; when building fails, the error lists, in the
    order of the checks, exactly the credentials that neither the arguments
    nor the environment give, and there is one at least. *)
Theorem X24_config_is_validated
    (arg_id arg_secret arg_username arg_password arg_agent : option string)
    (environ : gmap string string) :
  match init arg_id arg_secret arg_username arg_password arg_agent environ with
  | inr c =>
      truthy (client_id c) = true /\ truthy (client_secret c) = true
      /\ truthy (username c) = true /\ truthy (password c) = true
      /\ client_id c = py_or arg_id (environ !! "REDDIT_CLIENT_ID")
      /\ client_secret c = py_or arg_secret (environ !! "REDDIT_CLIENT_SECRET")
      /\ username c = py_or arg_username (environ !! "REDDIT_USERNAME")
      /\ password c = py_or arg_password (environ !! "REDDIT_PASSWORD")
      /\ is_Some (user_agent c)
  | inl names =>
      names <> []
      /\ names
         = (if truthy arg_id || truthy (environ !! "REDDIT_CLIENT_ID")
            then [] else ["REDDIT_CLIENT_ID"])
           ++ (if truthy arg_secret || truthy (environ !! "REDDIT_CLIENT_SECRET")
               then [] else ["REDDIT_CLIENT_SECRET"])
           ++ (if truthy arg_username || truthy (environ !! "REDDIT_USERNAME")
               then [] else ["REDDIT_USERNAME"])
           ++ (if truthy arg_password || truthy (environ !! "REDDIT_PASSWORD")
               then [] else ["REDDIT_PASSWORD"])
  end.
Proof.
  unfold init.
  set (c := {| client_id := _ |}).
  assert (is_Some (user_agent c)) as Hagent.
  { unfold c, py_or. simpl. destruct (truthy arg_agent) eqn:Ha; [|by eexists].
    destruct arg_agent; [by eexists | done]. }
  assert (missing c
          = (if truthy arg_id || truthy (environ !! "REDDIT_CLIENT_ID")
             then [] else ["REDDIT_CLIENT_ID"])
            ++ (if truthy arg_secret || truthy (environ !! "REDDIT_CLIENT_SECRET")
                then [] else ["REDDIT_CLIENT_SECRET"])
            ++ (if truthy arg_username || truthy (environ !! "REDDIT_USERNAME")
                then [] else ["REDDIT_USERNAME"])
            ++ (if truthy arg_password || truthy (environ !! "REDDIT_PASSWORD")
                then [] else ["REDDIT_PASSWORD"])) as Hmissing.
  { unfold missing, c. cbn [client_id client_secret username password].
    by rewrite !truthy_py_or. }
  destruct (missing c) as [|name names] eqn:Hm.
  - symmetry in Hmissing. apply missing_nil in Hmissing as (H1 & H2 & H3 & H4).
    unfold c. cbn [client_id client_secret username password].
    rewrite !truthy_py_or, H1, H2, H3, H4. by repeat split.
  - split; [done | exact Hmissing].
Qed.

End ConfigProps.
